(** * bolt.diy hybrid file management and search: a shallow embedding

    The development follows the TypeScript sources:
    - [LocalFS]  : class [LocalFileSystem] (lib/files/hybrid-file-manager)
    - [Csb]      : [CodeSandboxInstance], [MockCodeSandboxInstance] and the
                   exported [codesandbox] promise (lib/codesandbox)
    - [Manager]  : class [HybridFileManager] (lib/files/hybrid-file-manager)
    - [SearchUI] : [performWebContainerSearch] (the search panel)

    JavaScript strings are modelled by [string]; numbers that hold line
    numbers, offsets and lengths by [Z]; a thrown [Error] by its message. *)

From Stdlib Require Import String Ascii List ZArith Bool Lia Sorted.
Import ListNotations.
Local Open Scope string_scope.
Local Open Scope Z_scope.

Set Implicit Arguments.

(** ** How an awaited computation ends *)

(** An [async] body either returns, throws (the promise rejects) or never
    settles. *)
Inductive completion (A : Type) : Type :=
| Ok (a : A)
| Throw (message : string)
| Pending.

Arguments Ok {A} a.
Arguments Throw {A} message.
Arguments Pending {A}.

Definition settled {A} (c : completion A) : Prop :=
  match c with Pending => False | _ => True end.

(** State and exceptions: the fields written before a throw stay written. *)
Definition M (S A : Type) : Type := S -> completion A * S.

Definition ret {S A} (a : A) : M S A := fun s => (Ok a, s).

Definition throw {S A} (message : string) : M S A := fun s => (Throw message, s).

Definition bind {S A B} (c : M S A) (k : A -> M S B) : M S B :=
  fun s =>
    match c s with
    | (Ok a, s') => k a s'
    | (Throw e, s') => (Throw e, s')
    | (Pending, s') => (Pending, s')
    end.

(** [try { c } catch (error) { h error }] *)
Definition try_catch {S A} (c : M S A) (h : string -> M S A) : M S A :=
  fun s =>
    match c s with
    | (Throw e, s') => h e s'
    | r => r
    end.

(** [await p] for a promise whose settlement is [p]. *)
Definition await {S A} (p : completion A) : M S A := fun s => (p, s).

Definition modify {S} (f : S -> S) : M S unit := fun s => (Ok tt, f s).

Definition gets {S A} (f : S -> A) : M S A := fun s => (Ok (f s), s).

Declare Scope js_scope.
Delimit Scope js_scope with js.
Notation "x <- c ;; k" := (bind c (fun x => k))
  (at level 100, c at next level, right associativity) : js_scope.
Notation "c ;;; k" := (bind c (fun _ => k))
  (at level 100, right associativity) : js_scope.
Local Open Scope js_scope.

(** ** String primitives of the JavaScript runtime *)

Module Js.

Definition slash : ascii := "/"%char.
Definition newline : ascii := "010"%char.
Definition nl : string := String newline EmptyString.
Definition dq : string := String "034"%char EmptyString.

Definition len (s : string) : Z := Z.of_nat (String.length s).

(** [s.startsWith(p)] *)
Definition startsWith (s p : string) : bool := String.prefix p s.

(** [s.substring(start)] *)
Definition substringFrom (s : string) (start : Z) : string :=
  let n := Z.to_nat start in
  String.substring n (String.length s - n) s.

(** [s.substring(a, b)]: both ends are clamped to [0, length] and swapped
    when [a > b]. *)
Definition substring (s : string) (a b : Z) : string :=
  let clamp x := Z.max 0 (Z.min x (len s)) in
  let lo := Z.min (clamp a) (clamp b) in
  let hi := Z.max (clamp a) (clamp b) in
  String.substring (Z.to_nat lo) (Z.to_nat (hi - lo)) s.

(** [s.includes(c)] for a one-character needle. *)
Fixpoint includesChar (c : ascii) (s : string) : bool :=
  match s with
  | EmptyString => false
  | String a s' => if Ascii.eqb a c then true else includesChar c s'
  end.

(** [s.lastIndexOf(c)] for a one-character needle; [-1] when absent. *)
Fixpoint lastIndexOfChar (c : ascii) (s : string) : Z :=
  match s with
  | EmptyString => -1
  | String a s' =>
      let r := lastIndexOfChar c s' in
      if 0 <=? r then r + 1
      else if Ascii.eqb a c then 0 else -1
  end.

(** [s.indexOf(q)]; [-1] when absent. *)
Definition indexOf (s q : string) : Z :=
  match String.index 0 q s with
  | Some n => Z.of_nat n
  | None => -1
  end.

(** [s.split(c)] for a one-character separator: never the empty array. *)
Fixpoint split (c : ascii) (s : string) : list string :=
  match s with
  | EmptyString => [EmptyString]
  | String a s' =>
      if Ascii.eqb a c then EmptyString :: split c s'
      else match split c s' with
           | w :: ws => String a w :: ws
           | [] => [String a EmptyString]
           end
  end.

(** [Boolean(s)]: the empty string is the only falsy string. *)
Definition truthy (s : string) : bool :=
  match s with EmptyString => false | _ => true end.

(** [s.replace(/\/+/g, '/')]: every run of slashes becomes one slash. *)
Fixpoint collapseSlashes (s : string) : string :=
  match s with
  | EmptyString => EmptyString
  | String a s' =>
      if Ascii.eqb a slash then
        match s' with
        | String b _ =>
            if Ascii.eqb b slash then collapseSlashes s'
            else String a (collapseSlashes s')
        | EmptyString => String a EmptyString
        end
      else String a (collapseSlashes s')
  end.

(** [String.prototype.toLowerCase] on code units below 256: the letters
    A-Z and the Latin-1 capitals (0xC0-0xDE except the multiplication sign
    0xD7) move up by 32; everything else is left alone. *)
Definition lowerChar (a : ascii) : ascii :=
  let n := nat_of_ascii a in
  if ((65 <=? n) && (n <=? 90))%nat then ascii_of_nat (n + 32)
  else if ((192 <=? n) && (n <=? 222) && negb (n =? 215))%nat
       then ascii_of_nat (n + 32)
       else a.

Fixpoint toLowerCaseLatin1 (s : string) : string :=
  match s with
  | EmptyString => EmptyString
  | String a s' => String (lowerChar a) (toLowerCaseLatin1 s')
  end.

End Js.

(** ** [Map<string, V>]: unique keys kept in insertion order *)

Module JsMap.
Section WithValue.
Variable V : Type.

Definition t : Type := list (string * V).

Fixpoint get (k : string) (m : t) : option V :=
  match m with
  | [] => None
  | (k', v) :: m' => if String.eqb k' k then Some v else get k m'
  end.

Definition has (k : string) (m : t) : bool :=
  match get k m with Some _ => true | None => false end.

(** [m.set(k, v)]: a known key keeps its place, a new one goes last. *)
Fixpoint set (k : string) (v : V) (m : t) : t :=
  match m with
  | [] => [(k, v)]
  | (k', v') :: m' =>
      if String.eqb k' k then (k, v) :: m' else (k', v') :: set k v m'
  end.

(** [m.delete(k)] *)
Definition delete (k : string) (m : t) : t :=
  filter (fun e => negb (String.eqb (fst e) k)) m.

Definition keys (m : t) : list string := map fst m.
End WithValue.
End JsMap.

(** ** [LocalFileSystem] *)

Module LocalFS.
Import Js.

Record FileNode : Type := mkFileNode {
  path : string;
  content : string;
  isBinary : bool;
  lastModified : Z
}.

Record LocalFileSystem : Type := mkLocal { _files : JsMap.t FileNode }.

Record Stat : Type := mkStat { isFile : bool; isDirectory : bool; size : Z }.

(** [JSON.stringify] of the scaffold [package.json], two-space indent. *)
Definition packageJson : string :=
  "{" ++ nl ++
  "  " ++ dq ++ "name" ++ dq ++ ": " ++ dq ++ "bolt-diy-project" ++ dq ++ "," ++ nl ++
  "  " ++ dq ++ "version" ++ dq ++ ": " ++ dq ++ "1.0.0" ++ dq ++ "," ++ nl ++
  "  " ++ dq ++ "description" ++ dq ++ ": " ++ dq ++ "Local development project" ++ dq ++ "," ++ nl ++
  "  " ++ dq ++ "scripts" ++ dq ++ ": {" ++ nl ++
  "    " ++ dq ++ "dev" ++ dq ++ ": " ++ dq ++ "vite" ++ dq ++ "," ++ nl ++
  "    " ++ dq ++ "build" ++ dq ++ ": " ++ dq ++ "vite build" ++ dq ++ "," ++ nl ++
  "    " ++ dq ++ "preview" ++ dq ++ ": " ++ dq ++ "vite preview" ++ dq ++ nl ++
  "  }" ++ nl ++
  "}".

Definition readmeMd : string :=
  "# Bolt.diy Project" ++ nl ++ nl ++
  "This is a local development project with hybrid file management.".

Definition appTsx : string :=
  "import React from 'react'" ++ nl ++ nl ++
  "function App() {" ++ nl ++
  "  return (" ++ nl ++
  "    <div>" ++ nl ++
  "      <h1>Hello from Bolt.diy!</h1>" ++ nl ++
  "      <p>This is a local development environment with hybrid file management.</p>" ++ nl ++
  "    </div>" ++ nl ++
  "  )" ++ nl ++
  "}" ++ nl ++ nl ++
  "export default App".

(** [new LocalFileSystem()], built at time [now]. *)
Definition new (now : Z) : LocalFileSystem :=
  let f0 := [] in
  let f1 := JsMap.set "/package.json" (mkFileNode "/package.json" packageJson false now) f0 in
  let f2 := JsMap.set "/README.md" (mkFileNode "/README.md" readmeMd false now) f1 in
  let f3 := JsMap.set "/src/App.tsx" (mkFileNode "/src/App.tsx" appTsx false now) f2 in
  mkLocal f3.

Definition readFile (path : string) : M LocalFileSystem string :=
  fun fs =>
    match JsMap.get path (_files fs) with
    | None => (Throw ("File not found: " ++ path), fs)
    | Some file => (Ok (content file), fs)
    end.

(** One turn of the loop over [parts] in [mkdir]. *)
Definition mkdir_step (now : Z) (acc : string * JsMap.t FileNode) (part : string)
  : string * JsMap.t FileNode :=
  let currentPath := fst acc ++ "/" ++ part in
  if JsMap.has currentPath (snd acc) then (currentPath, snd acc)
  else (currentPath, JsMap.set currentPath (mkFileNode currentPath "" false now) (snd acc)).

Definition mkdir (now : Z) (path : string) (recursive : bool)
  : M LocalFileSystem unit :=
  fun fs =>
    if JsMap.has path (_files fs) then
      if recursive then (Ok tt, fs)
      else (Throw ("Directory already exists: " ++ path), fs)
    else if recursive then
      let parts := filter truthy (split slash path) in
      (Ok tt, mkLocal (snd (fold_left (mkdir_step now) parts ("", _files fs))))
    else
      (Ok tt, mkLocal (JsMap.set path (mkFileNode path "" false now) (_files fs))).

Definition writeFile (now : Z) (path content : string) : M LocalFileSystem unit :=
  (let parentDir := substring path 0 (lastIndexOfChar slash path) in
   (if truthy parentDir && negb (String.eqb parentDir path)
    then mkdir now parentDir true
    else ret tt) ;;;
   modify (fun fs =>
     mkLocal (JsMap.set path (mkFileNode path content false now) (_files fs))))%js.

(** The prefix under which the entries of the directory [path] live. *)
Definition dirPrefix (path : string) : string :=
  if String.eqb path "/" then "/" else path ++ "/".

(** One turn of the loop over the map's entries in [readdir]. *)
Definition readdir_step (path : string) (entries : list string)
    (e : string * FileNode) : list string :=
  let filePath := fst e in
  let prefix := dirPrefix path in
  if startsWith filePath prefix && negb (String.eqb filePath path) then
    let relativePath := substringFrom filePath (len prefix) in
    if negb (includesChar slash relativePath) then entries ++ [relativePath]
    else entries
  else entries.

Definition readdir (path : string) : M LocalFileSystem (list string) :=
  fun fs => (Ok (fold_left (readdir_step path) (_files fs) []), fs).

Definition deleteFile (path : string) : M LocalFileSystem unit :=
  fun fs =>
    if negb (JsMap.has path (_files fs)) then (Throw ("File not found: " ++ path), fs)
    else (Ok tt, mkLocal (JsMap.delete path (_files fs))).

(** One turn of the loop over the snapshot [Array.from(entries())] in
    [deleteDirectory]. *)
Definition deleteDirectory_step (prefix : string) (files : JsMap.t FileNode)
    (filePath : string) : JsMap.t FileNode :=
  if startsWith filePath prefix then JsMap.delete filePath files else files.

Definition deleteDirectory (path : string) (recursive : bool)
  : M LocalFileSystem unit :=
  (present <- gets (fun fs => JsMap.has path (_files fs)) ;;
   if negb present then throw ("Directory not found: " ++ path)
   else
     (if negb recursive then
        entries <- readdir path ;;
        if (0 <? Z.of_nat (List.length entries)) then throw ("Directory not empty: " ++ path)
        else ret tt
      else ret tt) ;;;
     modify (fun fs => mkLocal (JsMap.delete path (_files fs))) ;;;
     if recursive then
       modify (fun fs =>
         mkLocal (fold_left (deleteDirectory_step (dirPrefix path))
                            (JsMap.keys (_files fs)) (_files fs)))
     else ret tt)%js.

Definition exists_ (path : string) : M LocalFileSystem bool :=
  gets (fun fs => JsMap.has path (_files fs)).

Definition stat (path : string) : M LocalFileSystem Stat :=
  fun fs =>
    match JsMap.get path (_files fs) with
    | None => (Throw ("File not found: " ++ path), fs)
    | Some file =>
        (Ok (mkStat (negb (String.eqb (content file) ""))
                    (String.eqb (content file) "")
                    (len (content file))), fs)
    end.

(** A call that changes the store, and the store it leaves (whether it
    returns or throws). *)
Inductive Change : Type :=
| DoWriteFile (now : Z) (path content : string)
| DoMkdir (now : Z) (path : string) (recursive : bool)
| DoDeleteFile (path : string)
| DoDeleteDirectory (path : string) (recursive : bool).

Definition change (fs : LocalFileSystem) (c : Change) : LocalFileSystem :=
  match c with
  | DoWriteFile now p content => snd (writeFile now p content fs)
  | DoMkdir now p r => snd (mkdir now p r fs)
  | DoDeleteFile p => snd (deleteFile p fs)
  | DoDeleteDirectory p r => snd (deleteDirectory p r fs)
  end.

(** The paths [mkdir(path, true)] walks through: [/p1], [/p1/p2], ... for
    the non-empty segments [p1, p2, ...] of [path]. *)
Fixpoint chainFrom (currentPath : string) (parts : list string) : list string :=
  match parts with
  | [] => []
  | part :: rest =>
      let currentPath := currentPath ++ "/" ++ part in
      currentPath :: chainFrom currentPath rest
  end.

Definition ancestorsOf (path : string) : list string :=
  chainFrom "" (filter truthy (split slash path)).

End LocalFS.

(** A [for (const x of xs)] loop whose body may throw or hang. *)
Fixpoint forOf {S A} (xs : list A) (body : A -> M S unit) : M S unit :=
  match xs with
  | [] => ret tt
  | x :: rest => (body x ;;; forOf rest body)%js
  end.

(** A computation that keeps an invariant of the state, however it ends. *)
Definition preserves {S A} (Inv : S -> Prop) (c : M S A) : Prop :=
  forall s, Inv s -> Inv (snd (c s)).

(** ** The [codesandbox] module *)

Module Csb.
Import Js.

Record CodeSandboxContext : Type := mkContext {
  loaded : bool;
  sandboxId : option string;
  error : option string
}.

Record CodeSandboxSearchResult : Type := mkResult {
  path : string;
  lineNumber : Z;
  previewText : string;
  matchCharStart : Z;
  matchCharEnd : Z
}.

(** Optional flags are read for their truthiness only, so an absent flag is
    [false]. *)
Record CodeSandboxSearchOptions : Type := mkOptions {
  folders : option (list string);
  includePattern : option string;
  excludePattern : option string;
  maxResults : option Z;
  useRegExp : bool;
  caseSensitive : bool;
  wholeWord : bool
}.

(** What [stat.isDirectory()] and [stat.isFile()] answer. *)
Record StatResult : Type := mkStatResult { isDirectory : bool; isFile : bool }.

(** The SDK file system behind [_fileSystem], as a search sees it: each
    call either resolves or rejects ([None]). *)
Record SandboxFs : Type := mkSandboxFs {
  readTextFile : string -> option string;
  fs_readdir : string -> option (list string);
  fs_stat : string -> option StatResult
}.

(** An instance of [CodeSandboxInstance]; [_mockFiles] is present on a
    [MockCodeSandboxInstance] only. *)
Record CodeSandboxInstance : Type := mkInstance {
  _sandboxId : string;
  _fileSystem : option SandboxFs;
  _initialized : bool;
  _error : option string;
  _mockFiles : option (JsMap.t string)
}.

(** The instance under construction or in use, and the module-level
    [codesandboxContext]. *)
Record Heap : Type := mkHeap {
  this : CodeSandboxInstance;
  codesandboxContext : CodeSandboxContext
}.

(** *** Creation and initialization *)

Record Sandbox : Type := mkSandbox {
  sandbox_id : string;
  connect : completion unit
}.

(** The SDK seen from [initialize]: how [sandboxes.create] settles and,
    when it does, after how many milliseconds. *)
Record Sdk : Type := mkSdk {
  create : completion Sandbox;
  create_settles_after : Z
}.

Definition creationTimeout : Z := 8000.

(** [Promise.race([sandboxPromise, timeoutPromise])] *)
Definition raceWithTimeout (sdk : Sdk) : completion Sandbox :=
  match create sdk with
  | Pending => Throw "Sandbox creation timeout"
  | settledCreate =>
      if create_settles_after sdk <? creationTimeout then settledCreate
      else Throw "Sandbox creation timeout"
  end.

(** [s.includes(q)] *)
Definition includes (s q : string) : bool := negb (indexOf s q =? -1).

(** [new CodeSandboxInstance(apiKey)] *)
Definition newInstance (apiKey : string) : CodeSandboxInstance :=
  mkInstance "" None false None None.

Definition mockPackageJson : string :=
  "{" ++ nl ++
  "  " ++ dq ++ "name" ++ dq ++ ": " ++ dq ++ "bolt-diy-project" ++ dq ++ "," ++ nl ++
  "  " ++ dq ++ "version" ++ dq ++ ": " ++ dq ++ "1.0.0" ++ dq ++ "," ++ nl ++
  "  " ++ dq ++ "description" ++ dq ++ ": " ++ dq ++ "Mock project for fallback mode" ++ dq ++ nl ++
  "}".

Definition mockReadme : string :=
  "# Bolt.diy Project" ++ nl ++ nl ++ "This is a mock project for fallback mode.".

Definition mockAppTsx : string :=
  "import React from 'react'" ++ nl ++ nl ++
  "function App() {" ++ nl ++
  "  return (" ++ nl ++
  "    <div>" ++ nl ++
  "      <h1>Hello from Bolt.diy!</h1>" ++ nl ++
  "      <p>This is a mock application.</p>" ++ nl ++
  "    </div>" ++ nl ++
  "  )" ++ nl ++
  "}" ++ nl ++ nl ++
  "export default App".

(** [new MockCodeSandboxInstance()] *)
Definition newMockInstance : CodeSandboxInstance :=
  let f1 := JsMap.set "/package.json" mockPackageJson [] in
  let f2 := JsMap.set "/README.md" mockReadme f1 in
  let f3 := JsMap.set "/src/App.tsx" mockAppTsx f2 in
  mkInstance "" None false None (Some f3).

Definition set_sandboxId (id : string) (h : Heap) : Heap :=
  let i := this h in
  mkHeap (mkInstance id (_fileSystem i) (_initialized i) (_error i) (_mockFiles i))
         (codesandboxContext h).

Definition set_initialized (b : bool) (h : Heap) : Heap :=
  let i := this h in
  mkHeap (mkInstance (_sandboxId i) (_fileSystem i) b (_error i) (_mockFiles i))
         (codesandboxContext h).

Definition set_error (e : option string) (h : Heap) : Heap :=
  let i := this h in
  mkHeap (mkInstance (_sandboxId i) (_fileSystem i) (_initialized i) e (_mockFiles i))
         (codesandboxContext h).

Definition set_context (c : CodeSandboxContext) (h : Heap) : Heap :=
  mkHeap (this h) c.

(** [CodeSandboxInstance.initialize] *)
Definition initialize (sdk : Sdk) : M Heap unit :=
  (initialized <- gets (fun h => _initialized (this h)) ;;
   if initialized then ret tt
   else
     try_catch
       (sandbox <- await (raceWithTimeout sdk) ;;
        modify (set_sandboxId (sandbox_id sandbox)) ;;;
        _ <- await (connect sandbox) ;;
        modify (set_initialized true) ;;;
        modify (fun h =>
          set_context (mkContext true (Some (_sandboxId (this h))) None) h))
       (fun errorMessage =>
          let message :=
            if includes errorMessage "DataView"
               || includes errorMessage "Offset is outside the bounds"
               || includes errorMessage "RangeError"
            then "CodeSandbox SDK connection error - using local fallback"
            else errorMessage in
          modify (set_error (Some message)) ;;;
          modify (fun h =>
            set_context (mkContext false (sandboxId (codesandboxContext h))
                                   (Some message)) h) ;;;
          throw ("CodeSandbox initialization failed: " ++ message)))%js.

(** [MockCodeSandboxInstance.initialize]: always succeeds. *)
Definition mockInitialize : M Heap unit := ret tt.

(** The instances of [CodeSandboxInstance] itself that the code builds:
    what the constructor returns, and what a call of [initialize] leaves
    of such an instance, however the call ends. *)
Inductive constructed : CodeSandboxInstance -> Prop :=
| constructed_new (apiKey : string) : constructed (newInstance apiKey)
| constructed_initialize (i : CodeSandboxInstance) (sdk : Sdk)
    (context : CodeSandboxContext) :
    constructed i ->
    constructed (this (snd (initialize sdk (mkHeap i context)))).

(** What the module is loaded with. *)
Record ModuleEnv : Type := mkModuleEnv {
  SSR : bool;
  VITE_CSB_API_KEY : option string;
  hot_codesandbox : option (completion CodeSandboxInstance);
  sdk : Sdk
}.

(** The exported promise [codesandbox]: how it settles, and the context
    it leaves behind. *)
Definition codesandbox (env : ModuleEnv) (context : CodeSandboxContext)
  : completion CodeSandboxInstance * CodeSandboxContext :=
  if SSR env then (Pending, context)
  else
    match VITE_CSB_API_KEY env with
    | None => (Throw "CodeSandbox API key not found", context)
    | Some apiKey =>
        if negb (truthy apiKey) then (Throw "CodeSandbox API key not found", context)
        else
          match hot_codesandbox env with
          | Some cached => (cached, context)
          | None =>
              let chain : M Heap CodeSandboxInstance :=
                try_catch
                  (try_catch
                     (initialize (sdk env) ;;; gets this)
                     (fun _ => fun h =>
                        let h' := mkHeap newMockInstance (codesandboxContext h) in
                        (mockInitialize ;;; gets this)%js h'))
                  (fun _ => fun h =>
                     let h' := mkHeap newMockInstance (codesandboxContext h) in
                     (mockInitialize ;;; gets this)%js h') in
              let (r, h) := chain (mkHeap (newInstance apiKey) context) in
              (r, codesandboxContext h)
          end
    end.

(** [isMockInstance && isMockInstance()]: only the mock has the method. *)
Definition isMockInstance (i : CodeSandboxInstance) : bool :=
  match _mockFiles i with Some _ => true | None => false end.

(** *** Reading, as the search does *)

Definition mockReaddir_step (path : string) (entries : list string)
    (e : string * string) : list string :=
  let filePath := fst e in
  let prefix := if String.eqb path "/" then "/" else path ++ "/" in
  if startsWith filePath prefix && negb (String.eqb filePath path) then
    let relativePath := substringFrom filePath (len prefix) in
    if negb (includesChar slash relativePath) then entries ++ [relativePath]
    else entries
  else entries.

Definition notInitialized (i : CodeSandboxInstance) : bool :=
  negb (_initialized i) || match _fileSystem i with None => true | Some _ => false end.

Definition readFile (i : CodeSandboxInstance) (path : string) : completion string :=
  match _mockFiles i with
  | Some files =>
      match JsMap.get path files with
      | Some c => Ok c
      | None => Ok ""
      end
  | None =>
      match _fileSystem i with
      | Some fs =>
          if negb (_initialized i) then Throw "CodeSandbox not initialized"
          else match readTextFile fs path with
               | Some c => Ok c
               | None => Ok ""
               end
      | None => Throw "CodeSandbox not initialized"
      end
  end.

Definition readdir (i : CodeSandboxInstance) (path : string)
  : completion (list string) :=
  match _mockFiles i with
  | Some files => Ok (fold_left (mockReaddir_step path) files [])
  | None =>
      match _fileSystem i with
      | Some fs =>
          if negb (_initialized i) then Throw "CodeSandbox not initialized"
          else match fs_readdir fs path with
               | Some entries => Ok entries
               | None => Ok []
               end
      | None => Throw "CodeSandbox not initialized"
      end
  end.

Definition stat (i : CodeSandboxInstance) (path : string)
  : completion StatResult :=
  match _mockFiles i with
  | Some files =>
      match JsMap.get path files with
      | Some c =>
          if truthy c then Ok (mkStatResult false true)
          else Throw ("File not found: " ++ path)
      | None => Throw ("File not found: " ++ path)
      end
  | None =>
      match _fileSystem i with
      | Some fs =>
          if negb (_initialized i) then Throw "CodeSandbox not initialized"
          else match fs_stat fs path with
               | Some s => Ok s
               | None => Throw ("Failed to stat " ++ path)
               end
      | None => Throw "CodeSandbox not initialized"
      end
  end.

(** [healthCheck]: inherited by the mock, whose [_initialized] stays false. *)
Definition healthCheck (i : CodeSandboxInstance) : bool :=
  if negb (_initialized i) then false
  else match readdir i "/" with
       | Ok _ => true
       | _ => false
       end.

(** *** Text search *)

(** The [results] array of [textSearch] and the calls made to
    [progressCallback], oldest first. *)
Record SearchState : Type := mkSearchState {
  results : list CodeSandboxSearchResult;
  calls : list (string * list CodeSandboxSearchResult)
}.

Definition emptySearch : SearchState := mkSearchState [] [].

(** The number of matches handed to [progressCallback] so far. *)
Definition emitted (st : SearchState) : Z :=
  fold_left (fun n call => n + Z.of_nat (List.length (snd call))) (calls st) 0.

Definition with_maxResults (n : option Z) (o : CodeSandboxSearchOptions)
  : CodeSandboxSearchOptions :=
  mkOptions (folders o) (includePattern o) (excludePattern o) n
            (useRegExp o) (caseSensitive o) (wholeWord o).

Definition progressCallback (filePath : string)
    (fileMatches : list CodeSandboxSearchResult) : M SearchState unit :=
  modify (fun st => mkSearchState (results st) (calls st ++ [(filePath, fileMatches)])).

Definition pushResults (fileMatches : list CodeSandboxSearchResult)
  : M SearchState unit :=
  modify (fun st => mkSearchState (results st ++ fileMatches) (calls st)).

Section Search.
(** The runtime's [String.prototype.toLowerCase] and [RegExp]:
    [RegExp_new source flags] is [None] when the constructor throws a
    [SyntaxError]; [RegExp_exec] is [exec] on a fresh object, the index of
    the first match or [None] for [null]. *)
Variable toLowerCase : string -> string.
Variable RegExp : Type.
Variable RegExp_new : string -> string -> option RegExp.
Variable RegExp_exec : RegExp -> string -> option Z.

(** [new RegExp(pattern).test(s)] *)
Definition patternTest (pattern s : string) : completion bool :=
  match RegExp_new pattern "" with
  | None => Throw ("Invalid regular expression: " ++ pattern)
  | Some regex =>
      Ok (match RegExp_exec regex s with Some _ => true | None => false end)
  end.

Definition regexFlags (options : CodeSandboxSearchOptions) : string :=
  if caseSensitive options then "g" else "gi".

(** The [matchIndex] one turn of the line loop ends with. An invalid
    pattern in regular-expression mode is caught inside the loop
    ([continue], so no match); in whole-word mode the constructor is not
    guarded and the error leaves the loop. *)
Definition lineMatchIndex (query : string) (options : CodeSandboxSearchOptions)
    (line : string) : completion Z :=
  let searchQuery := if caseSensitive options then query else toLowerCase query in
  let searchLine := if caseSensitive options then line else toLowerCase line in
  if useRegExp options then
    match RegExp_new searchQuery (regexFlags options) with
    | Some regex =>
        match RegExp_exec regex searchLine with
        | Some index => Ok index
        | None => Ok (-1)
        end
    | None => Ok (-1)
    end
  else if wholeWord options then
    match RegExp_new ("\b" ++ searchQuery ++ "\b") (regexFlags options) with
    | Some wordRegex =>
        match RegExp_exec wordRegex searchLine with
        | Some index => Ok index
        | None => Ok (-1)
        end
    | None => Throw ("Invalid regular expression: " ++ searchQuery)
    end
  else Ok (indexOf searchLine searchQuery).

(** The loop over [lines], from [lineIndex] on. *)
Fixpoint scanLines (filePath query : string) (options : CodeSandboxSearchOptions)
    (lineIndex : Z) (lines : list string)
    (fileMatches : list CodeSandboxSearchResult)
  : completion (list CodeSandboxSearchResult) :=
  match lines with
  | [] => Ok fileMatches
  | line :: rest =>
      let lineNumber := lineIndex + 1 in
      match lineMatchIndex query options line with
      | Ok matchIndex =>
          scanLines filePath query options (lineIndex + 1) rest
            (if negb (matchIndex =? -1)
             then fileMatches ++
                    [mkResult filePath lineNumber line matchIndex
                              (matchIndex + len query)]
             else fileMatches)
      | Throw e => Throw e
      | Pending => Pending
      end
  end.

(** What the line loop is to report for [lines] numbered from
    [lineIndex + 1]: one match for each line whose turn ends with a
    [matchIndex] other than [-1]. *)
Definition reported (filePath query : string) (options : CodeSandboxSearchOptions)
    (lineIndex : Z) (lines : list string) (m : CodeSandboxSearchResult) : Prop :=
  exists (k : nat) (line : string) (matchIndex : Z),
    nth_error lines k = Some line /\
    lineMatchIndex query options line = Ok matchIndex /\
    matchIndex <> -1 /\
    m = mkResult filePath (lineIndex + Z.of_nat k + 1) line matchIndex
                 (matchIndex + len query).

(** [m] previews [line] and marks the first place where the case-folded
    query occurs in the case-folded line, for the length of the query as
    typed. *)
Definition marksFirstFolded (query line : string) (m : CodeSandboxSearchResult)
  : Prop :=
  exists pos : nat,
    previewText m = line /\
    matchCharStart m = Z.of_nat pos /\
    matchCharEnd m = Z.of_nat pos + len query /\
    String.substring pos (String.length (toLowerCase query)) (toLowerCase line)
    = toLowerCase query /\
    forall j, (j < pos)%nat ->
              String.substring j (String.length (toLowerCase query))
                               (toLowerCase line) <> toLowerCase query.

(** [options.excludePattern && new RegExp(options.excludePattern).test(filePath)] *)
Definition excluded (options : CodeSandboxSearchOptions) (filePath : string)
  : completion bool :=
  match excludePattern options with
  | Some pattern =>
      if truthy pattern then patternTest pattern filePath else Ok false
  | None => Ok false
  end.

(** [options.includePattern && !new RegExp(options.includePattern).test(filePath)] *)
Definition notIncluded (options : CodeSandboxSearchOptions) (filePath : string)
  : completion bool :=
  match includePattern options with
  | Some pattern =>
      if truthy pattern then
        match patternTest pattern filePath with
        | Ok b => Ok (negb b)
        | Throw e => Throw e
        | Pending => Pending
        end
      else Ok false
  | None => Ok false
  end.

Definition _searchInFile (i : CodeSandboxInstance) (filePath query : string)
    (options : CodeSandboxSearchOptions) : M SearchState unit :=
  try_catch
    (skip <- await (excluded options filePath) ;;
     if skip then ret tt
     else
       skip <- await (notIncluded options filePath) ;;
       if skip then ret tt
       else
         content <- await (readFile i filePath) ;;
         if negb (truthy content) then ret tt
         else
           fileMatches <- await (scanLines filePath query options 0
                                           (split newline content) []) ;;
           if 0 <? Z.of_nat (List.length fileMatches) then
             progressCallback filePath fileMatches ;;;
             pushResults fileMatches
           else ret tt)
    (fun _ => ret tt).

(** A batch that [_searchInFile] may hand to the callback for [filePath]:
    the file passed both filters, was read with content, was scanned to
    the end and had a match. *)
Definition flushed (i : CodeSandboxInstance) (query : string)
    (options : CodeSandboxSearchOptions)
    (call : string * list CodeSandboxSearchResult) : Prop :=
  exists content,
    excluded options (fst call) = Ok false /\
    notIncluded options (fst call) = Ok false /\
    readFile i (fst call) = Ok content /\
    truthy content = true /\
    scanLines (fst call) query options 0 (split newline content) [] = Ok (snd call) /\
    snd call <> [].

(** [_searchInFolder]; the walk has no bound of its own, so [fuel] limits
    its depth and a walk that runs out of it does not settle. *)
Fixpoint _searchInFolder (fuel : nat) (i : CodeSandboxInstance)
    (folderPath query : string) (options : CodeSandboxSearchOptions)
  : M SearchState unit :=
  match fuel with
  | O => await Pending
  | S fuel' =>
      try_catch
        (entries <- await (readdir i folderPath) ;;
         forOf entries (fun entry =>
           let fullPath := collapseSlashes (folderPath ++ "/" ++ entry) in
           try_catch
             (st <- await (stat i fullPath) ;;
              if isDirectory st then
                _searchInFolder fuel' i fullPath query options
              else if isFile st then
                _searchInFile i fullPath query options
              else ret tt)
             (fun _ => ret tt)))
        (fun _ => ret tt)
  end.

(** [CodeSandboxInstance.textSearch] *)
Definition walkTextSearch (fuel : nat) (i : CodeSandboxInstance) (query : string)
    (options : CodeSandboxSearchOptions) : M SearchState unit :=
  if notInitialized i then throw "CodeSandbox not initialized"
  else
    let searchFolders :=
      match folders options with Some fs => fs | None => ["/"] end in
    modify (fun st => mkSearchState [] (calls st)) ;;;
    forOf searchFolders (fun folder =>
      _searchInFolder fuel i folder query options).

(** The options with the two pattern modes switched off: all that the
    mock's search looks at is [caseSensitive]. *)
Definition plainOptions (o : CodeSandboxSearchOptions) : CodeSandboxSearchOptions :=
  mkOptions (folders o) (includePattern o) (excludePattern o) (maxResults o)
            false (caseSensitive o) false.

(** The line loop of [MockCodeSandboxInstance.textSearch]. *)
Fixpoint mockScanLines (filePath query : string)
    (options : CodeSandboxSearchOptions) (lineIndex : Z) (lines : list string)
    (results : list CodeSandboxSearchResult) : list CodeSandboxSearchResult :=
  match lines with
  | [] => results
  | line :: rest =>
      let lineNumber := lineIndex + 1 in
      let searchQuery := if caseSensitive options then query else toLowerCase query in
      let searchLine := if caseSensitive options then line else toLowerCase line in
      let matchIndex := indexOf searchLine searchQuery in
      mockScanLines filePath query options (lineIndex + 1) rest
        (if negb (matchIndex =? -1)
         then results ++
                [mkResult filePath lineNumber line matchIndex
                          (matchIndex + len query)]
         else results)
  end.

Definition mockScanFile (query : string) (options : CodeSandboxSearchOptions)
    (results : list CodeSandboxSearchResult) (e : string * string)
  : list CodeSandboxSearchResult :=
  mockScanLines (fst e) query options 0 (split newline (snd e)) results.

(** Grouping by [result.path] in an object; its own string keys come back
    from [Object.entries] in insertion order (file paths begin with a
    slash, so none is an array index). *)
Definition group_step (groupedResults : JsMap.t (list CodeSandboxSearchResult))
    (result : CodeSandboxSearchResult)
  : JsMap.t (list CodeSandboxSearchResult) :=
  let grouped :=
    if negb (JsMap.has (path result) groupedResults)
    then JsMap.set (path result) [] groupedResults
    else groupedResults in
  match JsMap.get (path result) grouped with
  | Some fileResults => JsMap.set (path result) (fileResults ++ [result])%list grouped
  | None => grouped
  end.

(** [MockCodeSandboxInstance.textSearch] *)
Definition mockTextSearch (files : JsMap.t string) (query : string)
    (options : CodeSandboxSearchOptions) : M SearchState unit :=
  let results := fold_left (mockScanFile query options) files [] in
  let groupedResults := fold_left group_step results [] in
  modify (fun st => mkSearchState results (calls st)) ;;;
  forOf groupedResults (fun e => progressCallback (fst e) (snd e)).

(** [instance.textSearch(query, options, progressCallback)] *)
Definition textSearch (fuel : nat) (i : CodeSandboxInstance) (query : string)
    (options : CodeSandboxSearchOptions) : M SearchState unit :=
  match _mockFiles i with
  | Some files => mockTextSearch files query options
  | None => walkTextSearch fuel i query options
  end.

End Search.

(** A [RegExp] for the patterns that are plain text (letters, digits,
    space, underscore, slash and dash, none of them special to a regular
    expression): such a pattern matches where it occurs, and the [i] flag
    compares the case-folded texts. Other patterns are not covered and are
    turned down like a syntax error. *)
Definition plainChar (a : ascii) : bool :=
  let n := nat_of_ascii a in
  (((48 <=? n) && (n <=? 57)) || ((65 <=? n) && (n <=? 90))
   || ((97 <=? n) && (n <=? 122)) || (n =? 32) || (n =? 95) || (n =? 47)
   || (n =? 45))%nat.

Fixpoint allPlain (s : string) : bool :=
  match s with
  | EmptyString => true
  | String a s' => plainChar a && allPlain s'
  end.

Record PlainRegExp : Type := mkPlain { source : string; ignoreCase : bool }.

Definition PlainRegExp_new (source flags : string) : option PlainRegExp :=
  if allPlain source then Some (mkPlain source (includesChar "i"%char flags))
  else None.

Definition PlainRegExp_exec (r : PlainRegExp) (s : string) : option Z :=
  let index :=
    if ignoreCase r
    then indexOf (toLowerCaseLatin1 s) (toLowerCaseLatin1 (source r))
    else indexOf s (source r) in
  if index =? -1 then None else Some index.

(** [isLoaded()]: the mock overrides it with [true]. *)
Definition isLoaded (i : CodeSandboxInstance) (context : CodeSandboxContext) : bool :=
  match _mockFiles i with
  | Some _ => true
  | None => _initialized i && loaded context
  end.

(** [getError()]: the mock overrides it with [null]. *)
Definition getError (i : CodeSandboxInstance) : option string :=
  match _mockFiles i with
  | Some _ => None
  | None => _error i
  end.

Definition getSandboxId (i : CodeSandboxInstance) : string := _sandboxId i.

(** The instance of the closed examples: initialized, over a sandbox
    whose root holds the one file [/a.txt]. *)
Definition exampleFs : SandboxFs :=
  mkSandboxFs
    (fun p => if String.eqb p "/a.txt" then Some ("foo bar" ++ nl ++ "baz foo")
              else None)
    (fun p => if String.eqb p "/" then Some ["a.txt"] else None)
    (fun p => if String.eqb p "/a.txt" then Some (mkStatResult false true)
              else if String.eqb p "/" then Some (mkStatResult true false)
              else None).

Definition exampleInstance : CodeSandboxInstance :=
  mkInstance "33s7n6" (Some exampleFs) true None None.

End Csb.

(** ** [HybridFileManager] *)

Module Manager.
Import Js.

Inductive Provider : Type := codesandbox | webcontainer | local.

(** What [_fileSystem] holds: a [LocalFileSystem] of the manager's own, or
    one of the two object literals built in [_initialize] that forward to
    the awaited instances. *)
Inductive FileSystemOperation : Type :=
| LocalAdapter (fs : LocalFS.LocalFileSystem)
| CodeSandboxAdapter
| WebContainerAdapter.

Inductive AdapterKind : Type := IsLocal | IsCodeSandbox | IsWebContainer.

Definition adapterKind (a : FileSystemOperation) : AdapterKind :=
  match a with
  | LocalAdapter _ => IsLocal
  | CodeSandboxAdapter => IsCodeSandbox
  | WebContainerAdapter => IsWebContainer
  end.

Record HybridFileManager : Type := mkManager {
  _provider : Provider;
  _isReady : bool;
  _error : option string;
  _fileSystem : FileSystemOperation;
  _codesandboxInstance : option Csb.CodeSandboxInstance;
  _webcontainerInstance : bool
}.

Definition set_provider (p : Provider) (m : HybridFileManager) :=
  mkManager p (_isReady m) (_error m) (_fileSystem m)
            (_codesandboxInstance m) (_webcontainerInstance m).

Definition set_isReady (b : bool) (m : HybridFileManager) :=
  mkManager (_provider m) b (_error m) (_fileSystem m)
            (_codesandboxInstance m) (_webcontainerInstance m).

Definition set_error (e : option string) (m : HybridFileManager) :=
  mkManager (_provider m) (_isReady m) e (_fileSystem m)
            (_codesandboxInstance m) (_webcontainerInstance m).

Definition set_fileSystem (a : FileSystemOperation) (m : HybridFileManager) :=
  mkManager (_provider m) (_isReady m) (_error m) a
            (_codesandboxInstance m) (_webcontainerInstance m).

Definition set_codesandboxInstance (i : Csb.CodeSandboxInstance)
    (m : HybridFileManager) :=
  mkManager (_provider m) (_isReady m) (_error m) (_fileSystem m)
            (Some i) (_webcontainerInstance m).

Definition set_webcontainerInstance (m : HybridFileManager) :=
  mkManager (_provider m) (_isReady m) (_error m) (_fileSystem m)
            (_codesandboxInstance m) true.

Section Runtimes.
(** [W] is the state of what lies outside the manager: the remote sandbox
    and the embedded runtime. The manager reaches them through the methods
    of the two awaited instances, which it holds as [any]. *)
Variable W : Type.

Record SandboxMethods : Type := mkSandboxMethods {
  sb_readFile : string -> M W string;
  sb_writeFile : string -> string -> M W unit;
  sb_readdir : string -> M W (list string);
  sb_mkdir : string -> bool -> M W unit;
  sb_remove : string -> option bool -> M W unit;
  sb_stat : string -> M W LocalFS.Stat
}.

Record WebContainerFs : Type := mkWebContainerFs {
  wc_readFile : string -> M W string;
  wc_writeFile : string -> string -> M W unit;
  wc_readdir : string -> M W (list string);
  wc_mkdir : string -> bool -> M W unit;
  wc_rm : string -> option bool -> M W unit
}.

Record Heap : Type := mkHeap { this : HybridFileManager; world : W }.

Variable sandbox : SandboxMethods.
Variable wcfs : WebContainerFs.
(** The time [new Date()] reads. *)
Variable now : Z.

Definition update (f : HybridFileManager -> HybridFileManager) : M Heap unit :=
  modify (fun h => mkHeap (f (this h)) (world h)).

(** A call on the manager's own [LocalFileSystem]. *)
Definition onLocal {A} (c : M LocalFS.LocalFileSystem A)
    (fs : LocalFS.LocalFileSystem) : M Heap A :=
  fun h =>
    let (r, fs') := c fs in
    (r, mkHeap (set_fileSystem (LocalAdapter fs') (this h)) (world h)).

(** A call on one of the awaited instances. *)
Definition onWorld {A} (c : M W A) : M Heap A :=
  fun h => let (r, w') := c (world h) in (r, mkHeap (this h) w').

(** [new HybridFileManager()], before the [_initialize()] it starts. *)
Definition new : HybridFileManager :=
  mkManager local false None (LocalAdapter (LocalFS.new now)) None false.

(** [_initialize], given how the imported promises [codesandbox] and
    [webcontainer] settle. *)
Definition _initialize (codesandboxPromise : completion Csb.CodeSandboxInstance)
    (webcontainerPromise : completion unit) : M Heap unit :=
  try_catch
    (try_catch
       (instance <- await codesandboxPromise ;;
        update (set_codesandboxInstance instance) ;;;
        if Csb.isMockInstance instance then
          update (set_provider local) ;;;
          update (set_fileSystem (LocalAdapter (LocalFS.new now)))
        else
          isHealthy <- ret (Csb.healthCheck instance) ;;
          if isHealthy then
            update (set_provider codesandbox) ;;;
            update (set_fileSystem CodeSandboxAdapter)
          else throw "CodeSandbox health check failed")
       (fun _ =>
          try_catch
            (_ <- await webcontainerPromise ;;
             update set_webcontainerInstance ;;;
             update (set_provider webcontainer) ;;;
             update (set_fileSystem WebContainerAdapter))
            (fun _ =>
               update (set_provider local) ;;;
               update (set_fileSystem (LocalAdapter (LocalFS.new now))))) ;;;
     update (set_isReady true))
    (fun message =>
       update (set_error (Some message)) ;;;
       update (set_provider local) ;;;
       update (set_fileSystem (LocalAdapter (LocalFS.new now))) ;;;
       update (set_isReady true)).

(** *** The methods of [this._fileSystem] *)

Definition fs_readFile (path : string) : M Heap string :=
  a <- gets (fun h => _fileSystem (this h)) ;;
  match a with
  | LocalAdapter fs => onLocal (LocalFS.readFile path) fs
  | CodeSandboxAdapter => onWorld (sb_readFile sandbox path)
  | WebContainerAdapter => onWorld (wc_readFile wcfs path)
  end.

Definition fs_writeFile (path content : string) : M Heap unit :=
  a <- gets (fun h => _fileSystem (this h)) ;;
  match a with
  | LocalAdapter fs => onLocal (LocalFS.writeFile now path content) fs
  | CodeSandboxAdapter => onWorld (sb_writeFile sandbox path content)
  | WebContainerAdapter => onWorld (wc_writeFile wcfs path content)
  end.

Definition fs_readdir (path : string) : M Heap (list string) :=
  a <- gets (fun h => _fileSystem (this h)) ;;
  match a with
  | LocalAdapter fs => onLocal (LocalFS.readdir path) fs
  | CodeSandboxAdapter => onWorld (sb_readdir sandbox path)
  | WebContainerAdapter => onWorld (wc_readdir wcfs path)
  end.

Definition fs_mkdir (path : string) (recursive : bool) : M Heap unit :=
  a <- gets (fun h => _fileSystem (this h)) ;;
  match a with
  | LocalAdapter fs => onLocal (LocalFS.mkdir now path recursive) fs
  | CodeSandboxAdapter => onWorld (sb_mkdir sandbox path recursive)
  | WebContainerAdapter => onWorld (wc_mkdir wcfs path recursive)
  end.

Definition fs_deleteFile (path : string) : M Heap unit :=
  a <- gets (fun h => _fileSystem (this h)) ;;
  match a with
  | LocalAdapter fs => onLocal (LocalFS.deleteFile path) fs
  | CodeSandboxAdapter => onWorld (sb_remove sandbox path None)
  | WebContainerAdapter => onWorld (wc_rm wcfs path None)
  end.

Definition fs_deleteDirectory (path : string) (recursive : bool) : M Heap unit :=
  a <- gets (fun h => _fileSystem (this h)) ;;
  match a with
  | LocalAdapter fs => onLocal (LocalFS.deleteDirectory path recursive) fs
  | CodeSandboxAdapter => onWorld (sb_remove sandbox path (Some recursive))
  | WebContainerAdapter => onWorld (wc_rm wcfs path (Some recursive))
  end.

Definition fs_exists (path : string) : M Heap bool :=
  a <- gets (fun h => _fileSystem (this h)) ;;
  match a with
  | LocalAdapter fs => onLocal (LocalFS.exists_ path) fs
  | CodeSandboxAdapter =>
      try_catch (onWorld (sb_stat sandbox path) ;;; ret true)
                (fun _ => ret false)
  | WebContainerAdapter =>
      try_catch (onWorld (wc_readdir wcfs path) ;;; ret true)
                (fun _ =>
                   try_catch (onWorld (wc_readFile wcfs path) ;;; ret true)
                             (fun _ => ret false))
  end.

Definition fs_stat (path : string) : M Heap LocalFS.Stat :=
  a <- gets (fun h => _fileSystem (this h)) ;;
  match a with
  | LocalAdapter fs => onLocal (LocalFS.stat path) fs
  | CodeSandboxAdapter => onWorld (sb_stat sandbox path)
  | WebContainerAdapter =>
      try_catch
        (onWorld (wc_readdir wcfs path) ;;; ret (LocalFS.mkStat false true 0))
        (fun _ =>
           try_catch
             (content <- onWorld (wc_readFile wcfs path) ;;
              ret (LocalFS.mkStat true false (len content)))
             (fun _ => throw ("File not found: " ++ path)))
  end.

(** *** The unified operations *)

Definition whenReady {A} (c : M Heap A) : M Heap A :=
  ready <- gets (fun h => _isReady (this h)) ;;
  if negb ready then throw "File manager not ready" else c.

Definition readFile (path : string) := whenReady (fs_readFile path).
Definition writeFile (path content : string) := whenReady (fs_writeFile path content).
Definition readdir (path : string) := whenReady (fs_readdir path).
Definition mkdir (path : string) (recursive : bool) := whenReady (fs_mkdir path recursive).
Definition deleteFile (path : string) := whenReady (fs_deleteFile path).
Definition deleteDirectory (path : string) (recursive : bool) :=
  whenReady (fs_deleteDirectory path recursive).
Definition exists_ (path : string) := whenReady (fs_exists path).
Definition stat (path : string) := whenReady (fs_stat path).

Definition healthCheck : M Heap bool :=
  try_catch
    (ready <- gets (fun h => _isReady (this h)) ;;
     if negb ready then ret false
     else readdir "/" ;;; ret true)
    (fun _ => ret false).

(** A call of one of the unified operations. *)
Inductive Call : Type :=
| CallReadFile (path : string)
| CallWriteFile (path content : string)
| CallReaddir (path : string)
| CallMkdir (path : string) (recursive : bool)
| CallDeleteFile (path : string)
| CallDeleteDirectory (path : string) (recursive : bool)
| CallExists (path : string)
| CallStat (path : string)
| CallHealthCheck.

(** The heap a call leaves behind, however it ends. *)
Definition after (c : Call) (h : Heap) : Heap :=
  match c with
  | CallReadFile p => snd (readFile p h)
  | CallWriteFile p content => snd (writeFile p content h)
  | CallReaddir p => snd (readdir p h)
  | CallMkdir p r => snd (mkdir p r h)
  | CallDeleteFile p => snd (deleteFile p h)
  | CallDeleteDirectory p r => snd (deleteDirectory p r h)
  | CallExists p => snd (exists_ p h)
  | CallStat p => snd (stat p h)
  | CallHealthCheck => snd (healthCheck h)
  end.

(** *** Uploads *)

(** A [File] of the browser: its name, its path inside the picked folder
    (empty outside a folder pick) and how [text()] settles. *)
Record File : Type := mkFile {
  name : string;
  webkitRelativePath : string;
  text : completion string
}.

Definition uploadFiles (files : list File) : M Heap unit :=
  ready <- gets (fun h => _isReady (this h)) ;;
  if negb ready then throw "File manager not ready"
  else
    forOf files (fun file =>
      content <- await (text file) ;;
      let path := "/" ++ name file in
      writeFile path content).

Definition uploadFolder (folder : list File) : M Heap unit :=
  ready <- gets (fun h => _isReady (this h)) ;;
  if negb ready then throw "File manager not ready"
  else
    forOf folder (fun file =>
      if truthy (webkitRelativePath file) then
        let path := "/" ++ webkitRelativePath file in
        content <- await (text file) ;;
        writeFile path content
      else
        let path := "/" ++ name file in
        content <- await (text file) ;;
        writeFile path content).

(** *** The file tree *)

(** The manager's heap together with the [files] array that
    [getFileTree] fills. *)
Record TreeWalk : Type := mkTreeWalk {
  heap : Heap;
  files : list LocalFS.FileNode
}.

(** A call on the manager made from inside the walk. *)
Definition inWalk {A} (c : M Heap A) : M TreeWalk A :=
  fun st => let (r, h') := c (heap st) in (r, mkTreeWalk h' (files st)).

Definition pushFile (node : LocalFS.FileNode) : M TreeWalk unit :=
  modify (fun st => mkTreeWalk (heap st) (files st ++ [node])).

(** The closure [traverse] of [getFileTree]; [fuel] bounds its depth as
    for the search walk. *)
Fixpoint traverse (fuel : nat) (path : string) : M TreeWalk unit :=
  match fuel with
  | O => await Pending
  | Datatypes.S fuel' =>
      try_catch
        (entries <- inWalk (readdir path) ;;
         forOf entries (fun entry =>
           let fullPath := collapseSlashes (path ++ "/" ++ entry) in
           try_catch
             (st <- inWalk (stat fullPath) ;;
              if LocalFS.isFile st then
                content <- inWalk (readFile fullPath) ;;
                pushFile (LocalFS.mkFileNode fullPath content false now)
              else if LocalFS.isDirectory st then traverse fuel' fullPath
              else ret tt)
             (fun _ => ret tt)))
        (fun _ => ret tt)
  end.

Definition getFileTree (fuel : nat) (rootPath : string)
  : M Heap (list LocalFS.FileNode) :=
  fun h =>
    let (r, st) := traverse fuel rootPath (mkTreeWalk h []) in
    (match r with
     | Ok _ => Ok (files st)
     | Throw e => Throw e
     | Pending => Pending
     end, heap st).

(** What selecting a provider fixes: the provider's name, readiness, the
    recorded error and which adapter [_fileSystem] is. *)
Definition selection (m : HybridFileManager)
  : Provider * bool * option string * AdapterKind :=
  (_provider m, _isReady m, _error m, adapterKind (_fileSystem m)).

(** A computation that leaves the selection as it found it, however it
    ends. *)
Definition keeps {A} (c : M Heap A) : Prop :=
  forall h, selection (this (snd (c h))) = selection (this h).

(** The provider field names the adapter in use. *)
Definition providerNamesAdapter (m : HybridFileManager) : bool :=
  match _provider m, adapterKind (_fileSystem m) with
  | codesandbox, IsCodeSandbox => true
  | webcontainer, IsWebContainer => true
  | local, IsLocal => true
  | _, _ => false
  end.

End Runtimes.

(** Runtimes that are out of reach: every call rejects. The closed
    examples run the manager against them. *)
Definition offlineSandbox : SandboxMethods unit :=
  mkSandboxMethods
    (fun _ => throw "offline") (fun _ _ => throw "offline")
    (fun _ => throw "offline") (fun _ _ => throw "offline")
    (fun _ _ => throw "offline") (fun _ => throw "offline").

Definition offlineWebContainerFs : WebContainerFs unit :=
  mkWebContainerFs
    (fun _ => throw "offline") (fun _ _ => throw "offline")
    (fun _ => throw "offline") (fun _ _ => throw "offline")
    (fun _ _ => throw "offline").

End Manager.

(** ** [HybridFilesStore] *)

(** A computation followed by a [finally] block: the block runs when the
    computation returns or throws, and the completion is the computation's
    unless the block itself throws or hangs. *)
Definition try_finally {S A} (c : M S A) (f : M S unit) : M S A :=
  fun s =>
    match c s with
    | (Pending, s') => (Pending, s')
    | (r, s') =>
        match f s' with
        | (Ok _, s'') => (r, s'')
        | (Throw e, s'') => (Throw e, s'')
        | (Pending, s'') => (Pending, s'')
        end
    end.

Module Store.
Import Js.

(** [obj[k] = v] for an object [v] on a plain object: an own property,
    which a new key gets last; the key [__proto__] sets the prototype
    instead and leaves the own properties as they are. The maps below list
    the own properties in the order of their creation, which is the order
    [Object.keys] gives them in unless a key is an array index (file paths
    begin with a slash). *)
Definition assign {V : Type} (k : string) (v : V) (obj : JsMap.t V) : JsMap.t V :=
  if String.eqb k "__proto__" then obj else JsMap.set k v obj.

(** The values of the store's atoms. *)
Record HybridFilesStore : Type := mkStore {
  files : JsMap.t LocalFS.FileNode;
  filesCount : Z;
  isLoading : bool;
  error : option string;
  provider : Manager.Provider
}.

Definition set_files (m : JsMap.t LocalFS.FileNode) (s : HybridFilesStore) :=
  mkStore m (filesCount s) (isLoading s) (error s) (provider s).

Definition set_filesCount (n : Z) (s : HybridFilesStore) :=
  mkStore (files s) n (isLoading s) (error s) (provider s).

Definition set_isLoading (b : bool) (s : HybridFilesStore) :=
  mkStore (files s) (filesCount s) b (error s) (provider s).

(** The atoms as the field initializers leave them. *)
Definition new : HybridFilesStore := mkStore [] 0 false None Manager.local.

(** [Object.keys(currentFiles).length] *)
Definition keyCount (m : JsMap.t LocalFS.FileNode) : Z :=
  Z.of_nat (List.length (JsMap.keys m)).

(** *** [getFileTree] of the store *)

Inductive TreeEntry : Type :=
| FileEntry
| DirectoryEntry (children : list string).

(** [xs.indexOf(x)] *)
Fixpoint arrayIndexOf (x : string) (xs : list string) : Z :=
  match xs with
  | [] => -1
  | y :: rest =>
      if String.eqb y x then 0
      else let r := arrayIndexOf x rest in
           if r <? 0 then -1 else r + 1
  end.

(** [xs[i]] inside a string concatenation: a missing element reads as
    [undefined]. *)
Definition arrayAt (xs : list string) (i : Z) : string :=
  if i <? 0 then "undefined" else nth (Z.to_nat i) xs "undefined".

(** [parts.slice(0, -1)] *)
Definition allButLast (parts : list string) : list string := removelast parts.

(** One turn of the inner loop: [currentPath] begins with a slash, so
    [tree[currentPath]] reads an own property or nothing. *)
Definition directory_step (parts : list string)
    (acc : string * JsMap.t TreeEntry) (part : string)
  : string * JsMap.t TreeEntry :=
  let currentPath := fst acc ++ "/" ++ part in
  let tree :=
    if negb (JsMap.has currentPath (snd acc))
    then JsMap.set currentPath (DirectoryEntry []) (snd acc)
    else snd acc in
  match JsMap.get currentPath tree with
  | Some (DirectoryEntry children) =>
      let child := currentPath ++ "/" ++ arrayAt parts (arrayIndexOf part parts + 1) in
      (currentPath,
       JsMap.set currentPath (DirectoryEntry (children ++ [child])) tree)
  | _ => (currentPath, tree)
  end.

(** One turn of the loop over [Object.keys(currentFiles)]. *)
Definition addDirectories (tree : JsMap.t TreeEntry) (path : string)
  : JsMap.t TreeEntry :=
  let parts := filter truthy (split slash path) in
  snd (fold_left (directory_step parts) (allButLast parts) ("", tree)).

Definition getFileTree (currentFiles : JsMap.t LocalFS.FileNode)
  : JsMap.t TreeEntry :=
  let tree :=
    fold_left (fun tree path => assign path FileEntry tree)
              (JsMap.keys currentFiles) [] in
  fold_left addDirectories (JsMap.keys currentFiles) tree.

(** The directories the inner loop walks through for a path: [/p1],
    [/p1/p2], ... for all its non-empty segments but the last. *)
Definition directoriesOf (path : string) : list string :=
  LocalFS.chainFrom "" (allButLast (filter truthy (split slash path))).

(** What [tree[d]] is after [more] has been pushed to its children, one
    turn of the inner loop at a time. *)
Definition pushed (e : option TreeEntry) (more : list string) : option TreeEntry :=
  match e, more with
  | Some FileEntry, _ => Some FileEntry
  | Some (DirectoryEntry children), _ => Some (DirectoryEntry (children ++ more))
  | None, [] => None
  | None, _ => Some (DirectoryEntry more)
  end.

Section Runtimes.
Variable W : Type.
Variable sandbox : Manager.SandboxMethods W.
Variable wcfs : Manager.WebContainerFs W.
Variable now : Z.

(** The store together with the [hybridFileManager] it imports. *)
Record StoreHeap : Type := mkStoreHeap {
  manager : Manager.Heap W;
  store : HybridFilesStore
}.

(** A call on [hybridFileManager]. *)
Definition onManager {A} (c : M (Manager.Heap W) A) : M StoreHeap A :=
  fun h => let (r, m') := c (manager h) in (r, mkStoreHeap m' (store h)).

Definition update (f : HybridFilesStore -> HybridFilesStore) : M StoreHeap unit :=
  modify (fun h => mkStoreHeap (manager h) (f (store h))).

(** [catch (error) { console.error(...); throw error }] *)
Definition rethrow {A} (c : M StoreHeap A) : M StoreHeap A :=
  try_catch c (fun e => throw e).

(** [fuel] bounds the depth of the manager's walk. *)
Definition loadFileTree (fuel : nat) (rootPath : string) : M StoreHeap unit :=
  rethrow
    (fileTree <- onManager (Manager.getFileTree sandbox wcfs now fuel rootPath) ;;
     let fileMap :=
       fold_left (fun fileMap file => assign (LocalFS.path file) file fileMap)
                 fileTree [] in
     update (set_files fileMap) ;;;
     update (set_filesCount (Z.of_nat (List.length fileTree)))).

Definition readFile (path : string) : M StoreHeap string :=
  rethrow (onManager (Manager.readFile sandbox wcfs path)).

Definition writeFile (path content : string) : M StoreHeap unit :=
  rethrow
    (onManager (Manager.writeFile sandbox wcfs now path content) ;;;
     update (fun s =>
       set_files (assign path (LocalFS.mkFileNode path content false now) (files s)) s)).

Definition createFile (path content : string) : M StoreHeap unit :=
  rethrow
    (onManager (Manager.writeFile sandbox wcfs now path content) ;;;
     update (fun s =>
       set_files (assign path (LocalFS.mkFileNode path content false now) (files s)) s) ;;;
     update (fun s => set_filesCount (keyCount (files s)) s)).

Definition createDirectory (fuel : nat) (path : string) : M StoreHeap unit :=
  rethrow
    (onManager (Manager.mkdir sandbox wcfs now path true) ;;;
     loadFileTree fuel "/").

Definition deleteFile (path : string) : M StoreHeap unit :=
  rethrow
    (onManager (Manager.deleteFile sandbox wcfs path) ;;;
     update (fun s => set_files (JsMap.delete path (files s)) s) ;;;
     update (fun s => set_filesCount (keyCount (files s)) s)).

Definition deleteDirectory (fuel : nat) (path : string) (recursive : bool)
  : M StoreHeap unit :=
  rethrow
    (onManager (Manager.deleteDirectory sandbox wcfs path recursive) ;;;
     loadFileTree fuel "/").

Definition uploadFiles (fuel : nat) (uploaded : list Manager.File)
  : M StoreHeap unit :=
  try_finally
    (rethrow
       (update (set_isLoading true) ;;;
        onManager (Manager.uploadFiles sandbox wcfs now uploaded) ;;;
        loadFileTree fuel "/"))
    (update (set_isLoading false)).

Definition uploadFolder (fuel : nat) (folder : list Manager.File)
  : M StoreHeap unit :=
  try_finally
    (rethrow
       (update (set_isLoading true) ;;;
        onManager (Manager.uploadFolder sandbox wcfs now folder) ;;;
        loadFileTree fuel "/"))
    (update (set_isLoading false)).

Definition listFiles (path : string) : M StoreHeap (list string) :=
  try_catch (onManager (Manager.readdir sandbox wcfs path)) (fun _ => ret []).

Definition fileExists (path : string) : M StoreHeap bool :=
  try_catch (onManager (Manager.exists_ sandbox wcfs path)) (fun _ => ret false).

(** [null] is [None]. *)
Definition getFileInfo (path : string) : M StoreHeap (option LocalFS.Stat) :=
  try_catch (st <- onManager (Manager.stat sandbox wcfs path) ;; ret (Some st))
            (fun _ => ret None).

Definition healthCheck : M StoreHeap bool :=
  try_catch (onManager (Manager.healthCheck sandbox wcfs)) (fun _ => ret false).

Definition refresh (fuel : nat) : M StoreHeap unit := loadFileTree fuel "/".

End Runtimes.
End Store.

(** ** Grouping into an object keyed by a string *)

Module Grouping.

(** The properties a plain object inherits from [Object.prototype]: a
    read of one of these names on [{}] gives a function (for [__proto__],
    the prototype object), which is truthy and has no [push]. *)
Definition inherited : list string :=
  ["constructor"; "__proto__"; "hasOwnProperty"; "isPrototypeOf";
   "propertyIsEnumerable"; "toLocaleString"; "toString"; "valueOf";
   "__defineGetter__"; "__defineSetter__"; "__lookupGetter__";
   "__lookupSetter__"].

Definition isInherited (k : string) : bool := existsb (String.eqb k) inherited.

Definition notAFunction : string :=
  "TypeError: acc[result.path].push is not a function".

Section ByKey.
Variable A : Type.
Variable key : A -> string.

(** [if (!acc[k]) acc[k] = []; acc[k].push(x)] for [k = key x], for a key
    that is not an inherited property. *)
Definition step (acc : JsMap.t (list A)) (x : A) : JsMap.t (list A) :=
  let acc1 :=
    if negb (JsMap.has (key x) acc) then JsMap.set (key x) [] acc else acc in
  match JsMap.get (key x) acc1 with
  | Some xs => JsMap.set (key x) (xs ++ [x])%list acc1
  | None => acc1
  end.

Definition group (xs : list A) : JsMap.t (list A) := fold_left step xs [].

(** What [acc[k]] evaluates to on an object whose own properties are the
    arrays of [acc]. *)
Inductive Property : Type :=
| OwnArray (xs : list A)
| Inherited
| Undefined.

Definition lookup (k : string) (acc : JsMap.t (list A)) : Property :=
  match JsMap.get k acc with
  | Some xs => OwnArray xs
  | None => if isInherited k then Inherited else Undefined
  end.

(** The same statement for any key: an array, also an empty one, and an
    inherited property are truthy; calling [push] on what is no array
    throws. *)
Definition add (acc : JsMap.t (list A)) (x : A) : completion (JsMap.t (list A)) :=
  let acc1 :=
    match lookup (key x) acc with
    | Undefined => JsMap.set (key x) [] acc
    | _ => acc
    end in
  match lookup (key x) acc1 with
  | OwnArray xs => Ok (JsMap.set (key x) (xs ++ [x])%list acc1)
  | _ => Throw notAFunction
  end.

(** [xs.reduce((acc, x) => { ...; return acc }, {})]; the own keys are
    kept in insertion order. *)
Definition reduce (xs : list A) : completion (JsMap.t (list A)) :=
  fold_left (fun acc x => match acc with Ok a => add a x | stop => stop end)
            xs (Ok []).
End ByKey.
End Grouping.

(** ** The search panel: [performWebContainerSearch] *)

Module SearchUI.
Import Js.

Record DisplayMatch : Type := mkDisplayMatch {
  path : string;
  lineNumber : Z;
  previewText : string;
  matchCharStart : Z;
  matchCharEnd : Z
}.

Record Range : Type := mkRange {
  startLineNumber : Z;
  startColumn : Z;
  endLineNumber : Z;
  endColumn : Z
}.

Record Preview : Type := mkPreview { text : string; matches : list Range }.

Record ApiMatch : Type := mkApiMatch { preview : Preview; ranges : list Range }.

(** The body of [apiMatch.ranges.forEach]: the match pushed for [range]. *)
Definition displayMatchOf (filePath : string) (apiMatch : ApiMatch)
    (range : Range) : DisplayMatch :=
  let previewLines := split newline (text (preview apiMatch)) in
  let lineIndexInPreview :=
    match matches (preview apiMatch) with
    | first :: _ => startLineNumber range - startLineNumber first
    | [] => -1
    end in
  let previewLineText :=
    if (0 <=? lineIndexInPreview)
       && (lineIndexInPreview <? Z.of_nat (List.length previewLines))
    then nth (Z.to_nat lineIndexInPreview) previewLines "(Preview line not found)"
    else match previewLines with
         | line0 :: _ => line0
         | [] => "(Preview unavailable)"
         end in
  mkDisplayMatch filePath (startLineNumber range) previewLineText
                 (startColumn range) (endColumn range).

(** The two nested [forEach] loops, pushing onto [displayMatches]. *)
Definition collect (filePath : string) (apiMatches : list ApiMatch)
  : list DisplayMatch :=
  fold_left
    (fun displayMatches apiMatch =>
       fold_left
         (fun displayMatches range =>
            (displayMatches ++ [displayMatchOf filePath apiMatch range])%list)
         (ranges apiMatch) displayMatches)
    apiMatches [].

(** [progressCallback(filePath, apiMatches)]; the state is the list of
    batches handed to [onProgress], oldest first. *)
Definition progressCallback (filePath : string) (apiMatches : list ApiMatch)
  : M (list (list DisplayMatch)) unit :=
  let displayMatches := collect filePath apiMatches in
  if 0 <? Z.of_nat (List.length displayMatches)
  then modify (fun batches => (batches ++ [displayMatches])%list)
  else ret tt.


(** [groupResultsByFile] *)
Definition groupResultsByFile (results : list DisplayMatch)
  : completion (JsMap.t (list DisplayMatch)) :=
  Grouping.reduce path results.

(** The match the CodeSandbox callback builds from one of the instance's. *)
Definition toDisplayMatch (filePath : string) (m : Csb.CodeSandboxSearchResult)
  : DisplayMatch :=
  mkDisplayMatch filePath (Csb.lineNumber m) (Csb.previewText m)
                 (Csb.matchCharStart m) (Csb.matchCharEnd m).

(** What the callback given to [instance.textSearch] does with one call:
    it maps the matches and hands them on when there are any. *)
Definition deliver (batches : list (list DisplayMatch))
    (call : string * list Csb.CodeSandboxSearchResult)
  : list (list DisplayMatch) :=
  let displayMatches := map (toDisplayMatch (fst call)) (snd call) in
  if 0 <? Z.of_nat (List.length displayMatches)
  then (batches ++ [displayMatches])%list
  else batches.

Section CodeSandboxSearch.
Variable toLowerCase : string -> string.
Variable RegExp : Type.
Variable RegExp_new : string -> string -> option RegExp.
Variable RegExp_exec : RegExp -> string -> option Z.

(** [performCodeSandboxSearch]; [instance] is [None] for a missing
    instance, [context] is the module's [codesandboxContext], and [fuel]
    bounds the walk of [textSearch]. The state is the list of batches
    handed to [onProgress], oldest first. *)
Definition performCodeSandboxSearch (fuel : nat)
    (instance : option Csb.CodeSandboxInstance)
    (context : Csb.CodeSandboxContext) (query : string)
    (options : Csb.CodeSandboxSearchOptions)
  : M (list (list DisplayMatch)) unit :=
  match instance with
  | None => ret tt
  | Some i =>
      try_catch
        (if negb (Csb.isLoaded i context) then ret tt
         else
           isHealthy <- ret (Csb.healthCheck i) ;;
           if negb isHealthy then ret tt
           else
             fun batches =>
               let (r, st) :=
                 Csb.textSearch toLowerCase RegExp_new RegExp_exec fuel i
                                query options Csb.emptySearch in
               (r, fold_left deliver (Csb.calls st) batches))
        (fun _ => ret tt)
  end.
End CodeSandboxSearch.

(** [String.prototype.slice(start, end)]: a negative index counts from the
    end, both are clamped to the string. *)
Fixpoint dropChars (n : nat) (s : string) : string :=
  match n, s with
  | O, _ => s
  | Datatypes.S n', String _ s' => dropChars n' s'
  | Datatypes.S _, EmptyString => EmptyString
  end.

Fixpoint takeChars (n : nat) (s : string) : string :=
  match n, s with
  | O, _ => EmptyString
  | Datatypes.S n', String a s' => String a (takeChars n' s')
  | Datatypes.S _, EmptyString => EmptyString
  end.

Definition sliceIndex (s : string) (i : Z) : Z :=
  if i <? 0 then Z.max (len s + i) 0 else Z.min i (len s).

Definition slice (s : string) (from to : Z) : string :=
  let a := sliceIndex s from in
  let b := sliceIndex s to in
  takeChars (Z.to_nat (b - a)) (dropChars (Z.to_nat a) s).

(** [s.slice(start)] *)
Definition sliceFrom (s : string) (from : Z) : string :=
  dropChars (Z.to_nat (sliceIndex s from)) s.

(** What the result list renders for one match: an ellipsis or not, the
    text before the match, the highlighted text and the text after it. *)
Record RenderedMatch : Type := mkRendered {
  ellipsis : bool;
  before : string;
  highlighted : string;
  after : string
}.

Definition contextChars : Z := 7.

Definition renderMatch (m : DisplayMatch) : RenderedMatch :=
  let isStart := matchCharStart m <=? contextChars in
  let previewStart := if isStart then 0 else matchCharStart m - contextChars in
  let shown := sliceFrom (previewText m) previewStart in
  let matchStart := if isStart then matchCharStart m else contextChars in
  let matchEnd :=
    if isStart then matchCharEnd m
    else contextChars + (matchCharEnd m - matchCharStart m) in
  mkRendered (negb isStart) (slice shown 0 matchStart)
             (slice shown matchStart matchEnd) (sliceFrom shown matchEnd).

End SearchUI.

(** * Properties *)

Unset Implicit Arguments.

(** ** The string primitives on small inputs *)

Example split_lines :
  Js.split Js.newline ("foo bar" ++ Js.nl ++ "baz foo" ++ Js.nl)
  = ["foo bar"; "baz foo"; ""].
Proof. reflexivity. Qed.

Example split_empty : Js.split Js.slash "" = [""].
Proof. reflexivity. Qed.

Example parent_of_nested_path :
  Js.substring "/src/lib/a.ts" 0 (Js.lastIndexOfChar Js.slash "/src/lib/a.ts")
  = "/src/lib".
Proof. reflexivity. Qed.

Example parent_without_slash :
  Js.substring "a.ts" 0 (Js.lastIndexOfChar Js.slash "a.ts") = "".
Proof. reflexivity. Qed.

Example collapse_runs : Js.collapseSlashes "//src///lib/" = "/src/lib/".
Proof. reflexivity. Qed.

Example indexOf_folded :
  Js.indexOf (Js.toLowerCaseLatin1 "Baz FOO foo") (Js.toLowerCaseLatin1 "Foo") = 4.
Proof. reflexivity. Qed.

Example indexOf_absent : Js.indexOf "baz" "foo" = -1.
Proof. reflexivity. Qed.

(** The scaffold of a new [LocalFileSystem] has no [/src] node, so the
    root lists the two files only. *)
Example local_root_listing :
  fst (LocalFS.readdir "/" (LocalFS.new 0)) = Ok ["package.json"; "README.md"].
Proof. reflexivity. Qed.

Example local_mkdir_twice :
  fst (LocalFS.mkdir 0 "/a/b" true (snd (LocalFS.mkdir 0 "/a/b" true (LocalFS.new 0))))
  = Ok tt.
Proof. reflexivity. Qed.

(** ** Facts about the runtime's strings and maps *)

Section StringFacts.
Import Js.

Lemma prefix_app (p s : string) : String.prefix p (p ++ s) = true.
Proof.
  induction p as [|a p IH]; simpl.
  - destruct s; reflexivity.
  - destruct (ascii_dec a a) as [_|n]; [exact IH | now elim n].
Qed.

Lemma startsWith_app (p s : string) : startsWith (p ++ s) p = true.
Proof. apply prefix_app. Qed.

Lemma substring_all (s : string) : String.substring 0 (String.length s) s = s.
Proof. induction s as [|a s IH]; simpl; [reflexivity | now rewrite IH]. Qed.

Lemma string_length_app (p s : string) :
  String.length (p ++ s) = (String.length p + String.length s)%nat.
Proof. induction p as [|a p IH]; simpl; [reflexivity | now rewrite IH]. Qed.

Lemma substring_skip (p s : string) (m : nat) :
  String.substring (String.length p) m (p ++ s) = String.substring 0 m s.
Proof. induction p as [|a p IH]; simpl; [reflexivity | exact IH]. Qed.

Lemma substringFrom_app (p s : string) : substringFrom (p ++ s) (len p) = s.
Proof.
  unfold substringFrom, len. rewrite Nat2Z.id, string_length_app.
  replace (String.length p + String.length s - String.length p)%nat
    with (String.length s) by lia.
  rewrite substring_skip. apply substring_all.
Qed.
End StringFacts.

Section MapFacts.
Variable V : Type.
Implicit Types (m : JsMap.t V) (k q : string) (v : V).

Lemma get_set_same k v m : JsMap.get k (JsMap.set k v m) = Some v.
Proof.
  induction m as [|[k' v'] m IH]; simpl.
  - now rewrite String.eqb_refl.
  - destruct (String.eqb k' k) eqn:E; simpl.
    + now rewrite String.eqb_refl.
    + now rewrite E.
Qed.

Lemma get_set_other k q v m :
  q <> k -> JsMap.get q (JsMap.set k v m) = JsMap.get q m.
Proof.
  intros Hne. induction m as [|[k' v'] m IH]; simpl.
  - apply String.eqb_neq in Hne. rewrite String.eqb_sym in Hne. now rewrite Hne.
  - destruct (String.eqb k' k) eqn:E; simpl.
    + apply String.eqb_eq in E. subst k'.
      assert (String.eqb k q = false) as ->
        by (apply String.eqb_neq; congruence).
      reflexivity.
    + now rewrite IH.
Qed.

Lemma get_delete_same k m : JsMap.get k (JsMap.delete k m) = None.
Proof.
  induction m as [|[k' v'] m IH]; simpl; [reflexivity|].
  destruct (String.eqb k' k) eqn:E; simpl; [exact IH | now rewrite E].
Qed.

Lemma get_delete_none k q m :
  JsMap.get q m = None -> JsMap.get q (JsMap.delete k m) = None.
Proof.
  induction m as [|[k' v'] m IH]; simpl; [reflexivity|].
  destruct (String.eqb k' q) eqn:E; [discriminate|]. intros H.
  destruct (String.eqb k' k); simpl; [auto | rewrite E; auto].
Qed.

Lemma get_delete_other k q m :
  q <> k -> JsMap.get q (JsMap.delete k m) = JsMap.get q m.
Proof.
  intros Hne. induction m as [|[k' v'] m IH]; simpl; [reflexivity|].
  destruct (String.eqb k' k) eqn:E; simpl.
  - apply String.eqb_eq in E. subst k'.
    assert (String.eqb k q = false) as ->
      by (apply String.eqb_neq; congruence).
    exact IH.
  - destruct (String.eqb k' q); [reflexivity | exact IH].
Qed.

Lemma get_some_in_keys q m v : JsMap.get q m = Some v -> In q (JsMap.keys m).
Proof.
  induction m as [|[k' v'] m IH]; simpl; [discriminate|].
  destruct (String.eqb k' q) eqn:E.
  - apply String.eqb_eq in E. now left.
  - intros H. right. now apply IH.
Qed.

(** Keys stay unique under [set] and [delete], as in a JavaScript [Map]. *)
Lemma keys_set_new k v m :
  JsMap.get k m = None -> JsMap.keys (JsMap.set k v m) = (JsMap.keys m ++ [k])%list.
Proof.
  induction m as [|[k' v'] m IH]; simpl; [reflexivity|].
  destruct (String.eqb k' k) eqn:E; [discriminate|].
  intros H. simpl. now rewrite IH.
Qed.

Lemma keys_set_known k v m w :
  JsMap.get k m = Some w -> JsMap.keys (JsMap.set k v m) = JsMap.keys m.
Proof.
  induction m as [|[k' v'] m IH]; simpl; [discriminate|].
  destruct (String.eqb k' k) eqn:E; simpl.
  - apply String.eqb_eq in E. now subst.
  - intros H. now rewrite IH.
Qed.

Lemma get_none_not_in_keys k m : JsMap.get k m = None -> ~ In k (JsMap.keys m).
Proof.
  induction m as [|[k' v'] m IH]; simpl; [tauto|].
  destruct (String.eqb k' k) eqn:E; [discriminate|].
  apply String.eqb_neq in E. intros H [H1|H1]; [congruence | now apply IH].
Qed.

Lemma NoDup_keys_set k v m :
  NoDup (JsMap.keys m) -> NoDup (JsMap.keys (JsMap.set k v m)).
Proof.
  intros Hnd. destruct (JsMap.get k m) as [w|] eqn:G.
  - now rewrite (keys_set_known _ _ _ _ G).
  - rewrite (keys_set_new _ v _ G).
    apply NoDup_app; [exact Hnd | repeat constructor; simpl; tauto |].
    intros x Hx [<-|[]]. now apply (get_none_not_in_keys _ _ G).
Qed.
End MapFacts.

(** ** The local provider *)

Section LocalFacts.
Import Js LocalFS.

Lemma mkdir_recursive_returns (now : Z) (p : string) (fs : LocalFileSystem) :
  exists fs', mkdir now p true fs = (Ok tt, fs').
Proof.
  unfold mkdir. destruct (JsMap.has p (_files fs)); eexists; reflexivity.
Qed.

Lemma readdir_step_grows (p : string) (l : list (string * FileNode)) :
  forall acc,
    (List.length acc <= List.length (fold_left (readdir_step p) l acc))%nat.
Proof.
  induction l as [|e l IH]; intros acc; simpl; [lia|].
  etransitivity; [|apply IH].
  unfold readdir_step.
  destruct (startsWith (fst e) (dirPrefix p) && negb (String.eqb (fst e) p));
    [|lia].
  destruct (negb (includesChar slash _)); [|lia].
  rewrite List.length_app. lia.
Qed.

Lemma readdir_sees_child (p name : string) (node : FileNode)
      (l : list (string * FileNode)) :
  In (dirPrefix p ++ name, node) l ->
  includesChar slash name = false ->
  dirPrefix p ++ name <> p ->
  forall acc,
    (List.length acc < List.length (fold_left (readdir_step p) l acc))%nat.
Proof.
  intros Hin Hname Hne. induction l as [|e l IH]; intros acc; [destruct Hin|].
  simpl. destruct Hin as [->|Hin].
  - eapply Nat.lt_le_trans; [|apply readdir_step_grows].
    unfold readdir_step. simpl fst.
    rewrite startsWith_app.
    assert (String.eqb (dirPrefix p ++ name) p = false) as ->
      by now apply String.eqb_neq.
    simpl. rewrite substringFrom_app, Hname. simpl.
    rewrite List.length_app. simpl. lia.
  - eapply Nat.le_lt_trans; [|apply IH; exact Hin].
    unfold readdir_step.
    destruct (startsWith (fst e) (dirPrefix p) && negb (String.eqb (fst e) p));
      [|lia].
    destruct (negb (includesChar slash _)); [|lia].
    rewrite List.length_app. lia.
Qed.

Lemma sweep_keeps_absent (prefix q : string) (ks : list string) :
  forall m : JsMap.t FileNode,
    JsMap.get q m = None ->
    JsMap.get q (fold_left (deleteDirectory_step prefix) ks m) = None.
Proof.
  induction ks as [|k ks IH]; intros m H; simpl; [exact H|].
  apply IH. unfold deleteDirectory_step.
  destruct (startsWith k prefix); [now apply get_delete_none | exact H].
Qed.

Lemma sweep_removes (prefix q : string) (ks : list string) :
  startsWith q prefix = true -> In q ks ->
  forall m : JsMap.t FileNode,
    JsMap.get q (fold_left (deleteDirectory_step prefix) ks m) = None.
Proof.
  intros Hq. induction ks as [|k ks IH]; intros Hin m; [destruct Hin|].
  simpl. destruct (string_dec k q) as [->|Hne].
  - apply sweep_keeps_absent. unfold deleteDirectory_step. rewrite Hq.
    apply get_delete_same.
  - destruct Hin as [E|Hin]; [congruence|]. now apply IH.
Qed.

Lemma sweep_keeps_others (prefix q : string) (ks : list string) :
  startsWith q prefix = false ->
  forall m : JsMap.t FileNode,
    JsMap.get q (fold_left (deleteDirectory_step prefix) ks m) = JsMap.get q m.
Proof.
  intros Hq. induction ks as [|k ks IH]; intros m; simpl; [reflexivity|].
  rewrite IH. unfold deleteDirectory_step.
  destruct (startsWith k prefix) eqn:Hk; [|reflexivity].
  apply get_delete_other. congruence.
Qed.

Lemma sweep_clears (prefix q : string) (m : JsMap.t FileNode) :
  startsWith q prefix = true ->
  JsMap.get q (fold_left (deleteDirectory_step prefix) (JsMap.keys m) m) = None.
Proof.
  intros Hq. destruct (JsMap.get q m) as [v|] eqn:G.
  - apply sweep_removes; [exact Hq | exact (get_some_in_keys _ _ _ _ G)].
  - now apply sweep_keeps_absent.
Qed.

(** C3. On the local provider, for every path [p] and content [c],
    [writeFile(p, c)] returns and a following [readFile(p)] returns
    exactly [c]. *)
Theorem local_writeFile_readFile (now : Z) (p c : string) (fs : LocalFileSystem) :
  exists fs',
    writeFile now p c fs = (Ok tt, fs') /\ readFile p fs' = (Ok c, fs').
Proof.
  unfold writeFile, bind, modify.
  set (parent := substring p 0 (lastIndexOfChar slash p)).
  destruct (truthy parent && negb (String.eqb parent p)).
  - destruct (mkdir_recursive_returns now parent fs) as [fs1 ->].
    eexists; split; [reflexivity|].
    unfold readFile. simpl. now rewrite get_set_same.
  - unfold ret. eexists; split; [reflexivity|].
    unfold readFile. simpl. now rewrite get_set_same.
Qed.

(** C4. On the local provider, for a directory [p] that is in the store:
    (1) if some entry sits directly under [p] (its key is [p + '/' + name]
    with no further separator in [name]), then
    [deleteDirectory(p, false)] throws "Directory not empty" and the store
    is left as it was; (2) [deleteDirectory(p, true)] returns, and
    afterwards [exists] is false for [p] and for every path below [p]
    (every path that starts with [p + '/'], or with ['/'] for the root). *)
Theorem local_deleteDirectory_spec (p : string) (fs : LocalFileSystem) :
  JsMap.has p (_files fs) = true ->
  (forall name node,
      In (dirPrefix p ++ name, node) (_files fs) ->
      includesChar slash name = false ->
      dirPrefix p ++ name <> p ->
      deleteDirectory p false fs = (Throw ("Directory not empty: " ++ p), fs))
  /\
  (exists fs',
      deleteDirectory p true fs = (Ok tt, fs') /\
      exists_ p fs' = (Ok false, fs') /\
      forall q, startsWith q (dirPrefix p) = true ->
                exists_ q fs' = (Ok false, fs')).
Proof.
  intros Hp. split.
  - intros name node Hin Hname Hne.
    unfold deleteDirectory, bind, gets, readdir, throw. rewrite Hp. simpl.
    pose proof (readdir_sees_child p name node (_files fs) Hin Hname Hne [])
      as Hlen. simpl in Hlen.
    destruct (0 <? Z.of_nat (List.length (fold_left (readdir_step p) (_files fs) [])))
      eqn:E; [reflexivity|].
    apply Z.ltb_ge in E. lia.
  - unfold deleteDirectory, bind, gets, modify, ret. rewrite Hp. simpl.
    eexists. split; [reflexivity|]. unfold exists_, gets, JsMap.has. simpl.
    split.
    + rewrite sweep_keeps_absent; [reflexivity | apply get_delete_same].
    + intros q Hq. now rewrite sweep_clears.
Qed.

(** X9. Entries outside the directory survive the recursive delete: a
    path that is neither [p] nor below [p + '/'] keeps its node, so a
    sibling such as [/ab] is not taken for a part of [/a]. *)
Lemma local_deleteDirectory_keeps_outside (p q : string) (fs : LocalFileSystem) :
  q <> p -> startsWith q (dirPrefix p) = false ->
  JsMap.get q (_files (snd (deleteDirectory p true fs))) = JsMap.get q (_files fs).
Proof.
  intros Hne Hq. unfold deleteDirectory, bind, gets, modify, ret, throw.
  destruct (JsMap.has p (_files fs)); simpl; [|reflexivity].
  rewrite sweep_keeps_others by exact Hq. now apply get_delete_other.
Qed.
End LocalFacts.

Lemma local_deleteDirectory_witness :
  let fs := snd (LocalFS.writeFile 0 "/a/b" "x" (LocalFS.mkLocal [])) in
  LocalFS.deleteDirectory "/a" false fs = (Throw "Directory not empty: /a", fs) /\
  exists fs',
    LocalFS.deleteDirectory "/a" true fs = (Ok tt, fs') /\
    LocalFS.exists_ "/a/b" fs' = (Ok false, fs').
Proof.
  intro fs.
  destruct (local_deleteDirectory_spec "/a" fs eq_refl) as [H1 H2]. split.
  - apply (H1 "b" (LocalFS.mkFileNode "/a/b" "x" false 0)).
    + vm_compute. right. left. reflexivity.
    + reflexivity.
    + discriminate.
  - destruct H2 as [fs' [Hd [_ Hq]]]. exists fs'. split; [exact Hd|].
    apply Hq. reflexivity.
Defined.

(** ** Reconciling native search results with their preview *)

Section PreviewFacts.
Import Js SearchUI.

Lemma split_not_nil (c : ascii) (s : string) : split c s <> [].
Proof.
  destruct s as [|a s]; simpl; [discriminate|].
  destruct (Ascii.eqb a c); [discriminate|].
  destruct (split c s); discriminate.
Qed.

Lemma push_each {A B : Type} (g : A -> B) (xs : list A) :
  forall acc, fold_left (fun acc x => (acc ++ [g x])%list) xs acc
              = (acc ++ map g xs)%list.
Proof.
  induction xs as [|x xs IH]; intros acc; simpl.
  - now rewrite app_nil_r.
  - rewrite IH, <- app_assoc. reflexivity.
Qed.

Lemma collect_flat_map (filePath : string) (apiMatches : list ApiMatch) :
  collect filePath apiMatches
  = flat_map (fun apiMatch =>
                map (displayMatchOf filePath apiMatch) (ranges apiMatch))
             apiMatches.
Proof.
  unfold collect.
  enough (forall acc,
    fold_left
      (fun displayMatches apiMatch =>
         fold_left
           (fun displayMatches range =>
              (displayMatches ++ [displayMatchOf filePath apiMatch range])%list)
           (ranges apiMatch) displayMatches)
      apiMatches acc
    = (acc ++ flat_map (fun apiMatch =>
                          map (displayMatchOf filePath apiMatch) (ranges apiMatch))
                       apiMatches)%list) as H by apply (H []).
  induction apiMatches as [|am ams IH]; intros acc; simpl.
  - now rewrite app_nil_r.
  - rewrite IH, push_each, <- app_assoc. reflexivity.
Qed.

(** C7. Every match handed on by [performWebContainerSearch] comes from one
    raw range of one API match; its [lineNumber] is the range's
    [startLineNumber]; its [previewText] is the preview line at index
    [range.startLineNumber - preview.matches[0].startLineNumber] when that
    index falls inside the preview lines, and the first preview line (which
    always exists) when the index is negative or past the last line, or
    when the preview declares no match to start from. *)
Theorem preview_line_reconciled (filePath : string) (apiMatches : list ApiMatch)
    (dm : DisplayMatch) :
  In dm (collect filePath apiMatches) ->
  exists apiMatch range line0 rest,
    In apiMatch apiMatches /\ In range (ranges apiMatch) /\
    lineNumber dm = startLineNumber range /\
    split newline (text (preview apiMatch)) = line0 :: rest /\
    (forall first,
        hd_error (matches (preview apiMatch)) = Some first ->
        let index := startLineNumber range - startLineNumber first in
        (0 <= index < Z.of_nat (List.length (line0 :: rest)) ->
         nth_error (line0 :: rest) (Z.to_nat index) = Some (previewText dm)) /\
        (index < 0 \/ Z.of_nat (List.length (line0 :: rest)) <= index ->
         previewText dm = line0)) /\
    (matches (preview apiMatch) = [] -> previewText dm = line0).
Proof.
  rewrite collect_flat_map. intros Hin.
  apply in_flat_map in Hin. destruct Hin as [am [Ham Hin]].
  apply in_map_iff in Hin. destruct Hin as [range [<- Hr]].
  destruct (split newline (text (preview am))) as [|line0 rest] eqn:Hsplit;
    [now apply split_not_nil in Hsplit|].
  exists am, range, line0, rest.
  split; [exact Ham|]. split; [exact Hr|]. split; [reflexivity|].
  split; [exact Hsplit|]. split.
  - intros first Hfirst index. unfold displayMatchOf, previewText.
    rewrite Hsplit.
    destruct (matches (preview am)) as [|f fs]; [discriminate|].
    simpl in Hfirst. injection Hfirst as ->. fold index. split.
    + intros Hrange.
      assert (((0 <=? index) && (index <? Z.of_nat (List.length (line0 :: rest))))
              = true) as ->.
      { apply andb_true_iff. split; [apply Z.leb_le | apply Z.ltb_lt]; lia. }
      apply nth_error_nth'. lia.
    + intros Hout.
      assert (((0 <=? index) && (index <? Z.of_nat (List.length (line0 :: rest))))
              = false) as ->.
      { apply andb_false_iff. destruct Hout as [H|H];
          [left; apply Z.leb_gt | right; apply Z.ltb_ge]; lia. }
      reflexivity.
  - intros Hnone. unfold displayMatchOf, previewText.
    rewrite Hsplit, Hnone. reflexivity.
Qed.

Lemma preview_line_reconciled_witness :
  let apiMatch :=
    mkApiMatch (mkPreview ("alpha" ++ nl ++ "beta" ++ nl ++ "gamma")
                          [mkRange 3 1 3 4])
               [mkRange 4 1 4 3; mkRange 9 2 9 5] in
  collect "/a.txt" [apiMatch]
  = [mkDisplayMatch "/a.txt" 4 "beta" 1 3; mkDisplayMatch "/a.txt" 9 "alpha" 2 5]
  /\ exists apiMatch' range line0 rest,
       In apiMatch' [apiMatch] /\ In range (ranges apiMatch') /\
       9 = startLineNumber range /\
       split newline (text (preview apiMatch')) = line0 :: rest.
Proof.
  intro apiMatch. split; [reflexivity|].
  destruct (preview_line_reconciled "/a.txt" [apiMatch]
              (mkDisplayMatch "/a.txt" 9 "alpha" 2 5))
    as [am [range [line0 [rest [H1 [H2 [H3 [H4 _]]]]]]]].
  - vm_compute. right. left. reflexivity.
  - exists am, range, line0, rest. repeat split; assumption.
Defined.

End PreviewFacts.

(** ** The hybrid manager *)

Section ManagerFacts.
Import Manager.
Variable W : Type.
Variable sandbox : SandboxMethods W.
Variable wcfs : WebContainerFs W.
Variable now : Z.

Local Abbreviation Heap := (Manager.Heap W).

Lemma keeps_ret {A} (a : A) : keeps (ret a : M Heap A).
Proof. intros h. reflexivity. Qed.

Lemma keeps_throw {A} (e : string) : keeps (throw e : M Heap A).
Proof. intros h. reflexivity. Qed.

Lemma keeps_gets {A} (f : Heap -> A) : keeps (gets f).
Proof. intros h. reflexivity. Qed.

Lemma keeps_bind {A B} (c : M Heap A) (k : A -> M Heap B) :
  keeps c -> (forall a, keeps (k a)) -> keeps (bind c k).
Proof.
  intros Hc Hk h. unfold bind. specialize (Hc h).
  destruct (c h) as [[a|e|] h1]; simpl in *; try exact Hc.
  rewrite <- Hc. apply Hk.
Qed.

Lemma keeps_try_catch {A} (c : M Heap A) (handler : string -> M Heap A) :
  keeps c -> (forall e, keeps (handler e)) -> keeps (try_catch c handler).
Proof.
  intros Hc Hh h. unfold try_catch. specialize (Hc h).
  destruct (c h) as [[a|e|] h1]; simpl in *; try exact Hc.
  rewrite <- Hc. apply Hh.
Qed.

Lemma keeps_onWorld {A} (c : M W A) : keeps (onWorld c).
Proof.
  intros h. unfold onWorld. destruct (c (world h)) as [r w']. reflexivity.
Qed.

(** Dispatching on [_fileSystem]: the local branch writes back a
    [LocalFileSystem], the others touch the outside world only. *)
Lemma keeps_dispatch {A} (onL : LocalFS.LocalFileSystem -> M LocalFS.LocalFileSystem A)
      (onC onWc : M Heap A) :
  keeps onC -> keeps onWc ->
  keeps (a <- gets (fun h : Heap => _fileSystem (this h)) ;;
         match a with
         | LocalAdapter fs => onLocal (onL fs) fs
         | CodeSandboxAdapter => onC
         | WebContainerAdapter => onWc
         end).
Proof.
  intros HC HWc h. unfold bind, gets.
  destruct (_fileSystem (this h)) as [fs| |] eqn:E.
  - unfold onLocal. destruct (onL fs fs) as [r fs']. simpl.
    unfold selection. simpl. now rewrite E.
  - apply HC.
  - apply HWc.
Qed.

Lemma keeps_whenReady {A} (c : M Heap A) : keeps c -> keeps (whenReady c).
Proof.
  intros Hc. unfold whenReady. apply keeps_bind; [apply keeps_gets|].
  intros ready. destruct (negb ready); [apply keeps_throw | exact Hc].
Qed.

Ltac keeps_step :=
  first [ apply keeps_ret | apply keeps_throw | apply keeps_gets
        | apply keeps_onWorld
        | apply keeps_try_catch; [|intros ?]
        | apply keeps_bind; [|intros ?] ].

Lemma keeps_readFile p : keeps (readFile sandbox wcfs p).
Proof.
  apply keeps_whenReady.
  apply (keeps_dispatch (fun _ => LocalFS.readFile p)); repeat keeps_step.
Qed.

Lemma keeps_writeFile p c : keeps (writeFile sandbox wcfs now p c).
Proof.
  apply keeps_whenReady.
  apply (keeps_dispatch (fun _ => LocalFS.writeFile now p c)); repeat keeps_step.
Qed.

Lemma keeps_readdir p : keeps (readdir sandbox wcfs p).
Proof.
  apply keeps_whenReady.
  apply (keeps_dispatch (fun _ => LocalFS.readdir p)); repeat keeps_step.
Qed.

Lemma keeps_mkdir p r : keeps (mkdir sandbox wcfs now p r).
Proof.
  apply keeps_whenReady.
  apply (keeps_dispatch (fun _ => LocalFS.mkdir now p r)); repeat keeps_step.
Qed.

Lemma keeps_deleteFile p : keeps (deleteFile sandbox wcfs p).
Proof.
  apply keeps_whenReady.
  apply (keeps_dispatch (fun _ => LocalFS.deleteFile p)); repeat keeps_step.
Qed.

Lemma keeps_deleteDirectory p r : keeps (deleteDirectory sandbox wcfs p r).
Proof.
  apply keeps_whenReady.
  apply (keeps_dispatch (fun _ => LocalFS.deleteDirectory p r)); repeat keeps_step.
Qed.

Lemma keeps_exists p : keeps (exists_ sandbox wcfs p).
Proof.
  apply keeps_whenReady.
  apply (keeps_dispatch (fun _ => LocalFS.exists_ p)); repeat keeps_step.
Qed.

Lemma keeps_stat p : keeps (stat sandbox wcfs p).
Proof.
  apply keeps_whenReady.
  apply (keeps_dispatch (fun _ => LocalFS.stat p)); repeat keeps_step.
Qed.

Lemma keeps_healthCheck : keeps (healthCheck sandbox wcfs).
Proof.
  unfold healthCheck. apply keeps_try_catch; [|intros e; apply keeps_ret].
  apply keeps_bind; [apply keeps_gets|]. intros ready.
  destruct (negb ready); [apply keeps_ret|].
  apply keeps_bind; [apply keeps_readdir | intros; apply keeps_ret].
Qed.

Lemma after_keeps (c : Call) (h : Heap) :
  selection (this (after sandbox wcfs now c h)) = selection (this h).
Proof.
  destruct c; simpl.
  - apply keeps_readFile.
  - apply keeps_writeFile.
  - apply keeps_readdir.
  - apply keeps_mkdir.
  - apply keeps_deleteFile.
  - apply keeps_deleteDirectory.
  - apply keeps_exists.
  - apply keeps_stat.
  - apply keeps_healthCheck.
Qed.

Lemma healthCheck_never_throws (h : Heap) (e : string) :
  fst (healthCheck sandbox wcfs h) <> Throw e.
Proof.
  unfold healthCheck, try_catch.
  destruct ((ready <- gets (fun h0 : Heap => _isReady (this h0)) ;;
             if negb ready then ret false
             else readdir sandbox wcfs "/" ;;; ret true) h) as [[b|e'|] h1];
    simpl; discriminate.
Qed.
(** C8. The nine unified operations never write the manager's selection:
    whatever a call does and however it ends (a value, a throw, or no
    settlement), the provider, [isReady], the recorded error and the kind
    of adapter in [_fileSystem] are what they were. Hence no sequence of
    calls made on a READY manager changes them; and [healthCheck] never
    throws: it settles with a boolean or not at all. *)
Theorem operations_keep_selection :
  (forall (c : Call) (h : Heap),
      selection (this (after sandbox wcfs now c h)) = selection (this h)) /\
  (forall (cs : list Call) (h : Heap),
      _isReady (this h) = true ->
      let h' := fold_left (fun h c => after sandbox wcfs now c h) cs h in
      _provider (this h') = _provider (this h) /\
      _isReady (this h') = true /\
      adapterKind (_fileSystem (this h')) = adapterKind (_fileSystem (this h))) /\
  (forall (h : Heap) (e : string), fst (healthCheck sandbox wcfs h) <> Throw e).
Proof.
  split; [exact after_keeps|]. split; [|exact healthCheck_never_throws].
  intros cs. induction cs as [|c cs IH]; intros h Hready; simpl.
  - auto.
  - pose proof (after_keeps c h) as Hc. unfold selection in Hc.
    injection Hc as Hp Hr He Hk.
    destruct (IH (after sandbox wcfs now c h)) as [H1 [H2 H3]];
      [congruence|].
    repeat split; congruence.
Qed.

(** C2 (as amended). Whenever the two awaited promises settle, whichever way (the
    CodeSandbox promise resolves to a healthy instance, to an unhealthy
    one, to the mock, or rejects; the WebContainer promise resolves or
    rejects), [_initialize] returns normally with [isReady] true and a
    provider that names the adapter installed; nothing is thrown to the
    caller. *)
Theorem initialize_reaches_ready
    (codesandboxPromise : completion Csb.CodeSandboxInstance)
    (webcontainerPromise : completion unit) (h : Heap) :
  settled codesandboxPromise -> settled webcontainerPromise ->
  exists h',
    _initialize now codesandboxPromise webcontainerPromise h = (Ok tt, h') /\
    _isReady (this h') = true /\
    providerNamesAdapter (this h') = true.
Proof.
  intros Hc Hw.
  unfold _initialize, try_catch, bind, await, update, modify, ret, throw.
  destruct codesandboxPromise as [instance|e|]; [| |destruct Hc].
  - destruct (Csb.isMockInstance instance); simpl.
    + eexists; repeat split.
    + destruct (Csb.healthCheck instance); simpl.
      * eexists; repeat split.
      * destruct webcontainerPromise as [[]|e|]; [| |destruct Hw]; simpl;
          eexists; repeat split.
  - destruct webcontainerPromise as [[]|e'|]; [| |destruct Hw]; simpl;
      eexists; repeat split.
Qed.

(** While the CodeSandbox promise is not settled (as during server-side
    rendering, where the module exports a promise that never settles),
    [_initialize] is suspended at its first [await] and nothing is
    written. *)
Lemma initialize_waits (webcontainerPromise : completion unit) (h : Heap) :
  _initialize now Pending webcontainerPromise h = (Pending, h).
Proof. reflexivity. Qed.
End ManagerFacts.

(** ** Scenario: the sandbox is not created in time *)

Section TimeoutFacts.
Import Manager.

Lemma timeout_message_is_kept :
  Csb.includes "Sandbox creation timeout" "DataView"
  || Csb.includes "Sandbox creation timeout" "Offset is outside the bounds"
  || Csb.includes "Sandbox creation timeout" "RangeError" = false.
Proof. vm_compute. reflexivity. Qed.

Lemma race_lost (sdk : Csb.Sdk) :
  Csb.create sdk = Pending \/ Csb.creationTimeout <= Csb.create_settles_after sdk ->
  Csb.raceWithTimeout sdk = Throw "Sandbox creation timeout".
Proof.
  intros [H|H]; unfold Csb.raceWithTimeout.
  - now rewrite H.
  - apply Z.ltb_ge in H. rewrite H. now destruct (Csb.create sdk).
Qed.

(** When [sandboxes.create] loses the race, [initialize] rejects and the
    module's promise resolves to the mock instance. *)
Lemma codesandbox_after_timeout (env : Csb.ModuleEnv)
      (context : Csb.CodeSandboxContext) (apiKey : string) :
  Csb.SSR env = false ->
  Csb.VITE_CSB_API_KEY env = Some apiKey -> Js.truthy apiKey = true ->
  Csb.hot_codesandbox env = None ->
  Csb.create (Csb.sdk env) = Pending
  \/ Csb.creationTimeout <= Csb.create_settles_after (Csb.sdk env) ->
  fst (Csb.codesandbox env context) = Ok Csb.newMockInstance.
Proof.
  intros Hssr Hkey Htruthy Hhot Hrace.
  unfold Csb.codesandbox. rewrite Hssr, Hkey, Htruthy, Hhot. simpl negb. cbv iota.
  unfold Csb.initialize, try_catch, bind, gets, await, modify, throw, ret,
    Csb.mockInitialize.
  simpl. rewrite (race_lost _ Hrace). rewrite timeout_message_is_kept.
  reflexivity.
Qed.

(** C1 (as amended). If the sandbox's creation has not settled when the
    8000 ms timer fires (the module being loaded in the browser with an
    API key and no promise kept from a hot reload), the [codesandbox]
    promise resolves to the mock instance, and [_initialize] returns with
    [isReady] true and the provider [local]: the mock is treated as local.
    The provider is not the remote one; the WebContainer promise is not
    even awaited. *)
Theorem timeout_selects_local (W : Type) (now : Z) (env : Csb.ModuleEnv)
    (context : Csb.CodeSandboxContext) (apiKey : string)
    (webcontainerPromise : completion unit) (h : Manager.Heap W) :
  Csb.SSR env = false ->
  Csb.VITE_CSB_API_KEY env = Some apiKey -> Js.truthy apiKey = true ->
  Csb.hot_codesandbox env = None ->
  Csb.create (Csb.sdk env) = Pending
  \/ Csb.creationTimeout <= Csb.create_settles_after (Csb.sdk env) ->
  exists h',
    _initialize now (fst (Csb.codesandbox env context)) webcontainerPromise h
    = (Ok tt, h') /\
    _isReady (this h') = true /\
    _provider (this h') = local /\
    _provider (this h') <> codesandbox /\
    adapterKind (_fileSystem (this h')) = IsLocal /\
    _webcontainerInstance (this h') = _webcontainerInstance (this h).
Proof.
  intros Hssr Hkey Htruthy Hhot Hrace.
  rewrite (codesandbox_after_timeout env context apiKey Hssr Hkey Htruthy Hhot Hrace).
  eexists. split; [reflexivity|]. simpl. repeat split. discriminate.
Qed.

(** The environment of the closed examples: in the browser, with an API
    key, where [sandboxes.create] never settles. *)
Lemma timeout_selects_local_witness :
  let env := Csb.mkModuleEnv false (Some "csb_key") None (Csb.mkSdk Pending 0) in
  exists h',
    _initialize 0 (fst (Csb.codesandbox env (Csb.mkContext false None None)))
                (Ok tt) (Manager.mkHeap (Manager.new 0) tt)
    = (Ok tt, h') /\
    _provider (this h') = local.
Proof.
  intro env.
  destruct (timeout_selects_local unit 0 env (Csb.mkContext false None None)
              "csb_key" (Ok tt) (Manager.mkHeap (Manager.new 0) tt)
              eq_refl eq_refl eq_refl eq_refl (or_introl eq_refl))
    as [h' [H1 [_ [H2 _]]]].
  exists h'. split; assumption.
Defined.

(** C1 (as stated) fails: with [sandboxes.create] never settling and the
    WebContainer promise resolving, [_initialize] returns with the provider
    [local], not [webcontainer], the next provider in the priority order. *)
Lemma timeout_does_not_select_webcontainer :
  let env := Csb.mkModuleEnv false (Some "csb_key") None (Csb.mkSdk Pending 0) in
  let promise := fst (Csb.codesandbox env (Csb.mkContext false None None)) in
  Csb.raceWithTimeout (Csb.sdk env) = Throw "Sandbox creation timeout" /\
  exists h',
    _initialize 0 promise (Ok tt) (Manager.mkHeap (Manager.new 0) tt) = (Ok tt, h') /\
    _isReady (this h') = true /\
    _provider (this h') = local /\
    _provider (this h') <> webcontainer.
Proof.
  intros env promise. split; [reflexivity|].
  eexists. split; [vm_compute; reflexivity|].
  simpl. repeat split. discriminate.
Qed.
End TimeoutFacts.

Section ManagerExamples.
Import Manager.

Lemma operations_keep_selection_witness :
  let h := Manager.mkHeap
             (mkManager local true None (LocalAdapter (LocalFS.new 0)) None false) tt in
  let h' := fold_left (fun h c => after offlineSandbox offlineWebContainerFs 0 c h)
                      [CallWriteFile "/notes/a.txt" "hello";
                       CallDeleteDirectory "/notes" false;
                       CallReadFile "/missing";
                       CallHealthCheck] h in
  _provider (this h') = local /\ _isReady (this h') = true /\
  adapterKind (_fileSystem (this h')) = IsLocal.
Proof.
  intros h h'.
  destruct (operations_keep_selection unit offlineSandbox offlineWebContainerFs 0)
    as [_ [Hseq _]].
  exact (Hseq [CallWriteFile "/notes/a.txt" "hello";
               CallDeleteDirectory "/notes" false;
               CallReadFile "/missing";
               CallHealthCheck] h eq_refl).
Defined.

Lemma initialize_reaches_ready_witness :
  exists h',
    _initialize 0 (Throw "CodeSandbox API key not found")
                (Throw "WebContainer failed to boot")
                (Manager.mkHeap (Manager.new 0) tt)
    = (Ok tt, h') /\
    _isReady (this h') = true /\
    providerNamesAdapter (this h') = true.
Proof.
  exact (initialize_reaches_ready unit 0 (Throw "CodeSandbox API key not found")
           (Throw "WebContainer failed to boot")
           (Manager.mkHeap (Manager.new 0) tt) I I).
Defined.

(** C2 (as stated) fails: [_initialize] has no timer of its own, so it
    never reaches READY when a promise it awaits never settles. Three such
    outcomes of the probing chain, on a new manager: the module is loaded
    for server-side rendering, where the exported [codesandbox] promise
    never settles; in the browser, the sandbox is created in time but
    [sandbox.connect()] never settles (WebContainer being available all the
    while); and CodeSandbox is turned down for want of an API key while the
    WebContainer promise never settles. Each time [_initialize] stays
    pending and [isReady] stays false. *)
Lemma initialize_stays_pending :
  let context := Csb.mkContext false None None in
  let created := Csb.mkSdk (Ok (Csb.mkSandbox "33s7n6" (Ok tt))) 120 in
  let hangs := Csb.mkSdk (Ok (Csb.mkSandbox "33s7n6" Pending)) 120 in
  let rendering := Csb.mkModuleEnv true (Some "csb_key") None created in
  let browser := Csb.mkModuleEnv false (Some "csb_key") None hangs in
  let keyless := Csb.mkModuleEnv false None None created in
  let h := Manager.mkHeap (Manager.new 0) tt in
  let stuck (run : completion unit * Manager.Heap unit) :=
    fst run = Pending /\ _isReady (this (snd run)) = false /\
    ~ (exists h', run = (Ok tt, h') /\ _isReady (this h') = true) in
  stuck (_initialize 0 (fst (Csb.codesandbox rendering context)) (Ok tt) h) /\
  stuck (_initialize 0 (fst (Csb.codesandbox browser context)) (Ok tt) h) /\
  stuck (_initialize 0 (fst (Csb.codesandbox keyless context)) Pending h).
Proof.
  repeat split; try reflexivity; intros [h' [H _]]; discriminate H.
Qed.

(** Without an API key the module's promise rejects, and the manager goes
    on to WebContainer. *)
Lemma missing_key_selects_webcontainer (W : Type) (now : Z)
      (context : Csb.CodeSandboxContext) (sdk : Csb.Sdk)
      (hot : option (completion Csb.CodeSandboxInstance)) (h : Manager.Heap W) :
  let env := Csb.mkModuleEnv false None hot sdk in
  exists h',
    _initialize now (fst (Csb.codesandbox env context)) (Ok tt) h = (Ok tt, h') /\
    _provider (this h') = webcontainer /\ _isReady (this h') = true.
Proof. intro env. eexists. split; [reflexivity|]. split; reflexivity. Qed.

(** An instance the module creates never has a file system behind it, so
    it is the mock or fails its health check. *)
Lemma created_instance_mock_or_unhealthy (env : Csb.ModuleEnv)
      (context : Csb.CodeSandboxContext) (instance : Csb.CodeSandboxInstance) :
  Csb.hot_codesandbox env = None ->
  fst (Csb.codesandbox env context) = Ok instance ->
  Csb.isMockInstance instance = true \/ Csb.healthCheck instance = false.
Proof.
  intros Hhot. unfold Csb.codesandbox.
  destruct (Csb.SSR env); [discriminate|].
  destruct (Csb.VITE_CSB_API_KEY env) as [apiKey|]; [|discriminate].
  destruct (negb (Js.truthy apiKey)); [discriminate|]. rewrite Hhot.
  unfold Csb.initialize, try_catch, bind, gets, await, modify, throw, ret,
    Csb.mockInitialize.
  simpl.
  destruct (Csb.raceWithTimeout (Csb.sdk env)) as [sandbox|e|]; simpl.
  - destruct (Csb.connect sandbox) as [[]|e|]; simpl; intros H;
      try discriminate; injection H as <-; auto.
  - intros H. injection H as <-. auto.
  - discriminate.
Qed.

(** X26. So the manager never ends up on the remote provider with an
    instance the module created: when [_initialize] returns over the
    module's promise (no promise kept from a hot reload), the provider is
    [webcontainer] or [local], never [codesandbox]. *)
Lemma remote_never_selected (W : Type) (now : Z) (env : Csb.ModuleEnv)
      (context : Csb.CodeSandboxContext) (webcontainerPromise : completion unit)
      (h h' : Manager.Heap W) :
  Csb.hot_codesandbox env = None ->
  _initialize now (fst (Csb.codesandbox env context)) webcontainerPromise h
  = (Ok tt, h') ->
  _provider (this h') <> codesandbox.
Proof.
  intros Hhot.
  pose proof (created_instance_mock_or_unhealthy env context) as Hinst.
  destruct (fst (Csb.codesandbox env context)) as [instance|e|].
  - specialize (Hinst instance Hhot eq_refl).
    unfold _initialize, try_catch, bind, await, update, modify, ret, throw.
    destruct Hinst as [Hm|Hu].
    + rewrite Hm. simpl. intros H. injection H as <-. discriminate.
    + destruct (Csb.isMockInstance instance); simpl.
      * intros H. injection H as <-. discriminate.
      * rewrite Hu. simpl.
        destruct webcontainerPromise as [[]|e|]; simpl; intros H;
          try discriminate; injection H as <-; discriminate.
  - unfold _initialize, try_catch, bind, await, update, modify, ret, throw.
    destruct webcontainerPromise as [[]|e'|]; simpl; intros H;
      try discriminate; injection H as <-; discriminate.
  - intros H. discriminate.
Qed.
End ManagerExamples.

(** ** Invariants through the monad *)

Section InvariantFacts.
Context {S : Type} (Inv : S -> Prop).

Lemma preserves_ret {A} (a : A) : preserves Inv (ret a).
Proof. intros s H. exact H. Qed.

Lemma preserves_throw {A} (e : string) : preserves Inv (throw e : M S A).
Proof. intros s H. exact H. Qed.

Lemma preserves_await {A} (p : completion A) : preserves Inv (await p).
Proof. intros s H. exact H. Qed.

Lemma preserves_modify (f : S -> S) :
  (forall s, Inv s -> Inv (f s)) -> preserves Inv (modify f).
Proof. intros Hf s H. simpl. now apply Hf. Qed.

Lemma preserves_bind {A B} (c : M S A) (k : A -> M S B) :
  preserves Inv c -> (forall a, preserves Inv (k a)) -> preserves Inv (bind c k).
Proof.
  intros Hc Hk s H. unfold bind. specialize (Hc s H).
  destruct (c s) as [[a|e|] s1]; simpl in *; try exact Hc.
  now apply Hk.
Qed.

Lemma preserves_try_catch {A} (c : M S A) (handler : string -> M S A) :
  preserves Inv c -> (forall e, preserves Inv (handler e)) ->
  preserves Inv (try_catch c handler).
Proof.
  intros Hc Hh s H. unfold try_catch. specialize (Hc s H).
  destruct (c s) as [[a|e|] s1]; simpl in *; try exact Hc.
  now apply Hh.
Qed.

Lemma preserves_forOf {A} (xs : list A) (body : A -> M S unit) :
  (forall x, In x xs -> preserves Inv (body x)) -> preserves Inv (forOf xs body).
Proof.
  induction xs as [|x xs IH]; intros Hbody; simpl.
  - apply preserves_ret.
  - apply preserves_bind; [apply Hbody; now left|].
    intros _. apply IH. intros y Hy. apply Hbody. now right.
Qed.
Lemma bind_ext {A B} (c1 c2 : M S A) (k1 k2 : A -> M S B) :
  (forall s, c1 s = c2 s) -> (forall a s, k1 a s = k2 a s) ->
  forall s, bind c1 k1 s = bind c2 k2 s.
Proof.
  intros Hc Hk s. unfold bind. rewrite Hc.
  destruct (c2 s) as [[a|e|] s1]; [apply Hk | reflexivity | reflexivity].
Qed.

Lemma try_catch_ext {A} (c1 c2 : M S A) (h1 h2 : string -> M S A) :
  (forall s, c1 s = c2 s) -> (forall e s, h1 e s = h2 e s) ->
  forall s, try_catch c1 h1 s = try_catch c2 h2 s.
Proof.
  intros Hc Hh s. unfold try_catch. rewrite Hc.
  destruct (c2 s) as [[a|e|] s1]; [reflexivity | apply Hh | reflexivity].
Qed.

Lemma forOf_ext {A} (xs : list A) (f g : A -> M S unit) :
  (forall x s, f x s = g x s) -> forall s, forOf xs f s = forOf xs g s.
Proof.
  intros Hfg. induction xs as [|x xs IH]; intros s; simpl; [reflexivity|].
  apply bind_ext; [apply Hfg | intros _; apply IH].
Qed.
End InvariantFacts.

(** ** The text search *)

Section SearchFacts.
Import Js Csb.
Variable toLowerCase : string -> string.
Variable RegExp : Type.
Variable RegExp_new : string -> string -> option RegExp.
Variable RegExp_exec : RegExp -> string -> option Z.

Local Abbreviation lineMatchIndex := (Csb.lineMatchIndex toLowerCase RegExp_new RegExp_exec).
Local Abbreviation scanLines := (Csb.scanLines toLowerCase RegExp_new RegExp_exec).
Local Abbreviation reported := (Csb.reported toLowerCase RegExp_new RegExp_exec).
Local Abbreviation excluded := (Csb.excluded RegExp_new RegExp_exec).
Local Abbreviation notIncluded := (Csb.notIncluded RegExp_new RegExp_exec).
Local Abbreviation _searchInFile := (Csb._searchInFile toLowerCase RegExp_new RegExp_exec).
Local Abbreviation _searchInFolder := (Csb._searchInFolder toLowerCase RegExp_new RegExp_exec).
Local Abbreviation walkTextSearch := (Csb.walkTextSearch toLowerCase RegExp_new RegExp_exec).
Local Abbreviation mockTextSearch := (Csb.mockTextSearch toLowerCase).
Local Abbreviation textSearch := (Csb.textSearch toLowerCase RegExp_new RegExp_exec).

Lemma reported_nil filePath query options lineIndex m :
  ~ reported filePath query options lineIndex [] m.
Proof. intros [k [line [idx [H _]]]]. destruct k; discriminate. Qed.

Lemma reported_cons filePath query options lineIndex line rest m :
  reported filePath query options lineIndex (line :: rest) m <->
  (exists matchIndex,
      lineMatchIndex query options line = Ok matchIndex /\ matchIndex <> -1 /\
      m = mkResult filePath (lineIndex + 1) line matchIndex (matchIndex + len query))
  \/ reported filePath query options (lineIndex + 1) rest m.
Proof.
  split.
  - intros [k [l [idx [Hk [Hidx [Hne ->]]]]]]. destruct k as [|k]; simpl in Hk.
    + injection Hk as ->. left. exists idx. repeat split; auto.
      f_equal. lia.
    + right. exists k, l, idx. repeat split; auto. f_equal. lia.
  - intros [[idx [Hidx [Hne ->]]] | [k [l [idx [Hk [Hidx [Hne ->]]]]]]].
    + exists 0%nat, line, idx. repeat split; auto. f_equal. lia.
    + exists (Datatypes.S k), l, idx. repeat split; auto. f_equal. lia.
Qed.

(** The line loop appends, in line order, exactly the matches it is to
    report, at most one for each line. *)
Lemma scanLines_spec filePath query options (lines : list string) :
  forall lineIndex acc out,
    scanLines filePath query options lineIndex lines acc = Ok out ->
    exists fresh,
      out = (acc ++ fresh)%list /\
      (List.length fresh <= List.length lines)%nat /\
      forall m, In m fresh <-> reported filePath query options lineIndex lines m.
Proof.
  induction lines as [|line rest IH]; intros lineIndex acc out; simpl.
  - intros H. injection H as <-. exists []. rewrite app_nil_r.
    repeat split; auto.
    + intros [].
    + intros H. now apply reported_nil in H.
  - destruct (lineMatchIndex query options line) as [idx|e|] eqn:Hidx;
      try discriminate.
    intros H. apply IH in H. destruct H as [fresh [-> [Hlen Hin]]].
    destruct (idx =? -1) eqn:E; simpl.
    + apply Z.eqb_eq in E. exists fresh. repeat split; [lia| |].
      * intros Hm. apply reported_cons. right. now apply Hin.
      * intros Hm. apply reported_cons in Hm.
        destruct Hm as [[idx' [Hidx' [Hne _]]]|Hm]; [congruence | now apply Hin].
    + apply Z.eqb_neq in E.
      exists (mkResult filePath (lineIndex + 1) line idx (idx + len query) :: fresh).
      rewrite <- app_assoc. simpl. repeat split; [lia| |].
      * intros [<-|Hm]; apply reported_cons.
        -- left. exists idx. auto.
        -- right. now apply Hin.
      * intros Hm. apply reported_cons in Hm.
        destruct Hm as [[idx' [Hidx' [Hne ->]]]|Hm].
        -- left. congruence.
        -- right. now apply Hin.
Qed.

(** Nothing in the scan of one file waits on anything but the read. *)
Lemma excluded_settles options filePath : excluded options filePath <> Pending.
Proof.
  unfold Csb.excluded, patternTest.
  destruct (excludePattern options) as [pattern|]; [|discriminate].
  destruct (truthy pattern); [|discriminate].
  destruct (RegExp_new pattern ""); discriminate.
Qed.

Lemma notIncluded_settles options filePath : notIncluded options filePath <> Pending.
Proof.
  unfold Csb.notIncluded, patternTest.
  destruct (includePattern options) as [pattern|]; [|discriminate].
  destruct (truthy pattern); [|discriminate].
  destruct (RegExp_new pattern ""); discriminate.
Qed.

Lemma readFile_settles (i : CodeSandboxInstance) filePath :
  readFile i filePath <> Pending.
Proof.
  unfold readFile. destruct (_mockFiles i) as [files|].
  - destruct (JsMap.get filePath files); discriminate.
  - destruct (_fileSystem i) as [fs|]; [|discriminate].
    destruct (negb (_initialized i)); [discriminate|].
    destruct (readTextFile fs filePath); discriminate.
Qed.

Lemma lineMatchIndex_settles query options line :
  lineMatchIndex query options line <> Pending.
Proof.
  unfold Csb.lineMatchIndex.
  destruct (useRegExp options).
  - destruct (RegExp_new _ _) as [r|]; [|discriminate].
    destruct (RegExp_exec r _); discriminate.
  - destruct (wholeWord options); [|discriminate].
    destruct (RegExp_new _ _) as [r|]; [|discriminate].
    destruct (RegExp_exec r _); discriminate.
Qed.

Lemma scanLines_settles filePath query options (lines : list string) :
  forall lineIndex acc,
    scanLines filePath query options lineIndex lines acc <> Pending.
Proof.
  induction lines as [|line rest IH]; intros lineIndex acc; simpl;
    [discriminate|].
  pose proof (lineMatchIndex_settles query options line) as Hs.
  destruct (lineMatchIndex query options line) as [idx|e|];
    [apply IH | discriminate | congruence].
Qed.

(** [_searchInFile] never throws. Either it leaves the state alone, or the
    file passed both filters, had content, was scanned to the end, and
    its matches (at least one) went out in one call of the callback. *)
Lemma searchInFile_cases (i : CodeSandboxInstance) (filePath query : string)
      (options : CodeSandboxSearchOptions) (st : SearchState) :
  _searchInFile i filePath query options st = (Ok tt, st)
  \/ exists content fileMatches,
       excluded options filePath = Ok false /\
       notIncluded options filePath = Ok false /\
       readFile i filePath = Ok content /\
       truthy content = true /\
       scanLines filePath query options 0 (split newline content) [] = Ok fileMatches /\
       fileMatches <> [] /\
       _searchInFile i filePath query options st
       = (Ok tt, mkSearchState (results st ++ fileMatches)
                               (calls st ++ [(filePath, fileMatches)])).
Proof.
  unfold Csb._searchInFile, try_catch, bind, await, ret, progressCallback,
    pushResults, modify.
  pose proof (excluded_settles options filePath) as S1.
  destruct (excluded options filePath) as [[|]|e|] eqn:Hex; simpl; auto;
    [|congruence].
  pose proof (notIncluded_settles options filePath) as S2.
  destruct (notIncluded options filePath) as [[|]|e|] eqn:Hin; simpl; auto;
    [|congruence].
  pose proof (readFile_settles i filePath) as S3.
  destruct (readFile i filePath) as [content|e|] eqn:Hread; simpl; auto;
    [|congruence].
  destruct (truthy content) eqn:Htruthy; simpl; auto.
  pose proof (scanLines_settles filePath query options (split newline content) 0 [])
    as S4.
  destruct (scanLines filePath query options 0 (split newline content) [])
    as [fileMatches|e|] eqn:Hscan; simpl; auto; [|congruence].
  destruct fileMatches as [|m ms]; simpl; auto.
  right. exists content, (m :: ms). repeat split; auto. discriminate.
Qed.
(** *** The walk hands out only batches of [_searchInFile] *)

Local Abbreviation flushed := (Csb.flushed toLowerCase RegExp_new RegExp_exec).

Lemma searchInFile_flushes i filePath query options :
  preserves (fun st => Forall (flushed i query options) (calls st))
            (_searchInFile i filePath query options).
Proof.
  intros st H.
  destruct (searchInFile_cases i filePath query options st)
    as [->|[content [fileMatches [H1 [H2 [H3 [H4 [H5 [H6 ->]]]]]]]]]; [exact H|].
  simpl. apply Forall_app. split; [exact H|].
  constructor; [|constructor]. exists content. simpl. repeat split; assumption.
Qed.

Lemma searchInFolder_flushes i query options (fuel : nat) :
  forall folderPath,
    preserves (fun st => Forall (flushed i query options) (calls st))
              (_searchInFolder fuel i folderPath query options).
Proof.
  induction fuel as [|fuel IH]; intros folderPath; simpl.
  - apply preserves_await.
  - apply preserves_try_catch; [|intros e; apply preserves_ret].
    apply preserves_bind; [apply preserves_await|]. intros entries.
    apply preserves_forOf. intros entry _.
    apply preserves_try_catch; [|intros e; apply preserves_ret].
    apply preserves_bind; [apply preserves_await|]. intros st.
    destruct (isDirectory st); [apply IH|].
    destruct (isFile st); [apply searchInFile_flushes | apply preserves_ret].
Qed.

Lemma walkTextSearch_flushes i query options (fuel : nat) :
  preserves (fun st => Forall (flushed i query options) (calls st))
            (walkTextSearch fuel i query options).
Proof.
  unfold Csb.walkTextSearch.
  destruct (notInitialized i); [apply preserves_throw|].
  apply preserves_bind; [apply preserves_modify; auto|]. intros _.
  apply preserves_forOf. intros folder _. apply searchInFolder_flushes.
Qed.

(** *** The mock's search *)

Lemma mockScanLines_plain filePath query options (lines : list string) :
  forall lineIndex acc,
    scanLines filePath query (plainOptions options) lineIndex lines acc
    = Ok (mockScanLines toLowerCase filePath query options lineIndex lines acc).
Proof.
  induction lines as [|line rest IH]; intros lineIndex acc; simpl;
    [reflexivity|].
  unfold Csb.lineMatchIndex. simpl. apply IH.
Qed.

Lemma mockScanFiles_forall (Q : CodeSandboxSearchResult -> Prop) query options
      (files : JsMap.t string) :
  (forall filePath content m,
      In (filePath, content) files ->
      reported filePath query (plainOptions options) 0 (split newline content) m ->
      Q m) ->
  forall acc, Forall Q acc ->
              Forall Q (fold_left (mockScanFile toLowerCase query options) files acc).
Proof.
  induction files as [|[filePath content] files IH]; intros HQ acc Hacc; simpl;
    [exact Hacc|].
  apply IH; [intros fp c m Hin; apply HQ; now right|].
  unfold mockScanFile. simpl.
  pose proof (mockScanLines_plain filePath query options (split newline content) 0 acc)
    as Hplain.
  apply scanLines_spec in Hplain. destruct Hplain as [fresh [-> [_ Hfresh]]].
  apply Forall_app. split; [exact Hacc|].
  apply Forall_forall. intros m Hm. apply (HQ filePath content); [now left|].
  now apply Hfresh.
Qed.

Lemma get_Forall {V : Type} (R : V -> Prop) (k : string) (m : JsMap.t V) (v : V) :
  Forall (fun e => R (snd e)) m -> JsMap.get k m = Some v -> R v.
Proof.
  induction m as [|[k' v'] m IH]; simpl; [discriminate|].
  intros H. inversion H as [|? ? Hhd Htl]; subst.
  destruct (String.eqb k' k); [intros E; injection E as <-; exact Hhd | now apply IH].
Qed.

Lemma set_Forall {V : Type} (R : V -> Prop) (k : string) (v : V) (m : JsMap.t V) :
  Forall (fun e => R (snd e)) m -> R v ->
  Forall (fun e => R (snd e)) (JsMap.set k v m).
Proof.
  intros H Hv. induction m as [|[k' v'] m IH]; simpl.
  - constructor; [exact Hv | constructor].
  - inversion H as [|? ? Hhd Htl]; subst.
    destruct (String.eqb k' k); constructor; auto.
Qed.

Lemma groups_forall (Q : CodeSandboxSearchResult -> Prop)
      (results : list CodeSandboxSearchResult) :
  Forall Q results ->
  forall grouped,
    Forall (fun e => Forall Q (snd e)) grouped ->
    Forall (fun e => Forall Q (snd e)) (fold_left group_step results grouped).
Proof.
  induction results as [|r rs IH]; intros HQ grouped Hg; simpl; [exact Hg|].
  inversion HQ as [|? ? Hr Hrs]; subst.
  apply IH; [exact Hrs|]. unfold group_step.
  set (grouped1 := if negb (JsMap.has (path r) grouped)
                   then JsMap.set (path r) [] grouped else grouped).
  assert (Forall (fun e => Forall Q (snd e)) grouped1) as Hg1.
  { unfold grouped1. destruct (negb (JsMap.has (path r) grouped)); [|exact Hg].
    apply (set_Forall (Forall Q)); [exact Hg | constructor]. }
  destruct (JsMap.get (path r) grouped1) as [fileResults|] eqn:G; [|exact Hg1].
  apply (set_Forall (Forall Q)); [exact Hg1|].
  apply Forall_app. split; [|constructor; [exact Hr | constructor]].
  exact (get_Forall (Forall Q) _ _ _ Hg1 G).
Qed.

Lemma mockTextSearch_forall (Q : CodeSandboxSearchResult -> Prop) query options
      (files : JsMap.t string) :
  (forall filePath content m,
      In (filePath, content) files ->
      reported filePath query (plainOptions options) 0 (split newline content) m ->
      Q m) ->
  preserves (fun st => Forall (fun call => Forall Q (snd call)) (calls st))
            (mockTextSearch files query options).
Proof.
  intros HQ. unfold Csb.mockTextSearch.
  apply preserves_bind; [apply preserves_modify; auto|]. intros _.
  apply preserves_forOf. intros [filePath fileResults] Hin.
  unfold progressCallback. apply preserves_modify. intros st Hst. simpl.
  apply Forall_app. split; [exact Hst|]. constructor; [|constructor]. simpl.
  pose proof (groups_forall Q _ (mockScanFiles_forall Q query options files HQ []
                                   (Forall_nil _)) [] (Forall_nil _)) as Hgroups.
  rewrite Forall_forall in Hgroups. exact (Hgroups _ Hin).
Qed.
Lemma reported_offsets filePath query options lineIndex lines m :
  reported filePath query options lineIndex lines m ->
  matchCharEnd m = matchCharStart m + len query /\ path m = filePath.
Proof. intros [k [line [idx [_ [_ [_ ->]]]]]]. split; reflexivity. Qed.

Lemma flushed_batch i query options filePath batch :
  flushed i query options (filePath, batch) ->
  exists content,
    excluded options filePath = Ok false /\
    readFile i filePath = Ok content /\
    (0 < List.length batch <= List.length (split newline content))%nat /\
    forall m, In m batch <->
              reported filePath query options 0 (split newline content) m.
Proof.
  intros [content [H1 [_ [H3 [_ [H5 H6]]]]]]. simpl in *.
  apply scanLines_spec in H5. destruct H5 as [fresh [Hout [Hlen Hin]]].
  simpl in Hout. subst fresh.
  exists content. repeat split; auto; try apply Hin; auto.
  destruct batch; [congruence | simpl; lia].
Qed.

Lemma walk_calls_flushed fuel i query options call :
  In call (calls (snd (walkTextSearch fuel i query options emptySearch))) ->
  flushed i query options call.
Proof.
  intros Hin.
  pose proof (walkTextSearch_flushes i query options fuel emptySearch
                (Forall_nil _)) as H.
  rewrite Forall_forall in H. now apply H.
Qed.

(** C10. Every match that [textSearch] hands to the callback, on a real
    instance (plain, whole-word or regular-expression mode alike) as on the
    mock, has [matchCharEnd = matchCharStart + query.length]: the length of
    the query as typed, whatever the engine matched and whatever case
    folding did to the query. *)
Theorem matchCharEnd_adds_query_length (fuel : nat) (i : CodeSandboxInstance)
    (query : string) (options : CodeSandboxSearchOptions)
    (filePath : string) (batch : list CodeSandboxSearchResult)
    (m : CodeSandboxSearchResult) :
  In (filePath, batch) (calls (snd (textSearch fuel i query options emptySearch))) ->
  In m batch ->
  matchCharEnd m = matchCharStart m + len query.
Proof.
  unfold Csb.textSearch. destruct (_mockFiles i) as [files|].
  - intros Hcall Hm.
    pose proof (mockTextSearch_forall
                  (fun m => matchCharEnd m = matchCharStart m + len query)
                  query options files) as H.
    assert (forall filePath content m,
               In (filePath, content) files ->
               reported filePath query (plainOptions options) 0
                        (split newline content) m ->
               matchCharEnd m = matchCharStart m + len query) as HQ.
    { intros fp c m' _ Hr. now apply reported_offsets in Hr. }
    specialize (H HQ emptySearch (Forall_nil _)).
    rewrite Forall_forall in H. specialize (H _ Hcall). simpl in H.
    rewrite Forall_forall in H. now apply H.
  - intros Hcall Hm. apply walk_calls_flushed in Hcall.
    apply flushed_batch in Hcall. destruct Hcall as [content [_ [_ [_ Hin]]]].
    apply Hin in Hm. now apply reported_offsets in Hm.
Qed.

(** C6 (as amended). In the walk-based search, a file whose path matches a
    non-empty [excludePattern] contributes nothing: [_searchInFile] returns
    without calling the callback or touching [results], and no batch of
    the whole walk is keyed by that path. *)
Theorem walk_skips_excluded (fuel : nat) (i : CodeSandboxInstance)
    (query : string) (options : CodeSandboxSearchOptions) (filePath : string)
    (pattern : string) (regex : RegExp) (index : Z) :
  excludePattern options = Some pattern -> pattern <> "" ->
  RegExp_new pattern "" = Some regex ->
  RegExp_exec regex filePath = Some index ->
  (forall st, _searchInFile i filePath query options st = (Ok tt, st)) /\
  (forall batch,
      ~ In (filePath, batch)
           (calls (snd (walkTextSearch fuel i query options emptySearch)))).
Proof.
  intros Hpat Hne Hnew Hexec.
  assert (excluded options filePath = Ok true) as Hex.
  { unfold Csb.excluded, patternTest. rewrite Hpat.
    destruct pattern; [congruence|]. simpl truthy. cbv iota.
    now rewrite Hnew, Hexec. }
  split.
  - intros st. unfold Csb._searchInFile, try_catch, bind, await, ret.
    now rewrite Hex.
  - intros batch Hin. apply walk_calls_flushed in Hin.
    destruct Hin as [content [H1 _]]. simpl in H1. congruence.
Qed.
(** *** [maxResults] is not read *)

Lemma scanLines_maxResults n filePath query options (lines : list string) :
  forall lineIndex acc,
    scanLines filePath query (with_maxResults n options) lineIndex lines acc
    = scanLines filePath query options lineIndex lines acc.
Proof.
  induction lines as [|line rest IH]; intros lineIndex acc; simpl;
    [reflexivity|].
  change (lineMatchIndex query (with_maxResults n options) line)
    with (lineMatchIndex query options line).
  destruct (lineMatchIndex query options line); [apply IH | reflexivity | reflexivity].
Qed.

Lemma searchInFile_maxResults n i filePath query options st :
  _searchInFile i filePath query (with_maxResults n options) st
  = _searchInFile i filePath query options st.
Proof.
  unfold Csb._searchInFile. apply try_catch_ext; [|reflexivity]. clear st.
  intros st. apply bind_ext; [reflexivity|]. clear st. intros skip st.
  destruct skip; [reflexivity|].
  apply bind_ext; [reflexivity|]. clear st. intros skip st.
  destruct skip; [reflexivity|].
  apply bind_ext; [reflexivity|]. clear st. intros content st.
  destruct (negb (truthy content)); [reflexivity|].
  apply bind_ext; [|reflexivity]. clear st. intros st. unfold await.
  now rewrite scanLines_maxResults.
Qed.

Lemma searchInFolder_maxResults n i query options (fuel : nat) :
  forall folderPath st,
    _searchInFolder fuel i folderPath query (with_maxResults n options) st
    = _searchInFolder fuel i folderPath query options st.
Proof.
  induction fuel as [|fuel IH]; intros folderPath st; simpl; [reflexivity|].
  apply try_catch_ext; [|reflexivity]. clear st. intros st.
  apply bind_ext; [reflexivity|]. clear st. intros entries st.
  apply forOf_ext. clear st. intros entry st.
  apply try_catch_ext; [|reflexivity]. clear st. intros st.
  apply bind_ext; [reflexivity|]. clear st. intros s st.
  destruct (isDirectory s); [apply IH|].
  destruct (isFile s); [apply searchInFile_maxResults | reflexivity].
Qed.

(** The code of the walk-based search does not read [maxResults]:
    whatever value the option has, the search does the same and hands out
    the same batches. What bounds a file's batch is the file: the batch
    holds at least one match and at most one for each line of the content
    read. *)
Theorem walk_does_not_read_maxResults (fuel : nat) (i : CodeSandboxInstance)
    (query : string) (options : CodeSandboxSearchOptions) :
  (forall (n : option Z) (st : SearchState),
      walkTextSearch fuel i query (with_maxResults n options) st
      = walkTextSearch fuel i query options st) /\
  (forall filePath batch,
      In (filePath, batch)
         (calls (snd (walkTextSearch fuel i query options emptySearch))) ->
      exists content,
        readFile i filePath = Ok content /\
        (0 < List.length batch <= List.length (split newline content))%nat).
Proof.
  split.
  - intros n st. unfold Csb.walkTextSearch.
    destruct (notInitialized i); [reflexivity|].
    apply bind_ext; [reflexivity|]. clear st. intros _ st.
    change (folders (with_maxResults n options)) with (folders options).
    apply forOf_ext. intros folder s. apply searchInFolder_maxResults.
  - intros filePath batch Hin. apply walk_calls_flushed in Hin.
    apply flushed_batch in Hin. destruct Hin as [content [_ [Hread [Hlen _]]]].
    exists content. split; assumption.
Qed.
(** *** Plain, case-insensitive search *)

Lemma indexOf_first_occurrence (s q : string) (index : Z) :
  indexOf s q = index -> index <> -1 ->
  exists pos : nat,
    index = Z.of_nat pos /\
    String.substring pos (String.length q) s = q /\
    forall j, (j < pos)%nat -> String.substring j (String.length q) s <> q.
Proof.
  unfold indexOf. destruct (String.index 0 q s) as [pos|] eqn:E.
  - intros <- _. exists pos. split; [reflexivity|]. split.
    + exact (index_correct1 _ _ _ _ E).
    + intros j Hj. apply (index_correct2 _ _ _ _ E); lia.
  - intros <- H. now elim H.
Qed.

Lemma lineMatchIndex_plain query options line :
  useRegExp options = false -> wholeWord options = false ->
  caseSensitive options = false ->
  lineMatchIndex query options line
  = Ok (indexOf (toLowerCase line) (toLowerCase query)).
Proof. intros H1 H2 H3. unfold Csb.lineMatchIndex. now rewrite H1, H2, H3. Qed.

Lemma scanLines_plain_returns filePath query options (lines : list string) :
  useRegExp options = false -> wholeWord options = false ->
  caseSensitive options = false ->
  forall lineIndex acc,
  exists out, scanLines filePath query options lineIndex lines acc = Ok out.
Proof.
  intros H1 H2 H3.
  induction lines as [|line rest IH]; intros lineIndex acc; simpl.
  - now exists acc.
  - rewrite (lineMatchIndex_plain query options line H1 H2 H3). apply IH.
Qed.

Lemma searchInFile_flush i filePath query options content fileMatches st :
  excluded options filePath = Ok false ->
  notIncluded options filePath = Ok false ->
  readFile i filePath = Ok content ->
  content <> "" ->
  scanLines filePath query options 0 (split newline content) [] = Ok fileMatches ->
  _searchInFile i filePath query options st
  = (Ok tt, if 0 <? Z.of_nat (List.length fileMatches)
            then mkSearchState (results st ++ fileMatches)
                               (calls st ++ [(filePath, fileMatches)])
            else st).
Proof.
  intros H1 H2 H3 H4 H5.
  unfold Csb._searchInFile, try_catch, bind, await, ret, progressCallback,
    pushResults, modify.
  rewrite H1, H2, H3. destruct content; [congruence|]. simpl truthy. cbv iota.
  simpl negb. cbv iota. rewrite H5.
  destruct (0 <? Z.of_nat (List.length fileMatches)); reflexivity.
Qed.

(** What a plain case-insensitive scan of one file hands out: at most one
    batch; each match in it previews a line of the file, carries that
    line's 1-based number and marks the first folded occurrence. *)
Lemma plain_search_sound i filePath query options batch m :
  useRegExp options = false -> wholeWord options = false ->
  caseSensitive options = false ->
  In (filePath, batch)
     (calls (snd (_searchInFile i filePath query options emptySearch))) ->
  In m batch ->
  calls (snd (_searchInFile i filePath query options emptySearch))
  = [(filePath, batch)] /\
  exists content (k : nat) (line : string),
    readFile i filePath = Ok content /\
    nth_error (split newline content) k = Some line /\
    lineNumber m = Z.of_nat k + 1 /\
    Csb.marksFirstFolded toLowerCase query line m.
Proof.
  intros H1 H2 H3 Hcall Hm. split.
  - destruct (searchInFile_cases i filePath query options emptySearch)
      as [E|[content [fileMatches [_ [_ [_ [_ [_ [_ E]]]]]]]]];
      rewrite E in Hcall |- *; simpl in *; [destruct Hcall|].
    destruct Hcall as [Hcall|[]]. now injection Hcall as ->.
  - pose proof (searchInFile_flushes i filePath query options emptySearch
                  (Forall_nil _)) as Hf.
    rewrite Forall_forall in Hf. specialize (Hf _ Hcall).
    apply flushed_batch in Hf. destruct Hf as [content [_ [Hread [_ Hin]]]].
    apply Hin in Hm. destruct Hm as [k [line [idx [Hk [Hidx [Hne ->]]]]]].
    rewrite (lineMatchIndex_plain query options line H1 H2 H3) in Hidx.
    injection Hidx as Hidx.
    destruct (indexOf_first_occurrence _ _ _ Hidx Hne) as [pos [-> [Hs Hfirst]]].
    exists content, k, line. repeat split; auto.
    exists pos. simpl. repeat split; auto.
Qed.

(** Conversely every line in which the folded query occurs is reported. *)
Lemma plain_search_complete i filePath query options content (k : nat) line :
  useRegExp options = false -> wholeWord options = false ->
  caseSensitive options = false ->
  excluded options filePath = Ok false ->
  notIncluded options filePath = Ok false ->
  readFile i filePath = Ok content -> content <> "" ->
  nth_error (split newline content) k = Some line ->
  indexOf (toLowerCase line) (toLowerCase query) <> -1 ->
  exists batch,
    calls (snd (_searchInFile i filePath query options emptySearch))
    = [(filePath, batch)] /\
    In (mkResult filePath (Z.of_nat k + 1) line
                 (indexOf (toLowerCase line) (toLowerCase query))
                 (indexOf (toLowerCase line) (toLowerCase query) + len query))
       batch.
Proof.
  intros H1 H2 H3 Hex Hinc Hread Hcontent Hk Hidx.
  destruct (scanLines_plain_returns filePath query options (split newline content)
              H1 H2 H3 0 []) as [fileMatches Hscan].
  pose proof Hscan as Hspec. apply scanLines_spec in Hspec.
  destruct Hspec as [fresh [Hout [_ Hin]]]. simpl in Hout. subst fresh.
  assert (In (mkResult filePath (Z.of_nat k + 1) line
                (indexOf (toLowerCase line) (toLowerCase query))
                (indexOf (toLowerCase line) (toLowerCase query) + len query))
             fileMatches) as Hm.
  { apply Hin. exists k, line, (indexOf (toLowerCase line) (toLowerCase query)).
    repeat split; auto. apply lineMatchIndex_plain; assumption. }
  rewrite (searchInFile_flush i filePath query options content fileMatches
             emptySearch Hex Hinc Hread Hcontent Hscan).
  destruct fileMatches as [|m0 ms]; [destruct Hm|].
  simpl. exists (m0 :: ms). split; [reflexivity | exact Hm].
Qed.
End SearchFacts.

(** ** Scenarios *)

Section Scenarios.
Import Js Csb.
Variable RegExp : Type.
Variable RegExp_new : string -> string -> option RegExp.
Variable RegExp_exec : RegExp -> string -> option Z.

(** C5. A plain (no regular expression, no whole word) case-insensitive
    search of a file hands out at most one batch; every match in it
    previews a line of the file as it is written, carries that line's
    1-based number, starts where the case-folded query first occurs in the
    case-folded line and ends [query.length] further; and every such
    line is reported. On the content ["foo bar\nbaz foo"] the query
    ["FOO"] gives exactly line 1, 0-3 and line 2, 4-7 in one batch, and on
    ["Hello from Bolt!"] the query ["HELLO"] gives that line with 0-5;
    both on the walk-based search and on the mock's. *)
Theorem case_insensitive_plain_search :
  (forall toLowerCase i filePath query options batch m,
      useRegExp options = false -> wholeWord options = false ->
      caseSensitive options = false ->
      In (filePath, batch)
         (calls (snd (_searchInFile toLowerCase RegExp_new RegExp_exec
                                    i filePath query options emptySearch))) ->
      In m batch ->
      calls (snd (_searchInFile toLowerCase RegExp_new RegExp_exec
                                i filePath query options emptySearch))
      = [(filePath, batch)] /\
      exists content (k : nat) (line : string),
        readFile i filePath = Ok content /\
        nth_error (split newline content) k = Some line /\
        lineNumber m = Z.of_nat k + 1 /\
        marksFirstFolded toLowerCase query line m) /\
  (forall toLowerCase i filePath query options content (k : nat) line,
      useRegExp options = false -> wholeWord options = false ->
      caseSensitive options = false ->
      excluded RegExp_new RegExp_exec options filePath = Ok false ->
      notIncluded RegExp_new RegExp_exec options filePath = Ok false ->
      readFile i filePath = Ok content -> content <> "" ->
      nth_error (split newline content) k = Some line ->
      indexOf (toLowerCase line) (toLowerCase query) <> -1 ->
      exists batch,
        calls (snd (_searchInFile toLowerCase RegExp_new RegExp_exec
                                  i filePath query options emptySearch))
        = [(filePath, batch)] /\
        In (mkResult filePath (Z.of_nat k + 1) line
                     (indexOf (toLowerCase line) (toLowerCase query))
                     (indexOf (toLowerCase line) (toLowerCase query) + len query))
           batch) /\
  (forall i,
      readFile i "/a.txt" = Ok ("foo bar" ++ nl ++ "baz foo") ->
      calls (snd (_searchInFile toLowerCaseLatin1 RegExp_new RegExp_exec i
                    "/a.txt" "FOO"
                    (mkOptions None None None None false false false)
                    emptySearch))
      = [("/a.txt", [mkResult "/a.txt" 1 "foo bar" 0 3;
                     mkResult "/a.txt" 2 "baz foo" 4 7])]) /\
  calls (snd (textSearch toLowerCaseLatin1 RegExp_new RegExp_exec 0
                (mkInstance "" None false None
                            (Some [("/a.txt", "foo bar" ++ nl ++ "baz foo")]))
                "FOO" (mkOptions None None None None false false false)
                emptySearch))
  = [("/a.txt", [mkResult "/a.txt" 1 "foo bar" 0 3;
                 mkResult "/a.txt" 2 "baz foo" 4 7])] /\
  (forall i filePath,
      readFile i filePath = Ok "Hello from Bolt!" ->
      calls (snd (_searchInFile toLowerCaseLatin1 RegExp_new RegExp_exec i
                    filePath "HELLO"
                    (mkOptions None None None None false false false)
                    emptySearch))
      = [(filePath, [mkResult filePath 1 "Hello from Bolt!" 0 5])]) /\
  calls (snd (textSearch toLowerCaseLatin1 RegExp_new RegExp_exec 0
                (mkInstance "" None false None
                            (Some [("/hello.txt", "Hello from Bolt!")]))
                "HELLO" (mkOptions None None None None false false false)
                emptySearch))
  = [("/hello.txt", [mkResult "/hello.txt" 1 "Hello from Bolt!" 0 5])].
Proof.
  split; [|split; [|split; [|split; [|split]]]].
  - intros. now apply plain_search_sound.
  - intros. eapply plain_search_complete; eassumption.
  - intros i Hread.
    rewrite (searchInFile_flush toLowerCaseLatin1 RegExp RegExp_new RegExp_exec
               i "/a.txt" "FOO" (mkOptions None None None None false false false)
               ("foo bar" ++ nl ++ "baz foo")
               [mkResult "/a.txt" 1 "foo bar" 0 3; mkResult "/a.txt" 2 "baz foo" 4 7]
               emptySearch eq_refl eq_refl Hread);
      [reflexivity | discriminate | reflexivity].
  - reflexivity.
  - intros i filePath Hread.
    rewrite (searchInFile_flush toLowerCaseLatin1 RegExp RegExp_new RegExp_exec
               i filePath "HELLO" (mkOptions None None None None false false false)
               "Hello from Bolt!"
               [mkResult filePath 1 "Hello from Bolt!" 0 5]
               emptySearch eq_refl eq_refl Hread);
      [reflexivity | discriminate | reflexivity].
  - reflexivity.
Qed.
End Scenarios.

Section SearchExamples.
Import Js Csb.

Local Abbreviation walk :=
  (walkTextSearch toLowerCaseLatin1 PlainRegExp_new PlainRegExp_exec).
Local Abbreviation search :=
  (textSearch toLowerCaseLatin1 PlainRegExp_new PlainRegExp_exec).
Local Abbreviation searchInFile :=
  (_searchInFile toLowerCaseLatin1 PlainRegExp_new PlainRegExp_exec).

Lemma case_insensitive_plain_search_witness :
  calls (snd (searchInFile exampleInstance "/a.txt" "FOO"
                (mkOptions None None None None false false false) emptySearch))
  = [("/a.txt", [mkResult "/a.txt" 1 "foo bar" 0 3;
                 mkResult "/a.txt" 2 "baz foo" 4 7])] /\
  exists content (k : nat) (line : string),
    readFile exampleInstance "/a.txt" = Ok content /\
    nth_error (split newline content) k = Some line /\
    lineNumber (mkResult "/a.txt" 2 "baz foo" 4 7) = Z.of_nat k + 1 /\
    marksFirstFolded toLowerCaseLatin1 "FOO" line (mkResult "/a.txt" 2 "baz foo" 4 7).
Proof.
  destruct (case_insensitive_plain_search PlainRegExp PlainRegExp_new PlainRegExp_exec)
    as [Hsound [_ [HA _]]].
  split.
  - exact (HA exampleInstance eq_refl).
  - refine (proj2 (Hsound toLowerCaseLatin1 exampleInstance "/a.txt" "FOO"
                     (mkOptions None None None None false false false)
                     [mkResult "/a.txt" 1 "foo bar" 0 3;
                      mkResult "/a.txt" 2 "baz foo" 4 7]
                     (mkResult "/a.txt" 2 "baz foo" 4 7)
                     eq_refl eq_refl eq_refl _ _)).
    + vm_compute. left. reflexivity.
    + right. left. reflexivity.
Defined.

Lemma matchCharEnd_adds_query_length_witness :
  matchCharEnd (mkResult "/a.txt" 2 "baz foo" 4 7)
  = matchCharStart (mkResult "/a.txt" 2 "baz foo" 4 7) + len "FOO".
Proof.
  refine (matchCharEnd_adds_query_length toLowerCaseLatin1 PlainRegExp
            PlainRegExp_new PlainRegExp_exec 3 exampleInstance "FOO"
            (mkOptions None None None None false false false) "/a.txt"
            [mkResult "/a.txt" 1 "foo bar" 0 3; mkResult "/a.txt" 2 "baz foo" 4 7]
            (mkResult "/a.txt" 2 "baz foo" 4 7) _ _).
  - vm_compute. left. reflexivity.
  - right. left. reflexivity.
Defined.

Lemma walk_skips_excluded_witness :
  let options := mkOptions None None (Some "txt") None false false false in
  searchInFile exampleInstance "/a.txt" "foo" options emptySearch
  = (Ok tt, emptySearch) /\
  calls (snd (walk 3 exampleInstance "foo" options emptySearch)) = [].
Proof.
  intro options.
  destruct (walk_skips_excluded toLowerCaseLatin1 PlainRegExp PlainRegExp_new
              PlainRegExp_exec 3 exampleInstance "foo" options "/a.txt" "txt"
              (mkPlain "txt" false) 3 eq_refl)
    as [H _]; [discriminate | reflexivity | reflexivity |].
  split; [apply H | reflexivity].
Defined.

(** C6 (as stated) fails on the mock instance: its [textSearch] does not
    look at [excludePattern], so a file whose path matches the pattern
    still gets its batch. *)
Lemma mock_search_emits_excluded_file :
  let options := mkOptions None None (Some "src") None false false false in
  excluded PlainRegExp_new PlainRegExp_exec options "/src/App.tsx" = Ok true /\
  calls (snd (search 0 newMockInstance "hello" options emptySearch))
  = [("/src/App.tsx",
      [mkResult "/src/App.tsx" 6 "      <h1>Hello from Bolt.diy!</h1>" 10 15])].
Proof. intro options. split; vm_compute; reflexivity. Qed.

Lemma walk_does_not_read_maxResults_witness :
  let options := mkOptions None None None (Some 1) false false false in
  walk 3 exampleInstance "foo" (with_maxResults (Some 1000) options) emptySearch
  = walk 3 exampleInstance "foo" options emptySearch /\
  exists content,
    readFile exampleInstance "/a.txt" = Ok content /\
    (0 < List.length [mkResult "/a.txt" 1 "foo bar" 0 3;
                      mkResult "/a.txt" 2 "baz foo" 4 7]
     <= List.length (split newline content))%nat.
Proof.
  intro options.
  destruct (walk_does_not_read_maxResults toLowerCaseLatin1 PlainRegExp
              PlainRegExp_new PlainRegExp_exec 3 exampleInstance "foo" options)
    as [Hsame Hbound].
  split; [apply Hsame|].
  apply (Hbound "/a.txt"). vm_compute. left. reflexivity.
Defined.

(** So nothing in the walk itself would cap the matches: on an instance
    that had a file system behind it (the code builds none, see
    [constructed]), with [maxResults] set to 1, the walk over a sandbox
    whose one file has two matching lines would hand two matches to the
    callback. *)
Lemma maxResults_is_exceeded :
  let options := mkOptions None None None (Some 1) false false false in
  let run := walk 3 exampleInstance "foo" options emptySearch in
  fst run = Ok tt /\
  calls (snd run)
  = [("/a.txt", [mkResult "/a.txt" 1 "foo bar" 0 3;
                 mkResult "/a.txt" 2 "baz foo" 4 7])] /\
  emitted (snd run) = 2 /\
  ~ (emitted (snd run) <= 1).
Proof.
  intros options run. repeat split; try (vm_compute; reflexivity).
  vm_compute. intros H. now apply H.
Qed.
End SearchExamples.

(** ** The cap on the walk-based search *)

Section MaxResults.
Import Js Csb.
Variable toLowerCase : string -> string.
Variable RegExp : Type.
Variable RegExp_new : string -> string -> option RegExp.
Variable RegExp_exec : RegExp -> string -> option Z.

Local Abbreviation textSearch :=
  (Csb.textSearch toLowerCase RegExp_new RegExp_exec).
Local Abbreviation walkTextSearch :=
  (Csb.walkTextSearch toLowerCase RegExp_new RegExp_exec).



(** The instance the module's promise resolves to, when it is not the
    mock, is such an instance. *)
Lemma module_instance_constructed (env : ModuleEnv) (context : CodeSandboxContext)
      (i : CodeSandboxInstance) :
  hot_codesandbox env = None ->
  fst (codesandbox env context) = Ok i ->
  isMockInstance i = false ->
  constructed i.
Proof.
  intros Hhot. unfold codesandbox.
  destruct (SSR env); [discriminate|].
  destruct (VITE_CSB_API_KEY env) as [apiKey|]; [|discriminate].
  destruct (negb (truthy apiKey)); [discriminate|]. rewrite Hhot.
  pose proof (@constructed_initialize (newInstance apiKey) (sdk env) context
                (constructed_new apiKey)) as Hc.
  unfold try_catch, bind, gets, mockInitialize, ret.
  destruct (initialize (sdk env) (mkHeap (newInstance apiKey) context))
    as [[[]|e|] h1]; simpl in *.
  - intros H _. injection H as <-. exact Hc.
  - intros H Hmock. injection H as <-. discriminate Hmock.
  - discriminate.
Qed.

End MaxResults.


(** * Further properties of the code *)

(** ** The local provider: directories *)

Section LocalDirectories.
Import Js LocalFS.

Lemma has_set_same {V : Type} (k : string) (v : V) (m : JsMap.t V) :
  JsMap.has k (JsMap.set k v m) = true.
Proof. unfold JsMap.has. now rewrite get_set_same. Qed.

Lemma has_set_other {V : Type} (k q : string) (v : V) (m : JsMap.t V) :
  q <> k -> JsMap.has q (JsMap.set k v m) = JsMap.has q m.
Proof. intros H. unfold JsMap.has. now rewrite get_set_other. Qed.

Lemma has_set_mono {V : Type} (k q : string) (v : V) (m : JsMap.t V) :
  JsMap.has q m = true -> JsMap.has q (JsMap.set k v m) = true.
Proof.
  intros H. destruct (string_dec q k) as [->|Hne];
    [apply has_set_same | now rewrite has_set_other].
Qed.

Lemma mkdir_step_keeps (now : Z) (acc : string * JsMap.t FileNode) (part q : string)
      (v : FileNode) :
  JsMap.get q (snd acc) = Some v ->
  JsMap.get q (snd (mkdir_step now acc part)) = Some v.
Proof.
  intros H. unfold mkdir_step.
  destruct (JsMap.has (fst acc ++ "/" ++ part) (snd acc)) eqn:E; simpl; [exact H|].
  rewrite get_set_other; [exact H|].
  intros Heq. subst q. unfold JsMap.has in E. simpl in E, H.
  rewrite H in E. discriminate.
Qed.

Lemma mkdir_step_fst (now : Z) (acc : string * JsMap.t FileNode) (part : string) :
  mkdir_step now acc part
  = (fst acc ++ "/" ++ part, snd (mkdir_step now acc part)).
Proof. unfold mkdir_step. destruct (JsMap.has _ _); reflexivity. Qed.

Lemma mkdir_loop_keeps (now : Z) (parts : list string) (q : string) (v : FileNode) :
  forall acc,
    JsMap.get q (snd acc) = Some v ->
    JsMap.get q (snd (fold_left (mkdir_step now) parts acc)) = Some v.
Proof.
  induction parts as [|part rest IH]; intros acc H; simpl; [exact H|].
  apply IH. now apply mkdir_step_keeps.
Qed.

Lemma mkdir_loop_has (now : Z) (parts : list string) (q : string) :
  forall acc,
    JsMap.has q (snd acc) = true ->
    JsMap.has q (snd (fold_left (mkdir_step now) parts acc)) = true.
Proof.
  intros acc H. unfold JsMap.has in *.
  destruct (JsMap.get q (snd acc)) as [v|] eqn:G; [|discriminate].
  now rewrite (mkdir_loop_keeps now parts q v acc G).
Qed.

Lemma mkdir_step_has (now : Z) (acc : string * JsMap.t FileNode) (part : string) :
  JsMap.has (fst acc ++ "/" ++ part) (snd (mkdir_step now acc part)) = true.
Proof.
  unfold mkdir_step.
  destruct (JsMap.has (fst acc ++ "/" ++ part) (snd acc)) eqn:H; cbn [snd];
    [exact H | apply has_set_same].
Qed.

Lemma mkdir_step_noop (now : Z) (acc : string * JsMap.t FileNode) (part : string) :
  JsMap.has (fst acc ++ "/" ++ part) (snd acc) = true ->
  mkdir_step now acc part = (fst acc ++ "/" ++ part, snd acc).
Proof. intros H. unfold mkdir_step. now rewrite H. Qed.

Lemma mkdir_step_adds_only (now : Z) (acc : string * JsMap.t FileNode)
      (part q : string) (v : FileNode) :
  JsMap.get q (snd (mkdir_step now acc part)) = Some v ->
  JsMap.get q (snd acc) = Some v
  \/ (q = fst acc ++ "/" ++ part /\ v = mkFileNode q "" false now).
Proof.
  unfold mkdir_step.
  destruct (JsMap.has (fst acc ++ "/" ++ part) (snd acc)); cbn [snd];
    [now left|].
  destruct (string_dec q (fst acc ++ "/" ++ part)) as [->|Hne].
  - rewrite get_set_same. intros H. injection H as <-. now right.
  - rewrite get_set_other by exact Hne. now left.
Qed.

Lemma mkdir_loop_creates (now : Z) (parts : list string) (a : string) :
  forall cur m,
    In a (chainFrom cur parts) ->
    JsMap.has a (snd (fold_left (mkdir_step now) parts (cur, m))) = true.
Proof.
  induction parts as [|part rest IH]; intros cur m Hin; [destruct Hin|].
  cbn [fold_left]. rewrite (mkdir_step_fst now (cur, m) part). cbn [fst].
  destruct Hin as [<-|Hin].
  - apply mkdir_loop_has. cbn [snd]. exact (mkdir_step_has now (cur, m) part).
  - apply IH. exact Hin.
Qed.

Lemma mkdir_loop_noop (now : Z) (parts : list string) :
  forall cur m,
    (forall a, In a (chainFrom cur parts) -> JsMap.has a m = true) ->
    snd (fold_left (mkdir_step now) parts (cur, m)) = m.
Proof.
  induction parts as [|part rest IH]; intros cur m H; [reflexivity|].
  cbn [fold_left].
  rewrite (mkdir_step_noop now (cur, m) part) by (apply H; now left).
  cbn [fst snd]. apply IH. intros a Ha. apply H. now right.
Qed.

Lemma mkdir_loop_adds_only (now : Z) (parts : list string) (q : string) (v : FileNode) :
  forall cur m,
    JsMap.get q (snd (fold_left (mkdir_step now) parts (cur, m))) = Some v ->
    JsMap.get q m = Some v
    \/ (In q (chainFrom cur parts) /\ v = mkFileNode q "" false now).
Proof.
  induction parts as [|part rest IH]; intros cur m H; [now left|].
  cbn [fold_left] in H. rewrite (mkdir_step_fst now (cur, m) part) in H.
  cbn [fst] in H. apply IH in H. destruct H as [H|[H ->]].
  - apply mkdir_step_adds_only in H. destruct H as [H|[-> ->]].
    + now left.
    + right. split; [now left | reflexivity].
  - right. split; [now right | reflexivity].
Qed.

Lemma mkdir_recursive_effect (now : Z) (p : string) (fs : LocalFileSystem) :
  let fs' := snd (mkdir now p true fs) in
  fst (mkdir now p true fs) = Ok tt /\
  (forall q v, JsMap.get q (_files fs) = Some v -> JsMap.get q (_files fs') = Some v) /\
  (JsMap.has p (_files fs) = false ->
   forall a, In a (ancestorsOf p) -> JsMap.has a (_files fs') = true) /\
  (forall q v, JsMap.get q (_files fs') = Some v ->
               JsMap.get q (_files fs) = Some v
               \/ (In q (ancestorsOf p) /\ v = mkFileNode q "" false now)).
Proof.
  unfold mkdir, ancestorsOf. destruct (JsMap.has p (_files fs)) eqn:Hp; simpl.
  - repeat split; auto. discriminate.
  - repeat split.
    + intros q v H. now apply mkdir_loop_keeps.
    + intros _ a Ha. now apply mkdir_loop_creates.
    + intros q v H. now apply mkdir_loop_adds_only in H.
Qed.

(** X1. [mkdir(path, true)] never throws and never touches a node that
    is already there. When [path] itself is not in the store, it leaves a
    node at every path of the chain [/p1], [/p1/p2], ... built from the
    non-empty segments of [path], and whatever it adds is such a chain
    node with empty content. *)
Theorem mkdir_recursive_builds_chain (now : Z) (p : string) (fs : LocalFileSystem) :
  let fs' := snd (mkdir now p true fs) in
  fst (mkdir now p true fs) = Ok tt /\
  (forall q v, JsMap.get q (_files fs) = Some v -> JsMap.get q (_files fs') = Some v) /\
  (JsMap.has p (_files fs) = false ->
   forall a, In a (ancestorsOf p) -> JsMap.has a (_files fs') = true) /\
  (forall q v, JsMap.get q (_files fs') = Some v ->
               JsMap.get q (_files fs) = Some v
               \/ (In q (ancestorsOf p) /\ v = mkFileNode q "" false now)).
Proof. exact (mkdir_recursive_effect now p fs). Qed.

Lemma mkdir_recursive_builds_chain_witness :
  let fs' := snd (mkdir 0 "/src/lib" true (LocalFS.new 0)) in
  JsMap.get "/README.md" (_files fs')
  = Some (mkFileNode "/README.md" readmeMd false 0) /\
  JsMap.has "/src" (_files fs') = true /\
  JsMap.has "/src/lib" (_files fs') = true.
Proof.
  intro fs'.
  destruct (mkdir_recursive_builds_chain 0 "/src/lib" (LocalFS.new 0))
    as [_ [Hkeep [Hchain _]]].
  split; [apply Hkeep; reflexivity|].
  split; apply (Hchain eq_refl); vm_compute; auto.
Defined.

(** X2. [mkdir(path, true)] twice in a row: the second call returns
    without an error and leaves the store exactly as the first one left
    it, whatever [path] is. *)
Theorem mkdir_recursive_idempotent (now now' : Z) (p : string) (fs : LocalFileSystem) :
  mkdir now' p true (snd (mkdir now p true fs))
  = (Ok tt, snd (mkdir now p true fs)).
Proof.
  destruct (JsMap.has p (_files fs)) eqn:Hp.
  - assert (mkdir now p true fs = (Ok tt, fs)) as ->
      by (unfold mkdir; now rewrite Hp).
    cbn [snd]. unfold mkdir. now rewrite Hp.
  - assert (snd (mkdir now p true fs)
            = mkLocal (snd (fold_left (mkdir_step now)
                                      (filter truthy (split slash p))
                                      ("", _files fs)))) as ->
      by (unfold mkdir; now rewrite Hp).
    unfold mkdir. cbn [_files].
    match goal with |- (if ?c then _ else _) = _ => destruct c end;
      [reflexivity|].
    rewrite mkdir_loop_noop; [reflexivity|].
    intros a Ha. now apply mkdir_loop_creates.
Qed.
End LocalDirectories.

(** ** The local provider: files *)

Section LocalFiles.
Import Js LocalFS.

(** What [writeFile] leaves: the store after the optional
    [mkdir(parentDir, true)], with the node of [p] set. *)
Lemma writeFile_result (now : Z) (p c : string) (fs : LocalFileSystem) :
  exists m : JsMap.t FileNode,
    writeFile now p c fs
    = (Ok tt, mkLocal (JsMap.set p (mkFileNode p c false now) m)) /\
    (forall q v, JsMap.get q (_files fs) = Some v -> JsMap.get q m = Some v) /\
    (forall q v,
        JsMap.get q m = Some v ->
        JsMap.get q (_files fs) = Some v
        \/ (In q (ancestorsOf (substring p 0 (lastIndexOfChar slash p)))
            /\ v = mkFileNode q "" false now)).
Proof.
  unfold writeFile, bind, modify.
  set (parent := substring p 0 (lastIndexOfChar slash p)).
  destruct (truthy parent && negb (String.eqb parent p)).
  - destruct (mkdir_recursive_effect now parent fs) as [Hok [Hkeep [_ Hnew]]].
    destruct (mkdir now parent true fs) as [r fs1]. simpl in Hok, Hkeep, Hnew.
    subst r. exists (_files fs1). repeat split; auto.
  - unfold ret. exists (_files fs). repeat split; auto.
Qed.

(** X3. [writeFile(p, c)] leaves every other node of the store as it
    was; what it adds besides the node of [p] are empty nodes on the chain
    of [p]'s parent directory. *)
Theorem writeFile_touches_only_its_path (now : Z) (p c : string)
    (fs : LocalFileSystem) :
  let fs' := snd (writeFile now p c fs) in
  (forall q v, q <> p -> JsMap.get q (_files fs) = Some v ->
               JsMap.get q (_files fs') = Some v) /\
  (forall q v, q <> p -> JsMap.get q (_files fs') = Some v ->
               JsMap.get q (_files fs) = Some v
               \/ (In q (ancestorsOf (substring p 0 (lastIndexOfChar slash p)))
                   /\ v = mkFileNode q "" false now)).
Proof.
  destruct (writeFile_result now p c fs) as [m [-> [Hkeep Hnew]]]. simpl. split.
  - intros q v Hne H. rewrite get_set_other by exact Hne. now apply Hkeep.
  - intros q v Hne H. rewrite get_set_other in H by exact Hne. now apply Hnew.
Qed.

Lemma writeFile_touches_only_its_path_witness :
  let fs' := snd (writeFile 0 "/docs/guide/a.md" "text" (LocalFS.new 0)) in
  JsMap.get "/README.md" (_files fs')
  = Some (mkFileNode "/README.md" readmeMd false 0) /\
  (JsMap.get "/docs" (_files (LocalFS.new 0)) = Some (mkFileNode "/docs" "" false 0)
   \/ (In "/docs" (ancestorsOf "/docs/guide")
       /\ mkFileNode "/docs" "" false 0 = mkFileNode "/docs" "" false 0)).
Proof.
  intro fs'.
  destruct (writeFile_touches_only_its_path 0 "/docs/guide/a.md" "text" (LocalFS.new 0))
    as [Hkeep Hnew].
  split.
  - apply Hkeep; [discriminate | reflexivity].
  - apply (Hnew "/docs"); [discriminate | reflexivity].
Defined.

(** X4. After [writeFile(p, c)], [exists(p)] is true and [stat(p)] reports
    a file of size [c.length] when [c] is not empty, and a directory of
    size 0 when [c] is the empty string: an empty file cannot be told from
    a directory. *)
Theorem writeFile_then_stat (now : Z) (p c : string) (fs : LocalFileSystem) :
  let fs' := snd (writeFile now p c fs) in
  exists_ p fs' = (Ok true, fs') /\
  stat p fs' = (Ok (mkStat (negb (String.eqb c "")) (String.eqb c "") (len c)), fs').
Proof.
  destruct (writeFile_result now p c fs) as [m [-> _]]. simpl.
  unfold exists_, gets, stat, JsMap.has. simpl.
  rewrite get_set_same. split; reflexivity.
Qed.

(** X5. [deleteFile(p)] on a path of the store removes that node and no
    other: [exists(p)] turns false and every other path keeps its node, so
    the entries below a deleted directory stay behind. On a path that is
    not in the store it throws "File not found" and changes nothing. *)
Theorem deleteFile_removes_one_node (p : string) (fs : LocalFileSystem) :
  (JsMap.has p (_files fs) = true ->
   exists fs',
     deleteFile p fs = (Ok tt, fs') /\
     exists_ p fs' = (Ok false, fs') /\
     forall q, q <> p -> JsMap.get q (_files fs') = JsMap.get q (_files fs)) /\
  (JsMap.has p (_files fs) = false ->
   deleteFile p fs = (Throw ("File not found: " ++ p), fs)).
Proof.
  unfold deleteFile. split; intros Hp; rewrite Hp; simpl; [|reflexivity].
  eexists. split; [reflexivity|]. split.
  - unfold exists_, gets, JsMap.has. simpl. now rewrite get_delete_same.
  - intros q Hne. simpl. now apply get_delete_other.
Qed.

Lemma deleteFile_removes_one_node_witness :
  let fs := snd (writeFile 0 "/a/b.txt" "x" (mkLocal [])) in
  exists fs',
    deleteFile "/a" fs = (Ok tt, fs') /\
    JsMap.get "/a/b.txt" (_files fs') = Some (mkFileNode "/a/b.txt" "x" false 0) /\
    deleteFile "/a" fs' = (Throw "File not found: /a", fs').
Proof.
  intro fs.
  destruct (deleteFile_removes_one_node "/a" fs) as [Hpresent _].
  destruct (Hpresent eq_refl) as [fs' [Hdel [Hgone Hkeep]]].
  exists fs'. split; [exact Hdel|]. split.
  - rewrite Hkeep; [reflexivity | discriminate].
  - destruct (deleteFile_removes_one_node "/a" fs') as [_ Habsent].
    apply Habsent. unfold exists_, gets in Hgone. now injection Hgone.
Defined.

(** X6. [deleteDirectory] on a path that is not in the store throws
    "Directory not found" in both modes and changes nothing. Without
    [recursive], on a directory that [readdir] finds empty, it removes the
    node of [p] only: paths further down (with no node between them and
    [p]) are not looked at and stay. *)
Theorem deleteDirectory_other_outcomes (p : string) (fs : LocalFileSystem) :
  (JsMap.has p (_files fs) = false ->
   forall recursive,
     deleteDirectory p recursive fs = (Throw ("Directory not found: " ++ p), fs)) /\
  (JsMap.has p (_files fs) = true ->
   fst (readdir p fs) = Ok [] ->
   exists fs',
     deleteDirectory p false fs = (Ok tt, fs') /\
     exists_ p fs' = (Ok false, fs') /\
     forall q, q <> p -> JsMap.get q (_files fs') = JsMap.get q (_files fs)).
Proof.
  split.
  - intros Hp recursive. unfold deleteDirectory, bind, gets, throw.
    now rewrite Hp.
  - intros Hp Hempty. unfold readdir in Hempty. simpl in Hempty.
    injection Hempty as Hempty.
    unfold deleteDirectory, bind, gets, readdir, modify, ret, throw.
    rewrite Hp. simpl. rewrite Hempty. simpl.
    eexists. split; [reflexivity|]. split.
    + unfold exists_, gets, JsMap.has. simpl. now rewrite get_delete_same.
    + intros q Hne. simpl. now apply get_delete_other.
Qed.

Lemma deleteDirectory_other_outcomes_witness :
  let fs := mkLocal [("/a", mkFileNode "/a" "" false 0);
                     ("/a/b/c.txt", mkFileNode "/a/b/c.txt" "x" false 0)] in
  deleteDirectory "/missing" true fs = (Throw "Directory not found: /missing", fs) /\
  exists fs',
    deleteDirectory "/a" false fs = (Ok tt, fs') /\
    JsMap.get "/a/b/c.txt" (_files fs')
    = Some (mkFileNode "/a/b/c.txt" "x" false 0).
Proof.
  intro fs. split.
  - destruct (deleteDirectory_other_outcomes "/missing" fs) as [H _].
    exact (H eq_refl true).
  - destruct (deleteDirectory_other_outcomes "/a" fs) as [_ H].
    destruct (H eq_refl eq_refl) as [fs' [Hdel [_ Hkeep]]].
    exists fs'. split; [exact Hdel|].
    rewrite Hkeep; [reflexivity | discriminate].
Defined.

Lemma local_deleteDirectory_keeps_outside_witness :
  let fs := mkLocal [("/a", mkFileNode "/a" "" false 0);
                     ("/a/b", mkFileNode "/a/b" "x" false 0);
                     ("/ab", mkFileNode "/ab" "y" false 0)] in
  JsMap.get "/ab" (_files (snd (deleteDirectory "/a" true fs)))
  = Some (mkFileNode "/ab" "y" false 0) /\
  JsMap.get "/a/b" (_files (snd (deleteDirectory "/a" true fs))) = None.
Proof.
  intro fs. split; [|reflexivity].
  rewrite (local_deleteDirectory_keeps_outside "/a" "/ab" fs);
    [reflexivity | discriminate | reflexivity].
Defined.
End LocalFiles.

(** ** The local provider: listings *)

Section LocalListings.
Import Js LocalFS.

Lemma prefix_split (pre : string) :
  forall k, String.prefix pre k = true -> exists rest, k = pre ++ rest.
Proof.
  induction pre as [|a pre IH]; intros k H.
  - now exists k.
  - destruct k as [|b k]; simpl in H; [discriminate|].
    destruct (ascii_dec a b) as [->|]; [|discriminate].
    destruct (IH k H) as [rest ->]. now exists rest.
Qed.

Lemma append_cancel (pre a b : string) : pre ++ a = pre ++ b -> a = b.
Proof.
  induction pre as [|c pre IH]; simpl; [auto|].
  intros H. injection H as H. now apply IH.
Qed.

(** One turn of the loop of [readdir] either adds nothing or adds the
    name of [e] below the directory. *)
Lemma readdir_step_cases (p : string) (acc : list string) (e : string * FileNode) :
  (readdir_step p acc e = acc /\
   forall name, fst e = dirPrefix p ++ name ->
                includesChar slash name = false -> fst e = p)
  \/ exists name,
       fst e = dirPrefix p ++ name /\ includesChar slash name = false /\
       fst e <> p /\ readdir_step p acc e = (acc ++ [name])%list.
Proof.
  unfold readdir_step.
  destruct (startsWith (fst e) (dirPrefix p)) eqn:Hs; simpl.
  - destruct (prefix_split _ _ Hs) as [rest Hrest].
    destruct (String.eqb (fst e) p) eqn:He; simpl.
    + left. split; [reflexivity|]. intros. now apply String.eqb_eq.
    + assert (substringFrom (fst e) (len (dirPrefix p)) = rest) as ->
        by (rewrite Hrest; apply substringFrom_app).
      destruct (includesChar slash rest) eqn:Hinc; simpl.
      * left. split; [reflexivity|]. intros name Hname Hno.
        rewrite Hrest in Hname. apply append_cancel in Hname. congruence.
      * right. exists rest. repeat split; auto. now apply String.eqb_neq.
  - left. split; [reflexivity|]. intros name Hname _.
    rewrite Hname in Hs. unfold startsWith in Hs. rewrite prefix_app in Hs.
    discriminate.
Qed.

Lemma readdir_loop_in (p : string) (l : list (string * FileNode)) :
  forall acc name,
    In name (fold_left (readdir_step p) l acc) <->
    In name acc
    \/ exists node,
         In (dirPrefix p ++ name, node) l /\
         includesChar slash name = false /\ dirPrefix p ++ name <> p.
Proof.
  induction l as [|e l IH]; intros acc name; simpl.
  - split; [now left | intros [H|[node [[] _]]]; exact H].
  - rewrite IH. destruct (readdir_step_cases p acc e)
      as [[-> Hnot]|[rel [Hrel [Hno [Hne ->]]]]].
    + split.
      * intros [H|[node [H1 H2]]]; [now left|]. right. exists node. split; [now right | exact H2].
      * intros [H|[node [[H1|H1] [H2 H3]]]]; [now left | | right; exists node; auto].
        exfalso. subst e. simpl in Hnot. apply H3. now apply (Hnot name).
    + rewrite in_app_iff. simpl. split.
      * intros [[H|[<-|[]]]|[node [H1 H2]]].
        -- now left.
        -- right. exists (snd e). rewrite <- Hrel. split; [left; now destruct e|].
           split; [exact Hno | exact Hne].
        -- right. exists node. split; [now right | exact H2].
      * intros [H|[node [[H1|H1] [H2 H3]]]].
        -- left. now left.
        -- left. right. left. subst e. simpl in Hrel.
           now apply append_cancel in Hrel.
        -- right. exists node. auto.
Qed.

(** X7. [readdir(p)] never throws, and the names it returns are exactly
    the immediate children of [p] in the store: [name] is listed if and
    only if the store has a node at [p + '/' + name] ([ '/' + name] for the
    root) other than [p] itself, with no further slash in [name]. It does
    not ask that [p] itself be in the store. *)
Theorem readdir_lists_immediate_children (p : string) (fs : LocalFileSystem) :
  exists entries,
    readdir p fs = (Ok entries, fs) /\
    forall name,
      In name entries <->
      exists node,
        In (dirPrefix p ++ name, node) (_files fs) /\
        includesChar slash name = false /\ dirPrefix p ++ name <> p.
Proof.
  unfold readdir. eexists. split; [reflexivity|]. intros name.
  rewrite readdir_loop_in. simpl. split; [intros [[]|H]; exact H | now right].
Qed.

Lemma readdir_lists_immediate_children_witness :
  let fs := snd (writeFile 0 "/src/lib/a.ts" "x" (LocalFS.new 0)) in
  exists entries,
    readdir "/src" fs = (Ok entries, fs) /\ In "lib" entries.
Proof.
  intro fs.
  destruct (readdir_lists_immediate_children "/src" fs) as [entries [Hrun Hin]].
  exists entries. split; [exact Hrun|].
  apply Hin. exists (mkFileNode "/src/lib" "" false 0).
  split; [vm_compute; auto 10 | split; [reflexivity | discriminate]].
Defined.

(** *** Keys stay unique, so a listing has no repeated name *)

Lemma NoDup_keys_delete {V : Type} (k : string) (m : JsMap.t V) :
  NoDup (JsMap.keys m) -> NoDup (JsMap.keys (JsMap.delete k m)).
Proof.
  induction m as [|[k' v] m IH]; simpl; intros H; [constructor|].
  inversion H as [|? ? Hnotin Hnd]; subst.
  destruct (String.eqb k' k); simpl; [now apply IH|].
  constructor; [|now apply IH].
  intros Hin. apply Hnotin. unfold JsMap.keys, JsMap.delete in Hin.
  apply in_map_iff in Hin. destruct Hin as [[k2 v2] [Hk Hin]]. simpl in Hk. subst k2.
  apply filter_In in Hin. destruct Hin as [Hin _].
  apply in_map_iff. now exists (k', v2).
Qed.

Lemma NoDup_mkdir_loop (now : Z) (parts : list string) :
  forall acc,
    NoDup (JsMap.keys (snd acc)) ->
    NoDup (JsMap.keys (snd (fold_left (mkdir_step now) parts acc))).
Proof.
  induction parts as [|part rest IH]; intros acc H; simpl; [exact H|].
  apply IH. unfold mkdir_step.
  destruct (JsMap.has _ _); cbn [snd]; [exact H | now apply NoDup_keys_set].
Qed.

Lemma NoDup_sweep (prefix : string) (ks : list string) :
  forall m : JsMap.t FileNode,
    NoDup (JsMap.keys m) ->
    NoDup (JsMap.keys (fold_left (deleteDirectory_step prefix) ks m)).
Proof.
  induction ks as [|k ks IH]; intros m H; simpl; [exact H|].
  apply IH. unfold deleteDirectory_step.
  destruct (startsWith k prefix); [now apply NoDup_keys_delete | exact H].
Qed.

Lemma change_keeps_keys_unique (c : Change) (fs : LocalFileSystem) :
  NoDup (JsMap.keys (_files fs)) -> NoDup (JsMap.keys (_files (change fs c))).
Proof.
  intros H. destruct c as [now p content|now p r|p|p r]; simpl.
  - unfold writeFile, bind, modify.
    destruct (truthy _ && negb _).
    + assert (NoDup (JsMap.keys (_files (snd (mkdir now
                (substring p 0 (lastIndexOfChar slash p)) true fs))))) as H1.
      { unfold mkdir. destruct (JsMap.has _ _); simpl; [exact H|].
        now apply NoDup_mkdir_loop. }
      pose proof (mkdir_recursive_returns now
                    (substring p 0 (lastIndexOfChar slash p)) fs) as [fs1 E].
      rewrite E in H1 |- *. simpl in *. now apply NoDup_keys_set.
    + simpl. now apply NoDup_keys_set.
  - unfold mkdir. destruct (JsMap.has _ _); destruct r; simpl; auto.
    + now apply NoDup_mkdir_loop.
    + now apply NoDup_keys_set.
  - unfold deleteFile. destruct (negb _); simpl; [exact H|].
    now apply NoDup_keys_delete.
  - unfold deleteDirectory, bind, gets, readdir, modify, ret, throw.
    destruct (JsMap.has p (_files fs)); simpl; [|exact H].
    destruct r; simpl.
    + apply NoDup_sweep. now apply NoDup_keys_delete.
    + destruct (0 <? _); simpl; [exact H | now apply NoDup_keys_delete].
Qed.

Lemma readdir_loop_NoDup (p : string) (l : list (string * FileNode)) :
  forall acc,
    NoDup acc -> NoDup (map fst l) ->
    (forall name, In name acc -> ~ In (dirPrefix p ++ name) (map fst l)) ->
    NoDup (fold_left (readdir_step p) l acc).
Proof.
  induction l as [|e l IH]; intros acc Hacc Hl Hsep; simpl; [exact Hacc|].
  inversion Hl as [|? ? Hnotin Hnd]; subst.
  destruct (readdir_step_cases p acc e)
    as [[-> _]|[rel [Hrel [_ [_ ->]]]]].
  - apply IH; auto. intros name Hn Hin. apply (Hsep name Hn). now right.
  - apply IH; auto.
    + apply NoDup_app; [exact Hacc | repeat constructor; simpl; tauto|].
      intros name Hn [E|[]]. subst name. apply (Hsep rel Hn). left. exact Hrel.
    + intros name Hn Hin. apply in_app_iff in Hn. destruct Hn as [Hn|[E|[]]].
      * apply (Hsep name Hn). now right.
      * subst name. apply Hnotin. now rewrite Hrel.
Qed.

(** X8. In a store obtained from a new [LocalFileSystem] by any sequence
    of [writeFile], [mkdir], [deleteFile] and [deleteDirectory] calls
    (whether they return or throw), [readdir] never lists a name twice. *)
Theorem readdir_has_no_repeated_name (now : Z) (changes : list Change) (p : string) :
  exists entries,
    fst (readdir p (fold_left change changes (LocalFS.new now))) = Ok entries /\
    NoDup entries.
Proof.
  eexists. split; [reflexivity|].
  apply readdir_loop_NoDup; [constructor| |intros name []].
  change (NoDup (JsMap.keys (_files (fold_left change changes (LocalFS.new now))))).
  assert (forall fs, NoDup (JsMap.keys (_files fs)) ->
                     NoDup (JsMap.keys (_files (fold_left change changes fs)))) as H.
  { induction changes as [|c cs IH]; intros fs Hfs; simpl; [exact Hfs|].
    apply IH. now apply change_keeps_keys_unique. }
  apply H. simpl. repeat constructor; simpl; intuition discriminate.
Qed.
End LocalListings.

(** ** The manager before it is ready, and on the local provider *)

Section ManagerLocal.
Import Js Manager.
Variable W : Type.
Variable sandbox : SandboxMethods W.
Variable wcfs : WebContainerFs W.
Variable now : Z.

Local Abbreviation Heap := (Manager.Heap W).

(** The heap with the local store replaced. *)
Local Abbreviation withStore h fs :=
  (Manager.mkHeap (set_fileSystem (LocalAdapter fs) (this h)) (world h)).

Lemma heap_eta (h : Heap) (fs : LocalFS.LocalFileSystem) :
  _fileSystem (this h) = LocalAdapter fs -> withStore h fs = h.
Proof.
  destruct h as [[prov ready err a csb wc] w]. simpl. intros ->. reflexivity.
Qed.

Lemma readFile_local (h : Heap) fs p :
  _isReady (this h) = true -> _fileSystem (this h) = LocalAdapter fs ->
  readFile sandbox wcfs p h = (fst (LocalFS.readFile p fs), h).
Proof.
  intros Hr Hf. unfold readFile, whenReady, fs_readFile, bind, gets, onLocal.
  rewrite Hr. simpl. rewrite Hf. unfold LocalFS.readFile.
  destruct (JsMap.get p (LocalFS._files fs)); simpl; now rewrite heap_eta.
Qed.

Lemma readdir_local (h : Heap) fs p :
  _isReady (this h) = true -> _fileSystem (this h) = LocalAdapter fs ->
  readdir sandbox wcfs p h = (fst (LocalFS.readdir p fs), h).
Proof.
  intros Hr Hf. unfold readdir, whenReady, fs_readdir, bind, gets, onLocal.
  rewrite Hr. simpl. rewrite Hf. simpl. now rewrite heap_eta.
Qed.

Lemma stat_local (h : Heap) fs p :
  _isReady (this h) = true -> _fileSystem (this h) = LocalAdapter fs ->
  stat sandbox wcfs p h = (fst (LocalFS.stat p fs), h).
Proof.
  intros Hr Hf. unfold stat, whenReady, fs_stat, bind, gets, onLocal.
  rewrite Hr. simpl. rewrite Hf. unfold LocalFS.stat.
  destruct (JsMap.get p (LocalFS._files fs)); simpl; now rewrite heap_eta.
Qed.

Lemma writeFile_local (h : Heap) fs p c :
  _isReady (this h) = true -> _fileSystem (this h) = LocalAdapter fs ->
  writeFile sandbox wcfs now p c h
  = (Ok tt, withStore h (snd (LocalFS.writeFile now p c fs))).
Proof.
  intros Hr Hf. unfold writeFile, whenReady, fs_writeFile, bind, gets, onLocal.
  rewrite Hr. simpl. rewrite Hf.
  destruct (writeFile_result now p c fs) as [m [-> _]]. reflexivity.
Qed.

(** X10. While [isReady] is false, each of the eight file operations and
    both uploads rejects with "File manager not ready" and leaves the
    manager and the providers as they were; [healthCheck] resolves to
    false, and [getFileTree] to the empty list, without throwing. *)
Theorem not_ready_rejects_everything (h : Heap) :
  _isReady (this h) = false ->
  (forall p, readFile sandbox wcfs p h = (Throw "File manager not ready", h)) /\
  (forall p c, writeFile sandbox wcfs now p c h = (Throw "File manager not ready", h)) /\
  (forall p, readdir sandbox wcfs p h = (Throw "File manager not ready", h)) /\
  (forall p r, mkdir sandbox wcfs now p r h = (Throw "File manager not ready", h)) /\
  (forall p, deleteFile sandbox wcfs p h = (Throw "File manager not ready", h)) /\
  (forall p r, deleteDirectory sandbox wcfs p r h
               = (Throw "File manager not ready", h)) /\
  (forall p, exists_ sandbox wcfs p h = (Throw "File manager not ready", h)) /\
  (forall p, stat sandbox wcfs p h = (Throw "File manager not ready", h)) /\
  (forall files, uploadFiles sandbox wcfs now files h
                 = (Throw "File manager not ready", h)) /\
  (forall folder, uploadFolder sandbox wcfs now folder h
                  = (Throw "File manager not ready", h)) /\
  healthCheck sandbox wcfs h = (Ok false, h) /\
  (forall fuel root, getFileTree sandbox wcfs now (Datatypes.S fuel) root h = (Ok [], h)).
Proof.
  intros Hr.
  repeat split; intros;
    unfold readFile, writeFile, readdir, mkdir, deleteFile, deleteDirectory,
      exists_, stat, uploadFiles, uploadFolder, healthCheck, getFileTree,
      whenReady, try_catch, bind, gets, throw, ret; simpl;
    unfold inWalk, readdir, whenReady, try_catch, bind, gets, throw, ret;
    simpl; rewrite ?Hr; reflexivity.
Qed.

(** X11. [_initialize] never writes the [error] field: the failures of the
    probing chain are all caught before the outer handler that would
    record one, so the manager's [error] is what it was (undefined on a new
    manager) whatever fails or hangs. *)
Theorem initialize_never_records_error
    (codesandboxPromise : completion Csb.CodeSandboxInstance)
    (webcontainerPromise : completion unit) (h : Heap) :
  _error (this (snd (_initialize now codesandboxPromise webcontainerPromise h)))
  = _error (this h).
Proof.
  unfold _initialize, try_catch, bind, await, update, modify, ret, throw.
  destruct codesandboxPromise as [instance|e|]; simpl; [| |reflexivity].
  - destruct (Csb.isMockInstance instance); simpl; [reflexivity|].
    destruct (Csb.healthCheck instance); simpl; [reflexivity|].
    destruct webcontainerPromise as [[]|e|]; reflexivity.
  - destruct webcontainerPromise as [[]|e'|]; reflexivity.
Qed.

(** *** Uploads *)

Lemma forOf_app {S A} (xs ys : list A) (body : A -> M S unit) (s : S) :
  forOf (xs ++ ys) body s = bind (forOf xs body) (fun _ => forOf ys body) s.
Proof.
  revert s. induction xs as [|x xs IH]; intros s; simpl.
  - reflexivity.
  - unfold bind in *. destruct (body x s) as [[[]|e|] s1];
      [apply IH | reflexivity | reflexivity].
Qed.

(** The loop shared by [uploadFiles] and [uploadFolder]: read the text,
    write it at the file's path. *)
Local Abbreviation uploadLoop pathOf files :=
  (forOf files (fun file : File =>
     content <- await (text file) ;;
     writeFile sandbox wcfs now (pathOf file) content)).

Lemma uploadLoop_local (pathOf : File -> string) (files : list File) :
  forall (h : Heap) fs,
    _isReady (this h) = true -> _fileSystem (this h) = LocalAdapter fs ->
    (forall f, In f files -> exists c, text f = Ok c) ->
    exists fs',
      uploadLoop pathOf files h = (Ok tt, withStore h fs') /\
      (forall pre f post c,
          files = (pre ++ f :: post)%list -> text f = Ok c ->
          (forall g, In g post -> pathOf g <> pathOf f) ->
          fst (LocalFS.readFile (pathOf f) fs') = Ok c) /\
      (forall q v,
          JsMap.get q (LocalFS._files fs) = Some v ->
          (forall f, In f files -> pathOf f <> q) ->
          JsMap.get q (LocalFS._files fs') = Some v).
Proof.
  induction files as [|f files IH]; intros h fs Hr Hf Htext.
  - exists fs. simpl. unfold ret. rewrite heap_eta by exact Hf.
    split; [reflexivity|]. split; [|auto].
    intros pre f post c E. destruct pre; discriminate.
  - destruct (Htext f (or_introl eq_refl)) as [c Hc].
    simpl. unfold bind at 1. unfold bind at 1. unfold await. rewrite Hc.
    rewrite (writeFile_local h fs (pathOf f) c Hr Hf).
    set (fs1 := snd (LocalFS.writeFile now (pathOf f) c fs)).
    destruct (IH (withStore h fs1) fs1) as [fs' [Hrun [Hlast Hkeep]]];
      [exact Hr | reflexivity | intros g Hg; apply Htext; now right|].
    exists fs'. split; [exact Hrun|]. split.
    + intros pre f0 post c0 E Hc0 Hlater.
      destruct pre as [|f1 pre]; simpl in E; injection E as E1 E2.
      * subst f0 post. rewrite Hc in Hc0. injection Hc0 as <-.
        unfold LocalFS.readFile.
        assert (JsMap.get (pathOf f) (LocalFS._files fs1)
                = Some (LocalFS.mkFileNode (pathOf f) c false now)) as G.
        { unfold fs1. destruct (writeFile_result now (pathOf f) c fs) as [m [-> _]].
          simpl. apply get_set_same. }
        rewrite (Hkeep _ _ G); [reflexivity|].
        intros g Hg. now apply Hlater.
      * subst f1 files. now apply (Hlast pre f0 post c0).
    + intros q v G Hnone.
      apply Hkeep; [|intros g Hg; apply Hnone; now right].
      unfold fs1. destruct (writeFile_result now (pathOf f) c fs) as [m [-> [Hm _]]].
      simpl. rewrite get_set_other; [now apply Hm|].
      intros ->. now apply (Hnone f (or_introl eq_refl)).
Qed.

(** X12. On a READY manager over the local provider, when every
    [file.text()] resolves, [uploadFiles] returns and each file can be read
    back at ['/' + file.name] with its text, provided no later file of the
    batch has the same name (the later one overwrites); nodes at other
    paths keep their content. *)
Theorem uploadFiles_local_readback (files : list File) (h : Heap)
    (fs : LocalFS.LocalFileSystem) :
  _isReady (this h) = true -> _fileSystem (this h) = LocalAdapter fs ->
  (forall f, In f files -> exists c, text f = Ok c) ->
  exists h',
    uploadFiles sandbox wcfs now files h = (Ok tt, h') /\
    selection (this h') = selection (this h) /\
    (forall pre f post c,
        files = (pre ++ f :: post)%list -> text f = Ok c ->
        (forall g, In g post -> name g <> name f) ->
        readFile sandbox wcfs ("/" ++ name f) h' = (Ok c, h')) /\
    (forall q c, fst (readFile sandbox wcfs q h) = Ok c ->
                 (forall f, In f files -> "/" ++ name f <> q) ->
                 readFile sandbox wcfs q h' = (Ok c, h')).
Proof.
  intros Hr Hf Htext.
  destruct (uploadLoop_local (fun f => "/" ++ name f) files h fs Hr Hf Htext)
    as [fs' [Hrun [Hlast Hkeep]]].
  exists (withStore h fs'). unfold uploadFiles, bind, gets. rewrite Hr. simpl.
  split; [exact Hrun|]. split.
  { unfold selection. simpl. now rewrite Hf. }
  split.
  - intros pre f post c E Hc Hlater.
    rewrite (readFile_local (withStore h fs') fs' _ Hr eq_refl).
    f_equal. apply (Hlast pre f post c E Hc).
    intros g Hg Heq. apply (Hlater g Hg). now injection Heq.
  - intros q c Hread Hnone.
    rewrite (readFile_local h fs q Hr Hf) in Hread. simpl in Hread.
    rewrite (readFile_local (withStore h fs') fs' _ Hr eq_refl).
    unfold LocalFS.readFile in *.
    destruct (JsMap.get q (LocalFS._files fs)) as [v|] eqn:G; [|discriminate].
    simpl in Hread. injection Hread as <-.
    now rewrite (Hkeep q v G Hnone).
Qed.

(** X13. The same for [uploadFolder], which writes each file at
    ['/' + file.webkitRelativePath], or at ['/' + file.name] when the
    relative path is empty. *)
Theorem uploadFolder_local_readback (folder : list File) (h : Heap)
    (fs : LocalFS.LocalFileSystem) :
  let pathOf (f : File) :=
    "/" ++ (if truthy (webkitRelativePath f) then webkitRelativePath f else name f) in
  _isReady (this h) = true -> _fileSystem (this h) = LocalAdapter fs ->
  (forall f, In f folder -> exists c, text f = Ok c) ->
  exists h',
    uploadFolder sandbox wcfs now folder h = (Ok tt, h') /\
    selection (this h') = selection (this h) /\
    (forall pre f post c,
        folder = (pre ++ f :: post)%list -> text f = Ok c ->
        (forall g, In g post -> pathOf g <> pathOf f) ->
        readFile sandbox wcfs (pathOf f) h' = (Ok c, h')).
Proof.
  intros pathOf Hr Hf Htext.
  destruct (uploadLoop_local pathOf folder h fs Hr Hf Htext)
    as [fs' [Hrun [Hlast _]]].
  exists (withStore h fs'). unfold uploadFolder, bind, gets. rewrite Hr. simpl.
  split.
  { rewrite <- Hrun. apply forOf_ext. intros f s. unfold pathOf.
    destruct (truthy (webkitRelativePath f)); reflexivity. }
  split.
  { unfold selection. simpl. now rewrite Hf. }
  intros pre f post c E Hc Hlater.
  rewrite (readFile_local (withStore h fs') fs' _ Hr eq_refl).
  f_equal. exact (Hlast pre f post c E Hc Hlater).
Qed.

(** X14. An upload is not undone when it fails: if the files before [f]
    were uploaded and [f.text()] rejects, [uploadFiles] rejects with that
    error, what was written before [f] stays written and the files after
    [f] are never read. *)
Theorem uploadFiles_stops_at_first_failure (pre post : list File) (f : File)
    (e : string) (h h1 : Heap) :
  uploadFiles sandbox wcfs now pre h = (Ok tt, h1) ->
  text f = Throw e ->
  uploadFiles sandbox wcfs now (pre ++ f :: post) h = (Throw e, h1).
Proof.
  unfold uploadFiles, bind at 1 3, gets. simpl.
  destruct (negb (_isReady (this h))); [discriminate|].
  intros Hpre Hf. rewrite forOf_app. unfold bind at 1. rewrite Hpre.
  simpl. unfold bind at 1. unfold bind at 1. unfold await. now rewrite Hf.
Qed.
(** *** The file tree *)

Lemma preserves_bind_with {S A B} (Inv : S -> Prop) (Q : A -> Prop)
      (c : M S A) (k : A -> M S B) :
  (forall s, Inv s -> Inv (snd (c s)) /\ forall a, fst (c s) = Ok a -> Q a) ->
  (forall a, Q a -> preserves Inv (k a)) ->
  preserves Inv (bind c k).
Proof.
  intros Hc Hk s H. unfold bind. destruct (Hc s H) as [H1 H2].
  destruct (c s) as [[a|e|] s1]; simpl in *; try exact H1.
  apply Hk; [now apply H2 | exact H1].
Qed.

Lemma inWalk_read {A} (c : M Heap A) (h : Heap) (st : TreeWalk W) :
  heap st = h -> snd (c h) = h -> inWalk c st = (fst (c h), st).
Proof.
  intros Hh Hc. unfold inWalk. rewrite Hh.
  destruct (c h) as [r h']. simpl in *. subst h'. destruct st. simpl in *.
  now subst.
Qed.

(** What [getFileTree] may list over the local store [fs]: a node of the
    store with content, under its stored content. *)
Local Abbreviation listed fs :=
  (fun n : LocalFS.FileNode =>
     exists v, JsMap.get (LocalFS.path n) (LocalFS._files fs) = Some v /\
               LocalFS.content n = LocalFS.content v /\
               LocalFS.content n <> "" /\
               LocalFS.isBinary n = false /\ LocalFS.lastModified n = now).

Lemma traverse_local (h : Heap) (fs : LocalFS.LocalFileSystem) (fuel : nat) :
  _isReady (this h) = true -> _fileSystem (this h) = LocalAdapter fs ->
  forall path,
    preserves (fun st : TreeWalk W => heap st = h /\ Forall (listed fs) (files st))
              (traverse sandbox wcfs now fuel path).
Proof.
  intros Hr Hf. induction fuel as [|fuel IH]; intros path; simpl.
  - apply preserves_await.
  - apply preserves_try_catch; [|intros e; apply preserves_ret].
    apply preserves_bind.
    { intros st [Hh HP].
      rewrite (inWalk_read _ h st Hh) by (now rewrite (readdir_local h fs path Hr Hf)).
      now split. }
    intros entries. apply preserves_forOf. intros entry _.
    apply preserves_try_catch; [|intros e; apply preserves_ret].
    match goal with
    | |- context [collapseSlashes ?x] => set (fullPath := collapseSlashes x)
    end.
    apply (preserves_bind_with _
             (fun st : LocalFS.Stat =>
                LocalFS.isFile st = true ->
                exists v, JsMap.get fullPath (LocalFS._files fs) = Some v /\
                          LocalFS.content v <> "")).
    { intros st [Hh HP].
      rewrite (inWalk_read _ h st Hh) by (now rewrite (stat_local h fs fullPath Hr Hf)).
      split; [now split|].
      intros a Ha. rewrite (stat_local h fs fullPath Hr Hf) in Ha. simpl in Ha.
      unfold LocalFS.stat in Ha.
      destruct (JsMap.get fullPath (LocalFS._files fs)) as [v|]; [|discriminate].
      simpl in Ha. injection Ha as <-. simpl. intros Hfile.
      exists v. split; [reflexivity|].
      intros E. rewrite E in Hfile. discriminate. }
    intros st Hst. destruct (LocalFS.isFile st) eqn:Hfile.
    + destruct (Hst eq_refl) as [v [Hv Hne]].
      apply (preserves_bind_with _ (fun content => content = LocalFS.content v)).
      { intros s [Hh HP].
        rewrite (inWalk_read _ h s Hh) by (now rewrite (readFile_local h fs fullPath Hr Hf)).
        split; [now split|].
        intros a Ha. rewrite (readFile_local h fs fullPath Hr Hf) in Ha. simpl in Ha.
        unfold LocalFS.readFile in Ha. rewrite Hv in Ha. simpl in Ha.
        now injection Ha. }
      intros content ->. unfold pushFile. apply preserves_modify.
      intros s [Hh HP]. simpl. split; [exact Hh|].
      apply Forall_app. split; [exact HP|]. constructor; [|constructor].
      exists v. simpl. auto.
    + destruct (LocalFS.isDirectory st); [apply IH | apply preserves_ret].
Qed.

(** X15. On a READY manager over the local provider, [getFileTree] never
    throws and changes nothing; every node it returns is a node of the
    store with non-empty content, returned under its stored content (an
    empty file is taken for a directory and never listed). *)
Theorem getFileTree_local_lists_stored_files (fuel : nat) (root : string)
    (h : Heap) (fs : LocalFS.LocalFileSystem) :
  _isReady (this h) = true -> _fileSystem (this h) = LocalAdapter fs ->
  snd (getFileTree sandbox wcfs now fuel root h) = h /\
  (forall e, fst (getFileTree sandbox wcfs now fuel root h) <> Throw e) /\
  (forall nodes,
      fst (getFileTree sandbox wcfs now fuel root h) = Ok nodes ->
      forall n, In n nodes ->
        exists v, JsMap.get (LocalFS.path n) (LocalFS._files fs) = Some v /\
                  LocalFS.content n = LocalFS.content v /\
                  LocalFS.content n <> "" /\
                  LocalFS.isBinary n = false /\ LocalFS.lastModified n = now).
Proof.
  intros Hr Hf.
  pose proof (traverse_local h fs fuel Hr Hf root (mkTreeWalk h [])
                (conj eq_refl (Forall_nil _))) as [Hh HP].
  assert (forall e, fst (traverse sandbox wcfs now fuel root (mkTreeWalk h [])) <> Throw e)
    as Hnothrow.
  { destruct fuel as [|fuel]; simpl; [discriminate|]. intros e.
    unfold try_catch.
    destruct ((entries <- inWalk (readdir sandbox wcfs root) ;; _) _)
      as [[[]|e'|] s1]; simpl; discriminate. }
  unfold getFileTree.
  destruct (traverse sandbox wcfs now fuel root (mkTreeWalk h [])) as [r st].
  simpl in *. split; [exact Hh|]. split.
  - intros e. specialize (Hnothrow e). destruct r; congruence.
  - intros nodes Hnodes n Hn. destruct r; try discriminate.
    injection Hnodes as <-. rewrite Forall_forall in HP. exact (HP n Hn).
Qed.
End ManagerLocal.

Section ManagerLocalExamples.
Import Manager.

Local Abbreviation localHeap :=
  (Manager.mkHeap
     (mkManager local true None (LocalAdapter (LocalFS.new 0)) None false) tt).

Lemma not_ready_rejects_everything_witness :
  let h := Manager.mkHeap (Manager.new 0) tt in
  readFile offlineSandbox offlineWebContainerFs "/README.md" h
  = (Throw "File manager not ready", h) /\
  healthCheck offlineSandbox offlineWebContainerFs h = (Ok false, h).
Proof.
  intro h.
  destruct (not_ready_rejects_everything unit offlineSandbox offlineWebContainerFs 0
              h eq_refl) as [H1 [_ [_ [_ [_ [_ [_ [_ [_ [_ [H2 _]]]]]]]]]]].
  split; [apply H1 | exact H2].
Defined.

Lemma uploadFiles_local_readback_witness :
  exists h',
    uploadFiles offlineSandbox offlineWebContainerFs 0
                [mkFile "a.txt" "" (Ok "one"); mkFile "a.txt" "" (Ok "two")]
                localHeap = (Ok tt, h') /\
    readFile offlineSandbox offlineWebContainerFs "/a.txt" h' = (Ok "two", h').
Proof.
  destruct (uploadFiles_local_readback unit offlineSandbox offlineWebContainerFs 0
              [mkFile "a.txt" "" (Ok "one"); mkFile "a.txt" "" (Ok "two")]
              localHeap (LocalFS.new 0) eq_refl eq_refl)
    as [h' [Hrun [_ [Hlast _]]]].
  - intros f [<-|[<-|[]]]; eexists; reflexivity.
  - exists h'. split; [exact Hrun|].
    apply (Hlast [mkFile "a.txt" "" (Ok "one")] (mkFile "a.txt" "" (Ok "two")) []);
      [reflexivity | reflexivity | intros g []].
Defined.

Lemma uploadFolder_local_readback_witness :
  exists h',
    uploadFolder offlineSandbox offlineWebContainerFs 0
                 [mkFile "a.ts" "proj/src/a.ts" (Ok "let a")] localHeap
    = (Ok tt, h') /\
    readFile offlineSandbox offlineWebContainerFs "/proj/src/a.ts" h'
    = (Ok "let a", h').
Proof.
  destruct (uploadFolder_local_readback unit offlineSandbox offlineWebContainerFs 0
              [mkFile "a.ts" "proj/src/a.ts" (Ok "let a")]
              localHeap (LocalFS.new 0) eq_refl eq_refl)
    as [h' [Hrun [_ Hlast]]].
  - intros f [<-|[]]; eexists; reflexivity.
  - exists h'. split; [exact Hrun|].
    apply (Hlast [] (mkFile "a.ts" "proj/src/a.ts" (Ok "let a")) []);
      [reflexivity | reflexivity | intros g []].
Defined.

Lemma uploadFiles_stops_at_first_failure_witness :
  let h1 := snd (uploadFiles offlineSandbox offlineWebContainerFs 0
                             [mkFile "a.txt" "" (Ok "one")] localHeap) in
  uploadFiles offlineSandbox offlineWebContainerFs 0
              [mkFile "a.txt" "" (Ok "one");
               mkFile "b.txt" "" (Throw "NotReadableError");
               mkFile "c.txt" "" (Ok "three")] localHeap
  = (Throw "NotReadableError", h1) /\
  fst (readFile offlineSandbox offlineWebContainerFs "/a.txt" h1) = Ok "one" /\
  fst (readFile offlineSandbox offlineWebContainerFs "/c.txt" h1)
  = Throw "File not found: /c.txt".
Proof.
  intro h1. split; [|split; reflexivity].
  exact (uploadFiles_stops_at_first_failure unit offlineSandbox offlineWebContainerFs 0
           [mkFile "a.txt" "" (Ok "one")] [mkFile "c.txt" "" (Ok "three")]
           (mkFile "b.txt" "" (Throw "NotReadableError")) "NotReadableError"
           localHeap h1 eq_refl eq_refl).
Defined.

Lemma getFileTree_local_lists_stored_files_witness :
  snd (getFileTree offlineSandbox offlineWebContainerFs 0 5 "/" localHeap) = localHeap /\
  fst (getFileTree offlineSandbox offlineWebContainerFs 0 5 "/" localHeap)
  = Ok [LocalFS.mkFileNode "/package.json" LocalFS.packageJson false 0;
        LocalFS.mkFileNode "/README.md" LocalFS.readmeMd false 0].
Proof.
  split; [|reflexivity].
  exact (proj1 (getFileTree_local_lists_stored_files unit offlineSandbox
                  offlineWebContainerFs 0 5 "/" localHeap (LocalFS.new 0)
                  eq_refl eq_refl)).
Defined.

Lemma remote_never_selected_witness :
  let env := Csb.mkModuleEnv false (Some "csb_key") None
               (Csb.mkSdk (Ok (Csb.mkSandbox "33s7n6" (Ok tt))) 120) in
  exists h',
    _initialize 0 (fst (Csb.codesandbox env (Csb.mkContext false None None)))
                (Ok tt) (Manager.mkHeap (Manager.new 0) tt) = (Ok tt, h') /\
    _provider (this h') = webcontainer /\
    _provider (this h') <> codesandbox.
Proof.
  intro env. eexists. split; [reflexivity|]. split; [reflexivity|].
  exact (remote_never_selected unit 0 env (Csb.mkContext false None None) (Ok tt)
           (Manager.mkHeap (Manager.new 0) tt) _ eq_refl eq_refl).
Defined.
End ManagerLocalExamples.

(** ** The [codesandbox] module: initialization *)

Section CsbInitialization.
Import Js Csb.

(** The message [initialize] keeps for a failure [raw]. *)
Local Abbreviation kept raw :=
  (if includes raw "DataView"
      || includes raw "Offset is outside the bounds"
      || includes raw "RangeError"
   then "CodeSandbox SDK connection error - using local fallback"
   else raw%string).

(** X16. [initialize] on an instance that is not initialized ends in one
    of three ways. It returns: then the sandbox was created in time and
    connected, [_initialized] and the context's [loaded] are true, the
    context holds the sandbox id and no error. It throws: then the message
    is "CodeSandbox initialization failed: " followed by the message kept
    for the failure, which is also stored in [_error] and in the context,
    and [_initialized] and [loaded] are false. Or it waits for ever, with
    [_initialized] false. On an initialized instance it returns at once and
    changes nothing. *)
Theorem initialize_outcomes (sdk : Sdk) (h : Heap) :
  (_initialized (this h) = true -> initialize sdk h = (Ok tt, h)) /\
  (_initialized (this h) = false ->
   match initialize sdk h with
   | (Ok _, h1) =>
       exists sandbox,
         raceWithTimeout sdk = Ok sandbox /\ connect sandbox = Ok tt /\
         _initialized (this h1) = true /\
         _sandboxId (this h1) = sandbox_id sandbox /\
         codesandboxContext h1 = mkContext true (Some (sandbox_id sandbox)) None
   | (Throw message, h1) =>
       exists raw,
         (raceWithTimeout sdk = Throw raw
          \/ exists sandbox, raceWithTimeout sdk = Ok sandbox
                             /\ connect sandbox = Throw raw) /\
         message = "CodeSandbox initialization failed: " ++ kept raw /\
         _error (this h1) = Some (kept raw) /\
         error (codesandboxContext h1) = Some (kept raw) /\
         loaded (codesandboxContext h1) = false /\
         _initialized (this h1) = false
   | (Pending, h1) => _initialized (this h1) = false
   end).
Proof.
  split; intros Hi; unfold initialize, bind, gets; rewrite Hi; [reflexivity|].
  unfold try_catch, bind, await, modify, throw, ret.
  destruct (raceWithTimeout sdk) as [sandbox|raw|] eqn:Hrace; simpl.
  - destruct (connect sandbox) as [[]|raw|] eqn:Hconnect; simpl.
    + exists sandbox. repeat split; auto.
    + exists raw. split; [right; now exists sandbox|]. repeat split; auto.
    + exact Hi.
  - exists raw. split; [now left|]. repeat split; auto.
  - exact Hi.
Qed.

Lemma initialize_outcomes_witness :
  let sdk := mkSdk (Throw "RangeError: Offset is outside the bounds of the DataView") 40 in
  let h := mkHeap (newInstance "csb_key") (mkContext false None None) in
  exists h1,
    initialize sdk h
    = (Throw "CodeSandbox initialization failed: CodeSandbox SDK connection error - using local fallback", h1) /\
    _initialized (this h1) = false.
Proof.
  intros sdk h.
  pose proof (proj2 (initialize_outcomes sdk h) eq_refl) as H.
  destruct (initialize sdk h) as [[[]|message|] h1] eqn:E;
    vm_compute in E; try discriminate.
  destruct H as [raw [_ [_ [_ [_ [_ Hinit]]]]]].
  exists h1. split; [|exact Hinit].
  injection E as <- <-. reflexivity.
Defined.

(** An instance the module creates fails its health check: the real one
    has no file system behind it, the mock is never marked initialized. *)
Lemma created_instance_unhealthy (env : ModuleEnv) (context : CodeSandboxContext)
      (instance : CodeSandboxInstance) :
  hot_codesandbox env = None ->
  fst (codesandbox env context) = Ok instance ->
  healthCheck instance = false /\
  (isMockInstance instance = true \/ notInitialized instance = true).
Proof.
  intros Hhot. unfold codesandbox.
  destruct (SSR env); [discriminate|].
  destruct (VITE_CSB_API_KEY env) as [apiKey|]; [|discriminate].
  destruct (negb (truthy apiKey)); [discriminate|]. rewrite Hhot.
  unfold initialize, try_catch, bind, gets, await, modify, throw, ret,
    mockInitialize.
  simpl.
  destruct (raceWithTimeout (sdk env)) as [sandbox|e|]; simpl.
  - destruct (connect sandbox) as [[]|e|]; simpl; intros H;
      try discriminate; injection H as <-; auto.
  - intros H. injection H as <-. auto.
  - discriminate.
Qed.

(** X17. How the exported promise [codesandbox] settles. During
    server-side rendering it never does. In the browser without an API key
    (absent or empty) it rejects with "CodeSandbox API key not found". With
    a key, and no promise kept from a hot reload, it never rejects: a
    failed initialization is replaced by the mock instance; and whatever
    instance it resolves to fails [healthCheck]. *)
Theorem codesandbox_promise_outcomes (env : ModuleEnv) (context : CodeSandboxContext) :
  (SSR env = true -> fst (codesandbox env context) = Pending) /\
  (SSR env = false ->
   (VITE_CSB_API_KEY env = None \/ VITE_CSB_API_KEY env = Some "") ->
   fst (codesandbox env context) = Throw "CodeSandbox API key not found") /\
  (SSR env = false -> hot_codesandbox env = None ->
   forall apiKey,
     VITE_CSB_API_KEY env = Some apiKey -> apiKey <> "" ->
     (forall e, fst (codesandbox env context) <> Throw e) /\
     (forall e, fst (initialize (sdk env) (mkHeap (newInstance apiKey) context))
                = Throw e ->
                fst (codesandbox env context) = Ok newMockInstance) /\
     (forall instance, fst (codesandbox env context) = Ok instance ->
                       healthCheck instance = false)).
Proof.
  split; [|split].
  - intros H. unfold codesandbox. now rewrite H.
  - intros H [Hk|Hk]; unfold codesandbox; rewrite H, Hk; reflexivity.
  - intros Hssr Hhot apiKey Hkey Hne. split; [|split].
    + intros e. unfold codesandbox. rewrite Hssr, Hkey, Hhot.
      destruct apiKey; [congruence|]. simpl negb. cbv iota.
      unfold try_catch, bind, gets, ret, mockInitialize.
      destruct (initialize (sdk env) _) as [[[]|e'|] h1]; simpl; discriminate.
    + intros e He. unfold codesandbox. rewrite Hssr, Hkey, Hhot.
      destruct apiKey; [congruence|]. simpl negb. cbv iota.
      unfold try_catch, bind, gets, ret, mockInitialize.
      destruct (initialize (sdk env) _) as [[[]|e'|] h1]; simpl in *;
        try discriminate. reflexivity.
    + intros instance H.
      exact (proj1 (created_instance_unhealthy env context instance Hhot H)).
Qed.

Lemma codesandbox_promise_outcomes_witness :
  let env := mkModuleEnv false (Some "csb_key") None
               (mkSdk (Ok (mkSandbox "33s7n6" (Throw "connect ECONNREFUSED"))) 120) in
  fst (codesandbox env (mkContext false None None)) = Ok newMockInstance /\
  healthCheck newMockInstance = false.
Proof.
  intro env.
  destruct (codesandbox_promise_outcomes env (mkContext false None None))
    as [_ [_ H]].
  destruct (H eq_refl eq_refl "csb_key" eq_refl) as [_ [Hmock Hhealth]];
    [discriminate|].
  assert (fst (codesandbox env (mkContext false None None)) = Ok newMockInstance) as E.
  { apply (Hmock "CodeSandbox initialization failed: connect ECONNREFUSED").
    reflexivity. }
  split; [exact E | exact (Hhealth _ E)].
Defined.
End CsbInitialization.

(** ** The walk-based search: filters, errors and order *)

Section SearchWalk.
Import Js Csb.
Variable toLowerCase : string -> string.
Variable RegExp : Type.
Variable RegExp_new : string -> string -> option RegExp.
Variable RegExp_exec : RegExp -> string -> option Z.

Local Abbreviation lineMatchIndex := (Csb.lineMatchIndex toLowerCase RegExp_new RegExp_exec).
Local Abbreviation scanLines := (Csb.scanLines toLowerCase RegExp_new RegExp_exec).
Local Abbreviation excluded := (Csb.excluded RegExp_new RegExp_exec).
Local Abbreviation notIncluded := (Csb.notIncluded RegExp_new RegExp_exec).
Local Abbreviation _searchInFile := (Csb._searchInFile toLowerCase RegExp_new RegExp_exec).
Local Abbreviation _searchInFolder := (Csb._searchInFolder toLowerCase RegExp_new RegExp_exec).
Local Abbreviation walkTextSearch := (Csb.walkTextSearch toLowerCase RegExp_new RegExp_exec).
Local Abbreviation flushed := (Csb.flushed toLowerCase RegExp_new RegExp_exec).

Lemma searchInFile_skips i filePath query options st :
  excluded options filePath <> Ok false \/ notIncluded options filePath <> Ok false ->
  _searchInFile i filePath query options st = (Ok tt, st).
Proof.
  intros H.
  destruct (searchInFile_cases toLowerCase RegExp RegExp_new RegExp_exec
              i filePath query options st)
    as [E|[content [fileMatches [H1 [H2 _]]]]]; [exact E|].
  destruct H; congruence.
Qed.

(** X18. A file is left out of the walk-based search, silently, when a
    non-empty [includePattern] does not match its path, and also when a
    non-empty [excludePattern] or [includePattern] is not a valid regular
    expression: [_searchInFile] returns without a callback and without an
    error, and no batch of the walk is keyed by that path. An empty
    pattern string filters nothing: it is read as no pattern. *)
Theorem walk_filters_by_path (fuel : nat) (i : CodeSandboxInstance)
    (query : string) (options : CodeSandboxSearchOptions) (filePath : string) :
  (forall pattern,
      includePattern options = Some pattern -> pattern <> "" ->
      (RegExp_new pattern "" = None
       \/ exists regex, RegExp_new pattern "" = Some regex
                        /\ RegExp_exec regex filePath = None) ->
      (forall st, _searchInFile i filePath query options st = (Ok tt, st)) /\
      forall batch,
        ~ In (filePath, batch)
             (calls (snd (walkTextSearch fuel i query options emptySearch)))) /\
  (forall pattern,
      excludePattern options = Some pattern -> pattern <> "" ->
      RegExp_new pattern "" = None ->
      (forall st, _searchInFile i filePath query options st = (Ok tt, st)) /\
      forall batch,
        ~ In (filePath, batch)
             (calls (snd (walkTextSearch fuel i query options emptySearch)))) /\
  (excluded (mkOptions (folders options) (includePattern options) (Some "")
                       (maxResults options) (useRegExp options)
                       (caseSensitive options) (wholeWord options)) filePath
   = Ok false /\
   notIncluded (mkOptions (folders options) (Some "") (excludePattern options)
                          (maxResults options) (useRegExp options)
                          (caseSensitive options) (wholeWord options)) filePath
   = Ok false).
Proof.
  split; [|split; [|split; reflexivity]].
  - intros pattern Hpat Hne Hno.
    assert (notIncluded options filePath <> Ok false) as Hskip.
    { unfold Csb.notIncluded, patternTest. rewrite Hpat.
      destruct pattern; [congruence|]. simpl truthy. cbv iota.
      destruct Hno as [->|[regex [-> ->]]]; discriminate. }
    split.
    + intros st. apply searchInFile_skips. now right.
    + intros batch Hin.
      apply (walk_calls_flushed toLowerCase RegExp RegExp_new RegExp_exec) in Hin.
      destruct Hin as [content [_ [H2 _]]]. simpl in H2. congruence.
  - intros pattern Hpat Hne Hno.
    assert (excluded options filePath <> Ok false) as Hskip.
    { unfold Csb.excluded, patternTest. rewrite Hpat.
      destruct pattern; [congruence|]. simpl truthy. cbv iota.
      rewrite Hno. discriminate. }
    split.
    + intros st. apply searchInFile_skips. now left.
    + intros batch Hin.
      apply (walk_calls_flushed toLowerCase RegExp RegExp_new RegExp_exec) in Hin.
      destruct Hin as [content [H1 _]]. simpl in H1. congruence.
Qed.

(** *** A query that is not a valid pattern *)

Lemma scanLines_invalid_regex filePath query options (lines : list string) :
  useRegExp options = true ->
  RegExp_new (if caseSensitive options then query else toLowerCase query)
             (regexFlags options) = None ->
  forall lineIndex acc,
    scanLines filePath query options lineIndex lines acc = Ok acc.
Proof.
  intros Hmode Hbad. induction lines as [|line rest IH]; intros lineIndex acc;
    simpl; [reflexivity|].
  unfold Csb.lineMatchIndex. rewrite Hmode, Hbad. simpl. apply IH.
Qed.

Lemma scanLines_invalid_word filePath query options line (rest : list string) :
  useRegExp options = false -> wholeWord options = true ->
  RegExp_new ("\b" ++ (if caseSensitive options then query else toLowerCase query)
                   ++ "\b") (regexFlags options) = None ->
  forall lineIndex acc,
  exists e, scanLines filePath query options lineIndex (line :: rest) acc = Throw e.
Proof.
  intros H1 H2 Hbad lineIndex acc. simpl.
  unfold Csb.lineMatchIndex. rewrite H1, H2, Hbad. eexists. reflexivity.
Qed.

(** X19. A query that the engine does not accept as a pattern never makes
    a search fail: in regular-expression mode every line is passed over,
    in whole-word mode the scan of the file is given up; either way
    [_searchInFile] returns normally, hands nothing to the callback and
    leaves [results] alone, for every file. *)
Theorem invalid_query_pattern_finds_nothing (i : CodeSandboxInstance)
    (filePath query : string) (options : CodeSandboxSearchOptions)
    (st : SearchState) :
  let searchQuery := if caseSensitive options then query else toLowerCase query in
  (useRegExp options = true /\ RegExp_new searchQuery (regexFlags options) = None)
  \/ (useRegExp options = false /\ wholeWord options = true /\
      RegExp_new ("\b" ++ searchQuery ++ "\b") (regexFlags options) = None) ->
  _searchInFile i filePath query options st = (Ok tt, st).
Proof.
  intros searchQuery Hbad.
  destruct (searchInFile_cases toLowerCase RegExp RegExp_new RegExp_exec
              i filePath query options st)
    as [E|[content [fileMatches [_ [_ [_ [_ [Hscan [Hne _]]]]]]]]]; [exact E|].
  exfalso. destruct Hbad as [[Hmode Hnew]|[Hmode [Hword Hnew]]].
  - rewrite (scanLines_invalid_regex filePath query options _ Hmode Hnew) in Hscan.
    injection Hscan as <-. now apply Hne.
  - pose proof (split_not_nil newline content) as Hlines.
    destruct (split newline content) as [|line rest]; [now apply Hlines|].
    destruct (scanLines_invalid_word filePath query options line rest
                Hmode Hword Hnew 0 []) as [e He].
    congruence.
Qed.

(** *** The search never throws once the instance is initialized *)

Lemma never_throws_forOf {S A} (xs : list A) (body : A -> M S unit) :
  (forall x s e, fst (body x s) <> Throw e) ->
  forall s e, fst (forOf xs body s) <> Throw e.
Proof.
  intros Hbody. induction xs as [|x xs IH]; intros s e; simpl; [discriminate|].
  unfold bind. pose proof (Hbody x s) as Hx.
  destruct (body x s) as [[[]|e'|] s1]; simpl in *;
    [apply IH | now elim (Hx e') | discriminate].
Qed.

Lemma never_throws_try_catch_ret {S} (c : M S unit) (s : S) (e : string) :
  fst (try_catch c (fun _ => ret tt) s) <> Throw e.
Proof.
  unfold try_catch, ret. destruct (c s) as [[[]|e'|] s1]; simpl; discriminate.
Qed.

(** X20. [textSearch] on a real instance throws exactly when the instance
    is not initialized or has no file system, with "CodeSandbox not
    initialized" and before any callback; otherwise no failure of a read, a
    listing, a [stat] or a pattern surfaces: the search returns (or, in
    the model, is still walking when the fuel runs out), never throws. *)
Theorem walk_never_throws_once_initialized (fuel : nat) (i : CodeSandboxInstance)
    (query : string) (options : CodeSandboxSearchOptions) (st : SearchState) :
  (notInitialized i = true ->
   walkTextSearch fuel i query options st
   = (Throw "CodeSandbox not initialized", st)) /\
  (notInitialized i = false ->
   forall e, fst (walkTextSearch fuel i query options st) <> Throw e).
Proof.
  unfold Csb.walkTextSearch. split; intros Hi; rewrite Hi; [reflexivity|].
  intros e. unfold bind, modify.
  apply never_throws_forOf. intros folder s e'.
  destruct fuel as [|fuel]; simpl; [discriminate|].
  apply never_throws_try_catch_ret.
Qed.

(** *** Matches come in line order *)

Lemma scanLines_sorted filePath query options (lines : list string) :
  forall lineIndex acc out,
    scanLines filePath query options lineIndex lines acc = Ok out ->
    exists fresh,
      out = (acc ++ fresh)%list /\
      StronglySorted (fun a b => lineNumber a < lineNumber b) fresh /\
      Forall (fun m => lineIndex < lineNumber m
                       <= lineIndex + Z.of_nat (List.length lines)) fresh.
Proof.
  induction lines as [|line rest IH]; intros lineIndex acc out; simpl.
  - intros H. injection H as <-. exists []. rewrite app_nil_r.
    repeat split; constructor.
  - destruct (lineMatchIndex query options line) as [idx|e|]; try discriminate.
    intros H. apply IH in H. destruct H as [fresh [-> [Hsorted Hbounds]]].
    assert (Forall (fun m => lineIndex < lineNumber m
                             <= lineIndex + Z.of_nat (Datatypes.S (List.length rest)))
                   fresh) as Hb.
    { eapply Forall_impl; [|exact Hbounds]. simpl. intros m Hm. lia. }
    destruct (negb (idx =? -1)).
    + exists (mkResult filePath (lineIndex + 1) line idx (idx + len query) :: fresh).
      rewrite <- app_assoc. split; [reflexivity|]. split.
      * constructor; [exact Hsorted|].
        eapply Forall_impl; [|exact Hbounds]. simpl. intros m Hm. lia.
      * constructor; [simpl; lia | exact Hb].
    + exists fresh. repeat split; assumption.
Qed.

(** X21. In every batch the walk-based search hands to the callback, the
    matches are in strictly increasing line order (so no line is reported
    twice), and each line number lies between 1 and the number of lines of
    the file's content. *)
Theorem walk_batches_in_line_order (fuel : nat) (i : CodeSandboxInstance)
    (query : string) (options : CodeSandboxSearchOptions)
    (filePath : string) (batch : list CodeSandboxSearchResult) :
  In (filePath, batch)
     (calls (snd (walkTextSearch fuel i query options emptySearch))) ->
  exists content,
    readFile i filePath = Ok content /\
    StronglySorted (fun a b => lineNumber a < lineNumber b) batch /\
    Forall (fun m => 1 <= lineNumber m
                     <= Z.of_nat (List.length (split newline content))) batch.
Proof.
  intros Hin.
  apply (walk_calls_flushed toLowerCase RegExp RegExp_new RegExp_exec) in Hin.
  destruct Hin as [content [_ [_ [Hread [_ [Hscan _]]]]]]. simpl in *.
  apply scanLines_sorted in Hscan. destruct Hscan as [fresh [E [Hs Hb]]].
  simpl in E. subst fresh.
  exists content. split; [exact Hread|]. split; [exact Hs|].
  eapply Forall_impl; [|exact Hb]. simpl. intros m Hm. lia.
Qed.
End SearchWalk.

Section SearchWalkExamples.
Import Js Csb.

Local Abbreviation walk :=
  (walkTextSearch toLowerCaseLatin1 PlainRegExp_new PlainRegExp_exec).
Local Abbreviation searchInFile :=
  (_searchInFile toLowerCaseLatin1 PlainRegExp_new PlainRegExp_exec).

Lemma walk_filters_by_path_witness :
  let options := mkOptions None (Some "src") None None false false false in
  searchInFile exampleInstance "/a.txt" "foo" options emptySearch
  = (Ok tt, emptySearch).
Proof.
  intro options.
  destruct (walk_filters_by_path toLowerCaseLatin1 PlainRegExp PlainRegExp_new
              PlainRegExp_exec 3 exampleInstance "foo" options "/a.txt")
    as [Hinclude _].
  destruct (Hinclude "src" eq_refl) as [H _]; [discriminate| |apply H].
  right. exists (mkPlain "src" false). split; reflexivity.
Defined.

Lemma invalid_query_pattern_finds_nothing_witness :
  let options := mkOptions None None None None true false false in
  searchInFile exampleInstance "/a.txt" "(" options emptySearch
  = (Ok tt, emptySearch).
Proof.
  intro options.
  apply (invalid_query_pattern_finds_nothing toLowerCaseLatin1 PlainRegExp
           PlainRegExp_new PlainRegExp_exec exampleInstance "/a.txt" "(" options
           emptySearch).
  left. split; reflexivity.
Defined.

Lemma walk_never_throws_once_initialized_witness :
  walk 3 (newInstance "csb_key") "foo"
       (mkOptions None None None None false false false) emptySearch
  = (Throw "CodeSandbox not initialized", emptySearch) /\
  fst (walk 3 exampleInstance "foo"
            (mkOptions None None None None false false false) emptySearch)
  <> Throw "CodeSandbox not initialized".
Proof.
  split.
  - apply (walk_never_throws_once_initialized toLowerCaseLatin1 PlainRegExp
             PlainRegExp_new PlainRegExp_exec 3 (newInstance "csb_key") "foo").
    reflexivity.
  - apply (walk_never_throws_once_initialized toLowerCaseLatin1 PlainRegExp
             PlainRegExp_new PlainRegExp_exec 3 exampleInstance "foo").
    reflexivity.
Defined.

Lemma walk_batches_in_line_order_witness :
  exists content,
    readFile exampleInstance "/a.txt" = Ok content /\
    StronglySorted (fun a b => lineNumber a < lineNumber b)
                   [mkResult "/a.txt" 1 "foo bar" 0 3;
                    mkResult "/a.txt" 2 "baz foo" 4 7].
Proof.
  destruct (walk_batches_in_line_order toLowerCaseLatin1 PlainRegExp PlainRegExp_new
              PlainRegExp_exec 3 exampleInstance "foo"
              (mkOptions None None None None false false false) "/a.txt"
              [mkResult "/a.txt" 1 "foo bar" 0 3; mkResult "/a.txt" 2 "baz foo" 4 7])
    as [content [Hread [Hsorted _]]].
  - vm_compute. left. reflexivity.
  - exists content. split; assumption.
Defined.
End SearchWalkExamples.

(** ** Grouping results by file *)

Section GroupingFacts.
Variable A : Type.
Variable key : A -> string.

Local Abbreviation step := (Grouping.step key).
Local Abbreviation sameKey k := (fun x : A => String.eqb (key x) k).

Lemma step_get_same (acc : JsMap.t (list A)) (x : A) :
  JsMap.get (key x) (step acc x)
  = Some ((match JsMap.get (key x) acc with Some xs => xs | None => [] end)
            ++ [x])%list.
Proof.
  unfold Grouping.step, JsMap.has.
  destruct (JsMap.get (key x) acc) as [xs|] eqn:G; simpl.
  - rewrite G. apply get_set_same.
  - rewrite get_set_same. apply get_set_same.
Qed.

Lemma step_get_other (acc : JsMap.t (list A)) (x : A) (k : string) :
  key x <> k -> JsMap.get k (step acc x) = JsMap.get k acc.
Proof.
  intros Hne. assert (k <> key x) as Hne' by congruence.
  unfold Grouping.step, JsMap.has.
  destruct (JsMap.get (key x) acc) as [xs|] eqn:G; simpl.
  - rewrite G. now apply get_set_other.
  - rewrite get_set_same. rewrite !get_set_other by exact Hne'. reflexivity.
Qed.

Lemma step_keeps_keys_unique (acc : JsMap.t (list A)) (x : A) :
  NoDup (JsMap.keys acc) -> NoDup (JsMap.keys (step acc x)).
Proof.
  intros H. unfold Grouping.step.
  set (acc1 := if negb (JsMap.has (key x) acc)
               then JsMap.set (key x) [] acc else acc).
  assert (NoDup (JsMap.keys acc1)) as H1.
  { unfold acc1. destruct (negb _); [now apply NoDup_keys_set | exact H]. }
  destruct (JsMap.get (key x) acc1); [now apply NoDup_keys_set | exact H1].
Qed.

Lemma group_loop_get (xs : list A) (k : string) :
  forall acc,
    JsMap.get k (fold_left step xs acc)
    = match JsMap.get k acc, filter (sameKey k) xs with
      | Some l, more => Some (l ++ more)%list
      | None, [] => None
      | None, more => Some more
      end.
Proof.
  induction xs as [|x xs IH]; intros acc; simpl.
  - destruct (JsMap.get k acc); [now rewrite app_nil_r | reflexivity].
  - rewrite IH. destruct (String.eqb (key x) k) eqn:E.
    + apply String.eqb_eq in E. subst k. rewrite step_get_same.
      destruct (JsMap.get (key x) acc); [now rewrite <- app_assoc | reflexivity].
    + apply String.eqb_neq in E. now rewrite step_get_other.
Qed.

Lemma group_loop_keys_unique (xs : list A) :
  forall acc, NoDup (JsMap.keys acc) -> NoDup (JsMap.keys (fold_left step xs acc)).
Proof.
  induction xs as [|x xs IH]; intros acc H; simpl; [exact H|].
  apply IH. now apply step_keeps_keys_unique.
Qed.

Lemma in_get_unique {V : Type} (k : string) (v : V) (m : JsMap.t V) :
  NoDup (JsMap.keys m) -> In (k, v) m -> JsMap.get k m = Some v.
Proof.
  induction m as [|[k' v'] m IH]; simpl; intros Hnd Hin; [destruct Hin|].
  inversion Hnd as [|? ? Hnotin Hnd']; subst.
  destruct Hin as [E|Hin].
  - injection E as -> ->. now rewrite String.eqb_refl.
  - destruct (String.eqb k' k) eqn:E; [|now apply IH].
    apply String.eqb_eq in E. subst k'. exfalso. apply Hnotin.
    apply in_map_iff. now exists (k, v).
Qed.

(** On a key that is no inherited property the object behaves as the
    map. *)
Lemma add_plain (acc : JsMap.t (list A)) (x : A) :
  Grouping.isInherited (key x) = false ->
  Grouping.add key acc x = Ok (step acc x).
Proof.
  intros Hk. unfold Grouping.add, Grouping.step, Grouping.lookup, JsMap.has.
  rewrite Hk. destruct (JsMap.get (key x) acc) as [xs|] eqn:G; simpl.
  - now rewrite G.
  - now rewrite get_set_same.
Qed.

(** An inherited property that the object does not own stops the loop. *)
Lemma add_inherited (acc : JsMap.t (list A)) (x : A) :
  Grouping.isInherited (key x) = true ->
  JsMap.get (key x) acc = None ->
  Grouping.add key acc x = Throw Grouping.notAFunction.
Proof.
  intros Hk G. unfold Grouping.add, Grouping.lookup. rewrite G, Hk. simpl. now rewrite G.
Qed.

Lemma reduce_stopped (xs : list A) (e : string) :
  fold_left (fun acc x => match acc with Ok a => Grouping.add key a x | stop => stop end)
            xs (Throw e) = Throw e.
Proof. induction xs as [|x xs IH]; simpl; [reflexivity | exact IH]. Qed.

Lemma reduce_loop (xs : list A) :
  forall acc,
    (forall k, Grouping.isInherited k = true -> JsMap.get k acc = None) ->
    fold_left (fun acc x => match acc with Ok a => Grouping.add key a x | stop => stop end)
              xs (Ok acc)
    = if existsb (fun x => Grouping.isInherited (key x)) xs
      then Throw Grouping.notAFunction
      else Ok (fold_left step xs acc).
Proof.
  induction xs as [|x xs IH]; intros acc Hacc; simpl; [reflexivity|].
  destruct (Grouping.isInherited (key x)) eqn:Hk; simpl.
  - rewrite (add_inherited acc x Hk (Hacc _ Hk)). apply reduce_stopped.
  - rewrite (add_plain acc x Hk). apply IH. intros k Hin.
    rewrite step_get_other; [now apply Hacc|]. intros E. congruence.
Qed.

Lemma reduce_spec (xs : list A) :
  Grouping.reduce key xs
  = if existsb (fun x => Grouping.isInherited (key x)) xs
    then Throw Grouping.notAFunction
    else Ok (fold_left step xs []).
Proof. unfold Grouping.reduce. now apply reduce_loop. Qed.
End GroupingFacts.

Section PanelFacts.
Import Js SearchUI.

(** X22. [groupResultsByFile] throws a [TypeError] as soon as a result's
    path is the name of a property that a plain object inherits (a file
    named [constructor] or [toString], say). Otherwise it puts every
    result in the group of its path and nowhere else: the group of a path
    is the list of all results with that path, in their order, a path with
    no result has no group, and no path gets two groups. *)
Theorem groupResultsByFile_groups_by_path (results : list DisplayMatch) :
  if existsb (fun r => Grouping.isInherited (path r)) results
  then groupResultsByFile results = Throw Grouping.notAFunction
  else exists groups,
      groupResultsByFile results = Ok groups /\
      (forall p,
          JsMap.get p groups
          = match filter (fun r => String.eqb (path r) p) results with
            | [] => None
            | group => Some group
            end) /\
      NoDup (JsMap.keys groups).
Proof.
  unfold groupResultsByFile. rewrite reduce_spec.
  destruct (existsb _ results); [reflexivity|].
  eexists. split; [reflexivity|]. split.
  - intros p. now rewrite group_loop_get.
  - apply group_loop_keys_unique. constructor.
Qed.

Example groupResultsByFile_constructor :
  groupResultsByFile [mkDisplayMatch "constructor" 1 "foo" 0 3]
  = Throw Grouping.notAFunction.
Proof. reflexivity. Qed.
End PanelFacts.

(** ** The mock's search: one batch for each path *)

Section MockBatches.
Import Js Csb.
Variable toLowerCase : string -> string.

Lemma get_in {V : Type} (k : string) (v : V) (m : JsMap.t V) :
  JsMap.get k m = Some v -> In (k, v) m.
Proof.
  induction m as [|[k' v'] m IH]; simpl; [discriminate|].
  destruct (String.eqb k' k) eqn:E.
  - apply String.eqb_eq in E. subst k'. intros H. injection H as <-. now left.
  - intros H. right. now apply IH.
Qed.

Lemma forOf_progressCallback (groups : list (string * list CodeSandboxSearchResult)) :
  forall st,
    forOf groups (fun e => progressCallback (fst e) (snd e)) st
    = (Ok tt, mkSearchState (results st) (calls st ++ groups)).
Proof.
  induction groups as [|[p batch] groups IH]; intros st; simpl.
  - unfold ret. rewrite app_nil_r. now destruct st.
  - unfold bind, progressCallback, modify. simpl. rewrite IH. simpl.
    now rewrite <- app_assoc.
Qed.

Lemma slash_not_inherited (p : string) :
  startsWith p "/" = true -> Grouping.isInherited p = false.
Proof.
  intros Hp. unfold Grouping.isInherited.
  destruct (existsb (String.eqb p) Grouping.inherited) eqn:E; [|reflexivity].
  apply existsb_exists in E. destruct E as [n [Hin E]].
  apply String.eqb_eq in E. subst n. simpl in Hin.
  repeat (destruct Hin as [<-|Hin]; [discriminate Hp|]). destruct Hin.
Qed.

Lemma mock_found_paths (files : JsMap.t string) (query : string)
    (options : CodeSandboxSearchOptions) :
  Forall (fun m => exists content, In (path m, content) files)
         (fold_left (mockScanFile toLowerCase query options) files []).
Proof.
  apply (mockScanFiles_forall toLowerCase unit (fun _ _ => None)
           (fun _ _ => None)
           (fun m => exists content, In (path m, content) files));
    [|constructor].
  intros filePath content m Hin Hm.
  destruct (reported_offsets _ _ _ _ _ _ _ _ _ _ Hm) as [_ E].
  rewrite <- E in Hin.
  now exists content.
Qed.

(** X23. Over files whose paths all begin with a slash, the mock's
    [textSearch] returns, and its grouping object never meets an inherited
    property: the callback is called with the groups of the matches by
    path, once for each path that has a match and never twice for a path;
    the batch of a path holds all the matches found under that path, in the
    order they were found, and every match found is in the batch of its
    path. *)
Theorem mock_search_one_batch_per_path (files : JsMap.t string) (query : string)
    (options : CodeSandboxSearchOptions) :
  (forall p content, In (p, content) files -> startsWith p "/" = true) ->
  let found := fold_left (mockScanFile toLowerCase query options) files [] in
  let run := mockTextSearch toLowerCase files query options emptySearch in
  fst run = Ok tt /\
  results (snd run) = found /\
  Grouping.reduce path found = Ok (calls (snd run)) /\
  NoDup (map fst (calls (snd run))) /\
  (forall p batch,
      In (p, batch) (calls (snd run)) ->
      batch <> [] /\ batch = filter (fun m => String.eqb (path m) p) found) /\
  (forall m, In m found ->
             exists batch, In (path m, batch) (calls (snd run)) /\ In m batch).
Proof.
  intros Hfiles found run. unfold run, mockTextSearch, bind, modify. simpl.
  fold found. rewrite forOf_progressCallback. simpl.
  change (fold_left group_step found [])
    with (fold_left (Grouping.step path) found []).
  assert (NoDup (JsMap.keys (fold_left (Grouping.step path) found []))) as Hnd
    by (apply group_loop_keys_unique; constructor).
  split; [reflexivity|]. split; [reflexivity|]. split; [|split; [exact Hnd|split]].
  - rewrite reduce_spec.
    assert (existsb (fun m => Grouping.isInherited (path m)) found = false) as ->;
      [|reflexivity].
    destruct (existsb _ found) eqn:E; [|reflexivity].
    apply existsb_exists in E. destruct E as [m [Hm E]].
    pose proof (mock_found_paths files query options) as Hpaths.
    rewrite Forall_forall in Hpaths. destruct (Hpaths m Hm) as [content Hin].
    rewrite (slash_not_inherited _ (Hfiles _ _ Hin)) in E. discriminate E.
  - intros p batch Hin. apply (in_get_unique _ _ _ Hnd) in Hin.
    rewrite group_loop_get in Hin. simpl in Hin.
    destruct (filter (fun m => String.eqb (path m) p) found) as [|m ms];
      [discriminate|].
    injection Hin as <-. split; [discriminate | reflexivity].
  - intros m Hm.
    pose proof (group_loop_get _ path found (path m) []) as G. simpl in G.
    assert (In m (filter (fun x => String.eqb (path x) (path m)) found)) as Hf.
    { apply filter_In. split; [exact Hm | apply String.eqb_refl]. }
    destruct (filter (fun x => String.eqb (path x) (path m)) found) as [|m0 ms];
      [destruct Hf|].
    exists (m0 :: ms). split; [now apply get_in | exact Hf].
Qed.
End MockBatches.

Lemma mock_search_one_batch_per_path_witness :
  let files := [("/src/a.ts", "foo" ++ Js.nl ++ "bar foo"); ("/b.ts", "Foo")] in
  let options := Csb.mkOptions None None None None false false false in
  Csb.calls (snd (Csb.mockTextSearch Js.toLowerCaseLatin1 files "foo" options
                                 Csb.emptySearch))
  = [("/src/a.ts", [Csb.mkResult "/src/a.ts" 1 "foo" 0 3;
                    Csb.mkResult "/src/a.ts" 2 "bar foo" 4 7]);
     ("/b.ts", [Csb.mkResult "/b.ts" 1 "Foo" 0 3])] /\
  NoDup (map fst (Csb.calls (snd (Csb.mockTextSearch Js.toLowerCaseLatin1 files "foo"
                                                 options Csb.emptySearch)))).
Proof.
  intros files options. split; [reflexivity|].
  refine (proj1 (proj2 (proj2 (proj2
    (mock_search_one_batch_per_path Js.toLowerCaseLatin1 files "foo" options _))))).
  intros p content [E|[E|[]]]; injection E as <- _; reflexivity.
Defined.

(** ** The search panel *)

Section PanelSearch.
Import Js SearchUI.
Variable toLowerCase : string -> string.
Variable RegExp : Type.
Variable RegExp_new : string -> string -> option RegExp.
Variable RegExp_exec : RegExp -> string -> option Z.

Local Abbreviation performCodeSandboxSearch :=
  (SearchUI.performCodeSandboxSearch toLowerCase RegExp_new RegExp_exec).

(** X24. [performCodeSandboxSearch] never throws. It hands nothing to
    [onProgress] when the instance is missing, not loaded or fails its
    health check; and an instance created by the [codesandbox] module (no
    promise kept from a hot reload) always fails it, the mock included: for
    such an instance the panel's CodeSandbox search shows no result,
    whatever the query. *)
Theorem panel_codesandbox_search_outcomes (fuel : nat)
    (context : Csb.CodeSandboxContext) (query : string)
    (options : Csb.CodeSandboxSearchOptions)
    (batches : list (list DisplayMatch)) :
  (forall instance e,
      fst (performCodeSandboxSearch fuel instance context query options batches)
      <> Throw e) /\
  performCodeSandboxSearch fuel None context query options batches
  = (Ok tt, batches) /\
  (forall i,
      Csb.isLoaded i context = false \/ Csb.healthCheck i = false ->
      performCodeSandboxSearch fuel (Some i) context query options batches
      = (Ok tt, batches)) /\
  (forall env context0 i,
      Csb.hot_codesandbox env = None ->
      fst (Csb.codesandbox env context0) = Ok i ->
      performCodeSandboxSearch fuel (Some i) context query options batches
      = (Ok tt, batches)).
Proof.
  assert (forall i,
             Csb.isLoaded i context = false \/ Csb.healthCheck i = false ->
             performCodeSandboxSearch fuel (Some i) context query options batches
             = (Ok tt, batches)) as Hskip.
  { intros i H. unfold SearchUI.performCodeSandboxSearch, try_catch, bind, ret.
    destruct (Csb.isLoaded i context); simpl; [|reflexivity].
    destruct H as [H|H]; [discriminate|]. now rewrite H. }
  split; [|split; [reflexivity|split; [exact Hskip|]]].
  - intros [i|] e; [|discriminate].
    unfold SearchUI.performCodeSandboxSearch. apply never_throws_try_catch_ret.
  - intros env context0 i Hhot Hi. apply Hskip. right.
    exact (proj1 (created_instance_unhealthy env context0 i Hhot Hi)).
Qed.
End PanelSearch.

Section PanelRendering.
Import Js SearchUI.

Lemma dropChars_nil (n : nat) : dropChars n "" = "".
Proof. now destruct n. Qed.

Lemma takeChars_nil (n : nat) : takeChars n "" = "".
Proof. now destruct n. Qed.

Lemma dropChars_dropChars (a b : nat) (s : string) :
  dropChars a (dropChars b s) = dropChars (b + a) s.
Proof.
  revert s. induction b as [|b IH]; intros s; simpl; [reflexivity|].
  destruct s as [|c s]; [apply dropChars_nil | apply IH].
Qed.

Lemma dropChars_all (n : nat) (s : string) :
  (String.length s <= n)%nat -> dropChars n s = "".
Proof.
  revert s. induction n as [|n IH]; intros s H.
  - destruct s; [reflexivity | simpl in H; lia].
  - destruct s as [|c s]; [reflexivity|]. simpl in *. apply IH. lia.
Qed.

Lemma takeChars_all (n : nat) (s : string) :
  (String.length s <= n)%nat -> takeChars n s = s.
Proof.
  revert s. induction n as [|n IH]; intros s H.
  - destruct s; [reflexivity | simpl in H; lia].
  - destruct s as [|c s]; [reflexivity|]. simpl in *. f_equal. apply IH. lia.
Qed.

Lemma length_dropChars (n : nat) (s : string) :
  String.length (dropChars n s) = (String.length s - n)%nat.
Proof.
  revert s. induction n as [|n IH]; intros s; simpl; [lia|].
  destruct s as [|c s]; [reflexivity | apply IH].
Qed.

(** With indices that are not negative, [slice] is "drop, then take". *)
Lemma slice_nonneg (s : string) (a b : Z) :
  0 <= a -> 0 <= b ->
  slice s a b = takeChars (Z.to_nat (b - a)) (dropChars (Z.to_nat a) s).
Proof.
  intros Ha Hb. unfold slice, sliceIndex, len.
  assert ((a <? 0) = false) as -> by (apply Z.ltb_ge; lia).
  assert ((b <? 0) = false) as -> by (apply Z.ltb_ge; lia).
  destruct (Z_le_gt_dec a (Z.of_nat (String.length s))) as [Hal|Hal].
  - rewrite (Z.min_l a) by lia.
    destruct (Z_le_gt_dec b (Z.of_nat (String.length s))) as [Hbl|Hbl].
    + now rewrite (Z.min_l b) by lia.
    + rewrite (Z.min_r b) by lia.
      rewrite !takeChars_all; [reflexivity| |]; rewrite length_dropChars; lia.
  - rewrite (Z.min_r a) by lia. rewrite Nat2Z.id.
    rewrite !dropChars_all by lia. now rewrite !takeChars_nil.
Qed.

Lemma sliceFrom_nonneg (s : string) (a : Z) :
  0 <= a -> sliceFrom s a = dropChars (Z.to_nat a) s.
Proof.
  intros Ha. unfold sliceFrom, sliceIndex, len.
  assert ((a <? 0) = false) as -> by (apply Z.ltb_ge; lia).
  destruct (Z_le_gt_dec a (Z.of_nat (String.length s))) as [Hal|Hal].
  - now rewrite (Z.min_l a) by lia.
  - rewrite (Z.min_r a) by lia. rewrite Nat2Z.id.
    now rewrite !dropChars_all by lia.
Qed.

(** X25. For a match whose offsets satisfy [0 <= matchCharStart <=
    matchCharEnd], the result list highlights exactly
    [previewText.slice(matchCharStart, matchCharEnd)], shows after it the
    rest of the line from [matchCharEnd], and before it the (at most) seven
    characters that precede the match, with an ellipsis exactly when the
    match starts beyond the seventh character. *)
Theorem renderMatch_shows_the_match (m : DisplayMatch) :
  0 <= matchCharStart m <= matchCharEnd m ->
  let r := renderMatch m in
  ellipsis r = (contextChars <? matchCharStart m) /\
  before r = slice (previewText m) (Z.max 0 (matchCharStart m - contextChars))
                   (matchCharStart m) /\
  highlighted r = slice (previewText m) (matchCharStart m) (matchCharEnd m) /\
  after r = sliceFrom (previewText m) (matchCharEnd m).
Proof.
  intros [Hs He] r. subst r. unfold renderMatch, contextChars. cbv zeta.
  cbn [ellipsis before highlighted after].
  destruct (matchCharStart m <=? 7) eqn:E.
  - apply Z.leb_le in E.
    assert ((7 <? matchCharStart m) = false) as -> by (apply Z.ltb_ge; lia).
    rewrite (Z.max_l 0) by lia.
    assert (sliceFrom (previewText m) 0 = previewText m) as ->
      by (now rewrite sliceFrom_nonneg by lia).
    repeat split.
  - apply Z.leb_gt in E.
    assert ((7 <? matchCharStart m) = true) as -> by (apply Z.ltb_lt; lia).
    rewrite (Z.max_r 0) by lia.
    rewrite (sliceFrom_nonneg (previewText m)) by lia.
    rewrite !slice_nonneg by lia. rewrite !sliceFrom_nonneg by lia.
    rewrite !dropChars_dropChars. simpl (dropChars (Z.to_nat 0) _).
    replace (Z.to_nat (matchCharStart m - 7) + Z.to_nat 7)%nat
      with (Z.to_nat (matchCharStart m)) by lia.
    replace (Z.to_nat (matchCharStart m - 7)
             + Z.to_nat (7 + (matchCharEnd m - matchCharStart m)))%nat
      with (Z.to_nat (matchCharEnd m)) by lia.
    replace (7 - 0) with (matchCharStart m - (matchCharStart m - 7)) by lia.
    replace (7 + (matchCharEnd m - matchCharStart m) - 7)
      with (matchCharEnd m - matchCharStart m) by lia.
    replace (Z.to_nat (matchCharStart m - 7) + Z.to_nat 0)%nat
      with (Z.to_nat (matchCharStart m - 7)) by lia.
    repeat split.
Qed.

Lemma renderMatch_shows_the_match_witness :
  let m := mkDisplayMatch "/a.ts" 3 "const answer = compute(41);" 15 22 in
  ellipsis (renderMatch m) = true /\
  before (renderMatch m) = "swer = " /\
  highlighted (renderMatch m) = "compute" /\
  after (renderMatch m) = "(41);".
Proof.
  apply (renderMatch_shows_the_match
           (mkDisplayMatch "/a.ts" 3 "const answer = compute(41);" 15 22)).
  simpl. lia.
Defined.
End PanelRendering.

(** ** The store of the file panel *)

Section StoreTree.
Import Js Store.

Lemma pushed_nil (e : option TreeEntry) : pushed e [] = e.
Proof. destruct e as [[|cs]|]; simpl; [reflexivity| |reflexivity]. now rewrite app_nil_r. Qed.

Lemma pushed_app (e : option TreeEntry) (a b : list string) :
  pushed (pushed e a) b = pushed e (a ++ b).
Proof.
  destruct e as [[|cs]|]; simpl; [reflexivity| |].
  - now rewrite app_assoc.
  - destruct a as [|x a]; simpl; [reflexivity|]. reflexivity.
Qed.

Lemma directory_step_fst parts cur (T : JsMap.t TreeEntry) part :
  fst (directory_step parts (cur, T) part) = cur ++ "/" ++ part.
Proof.
  unfold directory_step. cbn [fst snd].
  destruct (JsMap.get _ _) as [[|cs]|]; reflexivity.
Qed.

Lemma directory_step_get parts cur (T : JsMap.t TreeEntry) part :
  exists child,
    forall d,
      JsMap.get d (snd (directory_step parts (cur, T) part))
      = pushed (JsMap.get d T)
               (if String.eqb d (cur ++ "/" ++ part) then [child] else []).
Proof.
  exists ((cur ++ "/" ++ part) ++ "/" ++ arrayAt parts (arrayIndexOf part parts + 1)).
  intros d. unfold directory_step, JsMap.has. cbn [fst snd].
  set (c := cur ++ "/" ++ part).
  destruct (String.eqb d c) eqn:E.
  - apply String.eqb_eq in E. subst d.
    destruct (JsMap.get c T) as [[|cs]|] eqn:G; cbn [negb].
    + rewrite G. cbn [snd]. now rewrite G.
    + rewrite G. cbn [snd]. now rewrite get_set_same.
    + rewrite get_set_same. cbn [snd]. now rewrite get_set_same.
  - apply String.eqb_neq in E. rewrite pushed_nil.
    destruct (JsMap.get c T) as [[|cs]|] eqn:G; cbn [negb].
    + rewrite G. reflexivity.
    + rewrite G. cbn [snd]. now rewrite get_set_other.
    + rewrite get_set_same. cbn [snd]. now rewrite !get_set_other.
Qed.

Lemma directory_loop_get parts0 (ps : list string) :
  forall cur (T : JsMap.t TreeEntry),
  exists f : string -> list string,
    (forall d, JsMap.get d (snd (fold_left (directory_step parts0) ps (cur, T)))
               = pushed (JsMap.get d T) (f d)) /\
    (forall d, List.length (f d)
               = count_occ string_dec (LocalFS.chainFrom cur ps) d).
Proof.
  induction ps as [|part ps IH]; intros cur T.
  - exists (fun _ => []). split; intros d; simpl; [now rewrite pushed_nil | reflexivity].
  - cbn [fold_left].
    destruct (directory_step_get parts0 cur T part) as [child Hstep].
    pose proof (directory_step_fst parts0 cur T part) as Hfst.
    destruct (directory_step parts0 (cur, T) part) as [c T1]. cbn [fst snd] in *.
    subst c. destruct (IH (cur ++ "/" ++ part) T1) as [f [Hf Hlen]].
    exists (fun d => (if String.eqb d (cur ++ "/" ++ part) then [child] else []) ++ f d)%list.
    split; intros d.
    + rewrite Hf, Hstep. apply pushed_app.
    + rewrite length_app, Hlen. cbn [LocalFS.chainFrom count_occ].
      destruct (string_dec (cur ++ "/" ++ part) d) as [<-|Hne].
      * now rewrite String.eqb_refl.
      * assert (String.eqb d (cur ++ "/" ++ part) = false) as ->
          by (apply String.eqb_neq; congruence). reflexivity.
Qed.

Lemma addDirectories_get (T : JsMap.t TreeEntry) (p : string) :
  exists f : string -> list string,
    (forall d, JsMap.get d (addDirectories T p) = pushed (JsMap.get d T) (f d)) /\
    (forall d, List.length (f d) = count_occ string_dec (directoriesOf p) d).
Proof. unfold addDirectories, directoriesOf. apply directory_loop_get. Qed.

Lemma addDirectories_loop_get (paths : list string) :
  forall T : JsMap.t TreeEntry,
  exists f : string -> list string,
    (forall d, JsMap.get d (fold_left addDirectories paths T)
               = pushed (JsMap.get d T) (f d)) /\
    (forall d, List.length (f d)
               = list_sum (map (fun p => count_occ string_dec (directoriesOf p) d)
                               paths)).
Proof.
  induction paths as [|p paths IH]; intros T.
  - exists (fun _ => []). split; intros d; simpl; [now rewrite pushed_nil | reflexivity].
  - cbn [fold_left]. destruct (addDirectories_get T p) as [f1 [H1 L1]].
    destruct (IH (addDirectories T p)) as [f2 [H2 L2]].
    exists (fun d => f1 d ++ f2 d)%list. split; intros d.
    + rewrite H2, H1. apply pushed_app.
    + rewrite length_app, L1, L2. reflexivity.
Qed.

Lemma files_loop_get (paths : list string) (d : string) :
  forall T : JsMap.t TreeEntry,
    JsMap.get d (fold_left (fun tree path => assign path FileEntry tree) paths T)
    = if existsb (fun p => String.eqb p d && negb (String.eqb p "__proto__")) paths
      then Some FileEntry else JsMap.get d T.
Proof.
  induction paths as [|p paths IH]; intros T; cbn [fold_left existsb];
    [reflexivity|].
  rewrite IH. destruct (existsb _ paths); [now rewrite orb_true_r|].
  rewrite orb_false_r. unfold assign.
  destruct (String.eqb p "__proto__"); [now rewrite andb_false_r|].
  rewrite andb_true_r. destruct (String.eqb p d) eqn:E.
  - apply String.eqb_eq in E. subst d. apply get_set_same.
  - apply String.eqb_neq in E. apply get_set_other. congruence.
Qed.

Lemma chainFrom_longer (parts : list string) :
  forall cur d, In d (LocalFS.chainFrom cur parts) ->
                (String.length cur < String.length d)%nat.
Proof.
  induction parts as [|part parts IH]; intros cur d; simpl; [intros []|].
  intros [<-|Hin].
  - rewrite string_length_app. simpl. lia.
  - apply IH in Hin. rewrite string_length_app in Hin. simpl in Hin. lia.
Qed.

Lemma chainFrom_NoDup (parts : list string) :
  forall cur, NoDup (LocalFS.chainFrom cur parts).
Proof.
  induction parts as [|part parts IH]; intros cur; simpl; constructor.
  - intros Hin. apply chainFrom_longer in Hin. lia.
  - apply IH.
Qed.

Lemma count_occ_unique (l : list string) (d : string) :
  NoDup l ->
  count_occ string_dec l d = if existsb (String.eqb d) l then 1%nat else 0%nat.
Proof.
  intros Hnd. destruct (existsb (String.eqb d) l) eqn:E.
  - apply existsb_exists in E. destruct E as [x [Hin E]].
    apply String.eqb_eq in E. subst x.
    pose proof (proj1 (NoDup_count_occ string_dec l) Hnd d).
    pose proof (proj1 (count_occ_In string_dec l d) Hin). lia.
  - apply count_occ_not_In. intros Hin.
    assert (existsb (String.eqb d) l = true) as E'
      by (apply existsb_exists; exists d; split; [exact Hin | apply String.eqb_refl]).
    congruence.
Qed.

Lemma below_count (paths : list string) (d : string) :
  list_sum (map (fun p => count_occ string_dec (directoriesOf p) d) paths)
  = List.length (filter (fun p => existsb (String.eqb d) (directoriesOf p)) paths).
Proof.
  unfold list_sum.
  induction paths as [|p paths IH]; cbn [map fold_right filter]; [reflexivity|].
  rewrite IH, (count_occ_unique (directoriesOf p) d)
    by (unfold directoriesOf; apply chainFrom_NoDup).
  destruct (existsb (String.eqb d) (directoriesOf p)); reflexivity.
Qed.

(** X27. The tree the store builds from its files has a [file] entry at
    every stored path (other than [__proto__]); at a path [d] that is not
    stored it has a [directory] entry exactly when [d] is a proper ancestor
    of a stored path, and the [children] of that entry has one element for
    each stored path below [d]: a directory lists a subdirectory once for
    every file under it, not once. *)
Theorem store_getFileTree_entries (currentFiles : JsMap.t LocalFS.FileNode) :
  let paths := JsMap.keys currentFiles in
  let tree := getFileTree currentFiles in
  (forall p, In p paths -> p <> "__proto__" -> JsMap.get p tree = Some FileEntry) /\
  (forall d, ~ In d paths ->
     let below := filter (fun p => existsb (String.eqb d) (directoriesOf p)) paths in
     match JsMap.get d tree with
     | Some (DirectoryEntry children) =>
         below <> [] /\ List.length children = List.length below
     | Some FileEntry => False
     | None => below = []
     end).
Proof.
  intros paths tree.
  destruct (addDirectories_loop_get paths
              (fold_left (fun tree path => assign path FileEntry tree) paths []))
    as [f [Hget Hlen]].
  split.
  - intros p Hin Hne. unfold tree, getFileTree. fold paths.
    rewrite Hget, files_loop_get.
    assert (existsb (fun q => String.eqb q p && negb (String.eqb q "__proto__")) paths
            = true) as ->; [|reflexivity].
    apply existsb_exists. exists p. split; [exact Hin|].
    rewrite String.eqb_refl.
    now assert (String.eqb p "__proto__" = false) as -> by (now apply String.eqb_neq).
  - intros d Hnot below. unfold tree, getFileTree. fold paths.
    rewrite Hget, files_loop_get.
    assert (existsb (fun q => String.eqb q d && negb (String.eqb q "__proto__")) paths
            = false) as ->.
    { destruct (existsb _ paths) eqn:E; [|reflexivity].
      apply existsb_exists in E. destruct E as [q [Hin E]].
      apply andb_prop in E. destruct E as [E _]. apply String.eqb_eq in E.
      now subst q. }
    simpl JsMap.get. specialize (Hlen d). rewrite below_count in Hlen. fold below in Hlen.
    destruct (f d) as [|x more]; simpl in *.
    + now destruct below.
    + split; [|exact Hlen]. intros E. now rewrite E in Hlen.
Qed.

Lemma store_getFileTree_entries_witness :
  let node := LocalFS.mkFileNode "" "x" false 0 in
  let currentFiles := [("/src/x/a.ts", node); ("/src/x/b.ts", node)] in
  JsMap.get "/src" (getFileTree currentFiles)
  = Some (DirectoryEntry ["/src/x"; "/src/x"]) /\
  forall p, In p (JsMap.keys currentFiles) -> p <> "__proto__" ->
            JsMap.get p (getFileTree currentFiles) = Some FileEntry.
Proof.
  intros node currentFiles. split; [reflexivity|].
  exact (proj1 (store_getFileTree_entries currentFiles)).
Defined.

(** A segment that occurs twice in a path misleads [parts.indexOf]: the
    child recorded for [/a/a] is [/a/a/a], not the file. *)
Example store_getFileTree_repeated_segment :
  getFileTree [("/a/a/b.ts", LocalFS.mkFileNode "/a/a/b.ts" "x" false 0)]
  = [("/a/a/b.ts", FileEntry);
     ("/a", DirectoryEntry ["/a/a"]);
     ("/a/a", DirectoryEntry ["/a/a/a"])].
Proof. reflexivity. Qed.
End StoreTree.

Section StoreMethods.
Import Js Store.
Variable W : Type.
Variable sandbox : Manager.SandboxMethods W.
Variable wcfs : Manager.WebContainerFs W.
Variable now : Z.

Local Abbreviation StoreHeap := (Store.StoreHeap W).

(** X28. [createFile] and [deleteFile] leave [filesCount] equal to the
    number of files in the store whenever they return, with the file
    recorded under its path (any path but [__proto__]), respectively
    removed; when the manager rejects, they reject with the manager's
    error and leave the store as it was. *)
Theorem createFile_deleteFile_keep_count (h : StoreHeap) (path content : string) :
  let created := createFile sandbox wcfs now path content h in
  let deleted := deleteFile sandbox wcfs path h in
  (match fst created with
   | Ok _ =>
       filesCount (store (snd created)) = keyCount (files (store (snd created))) /\
       (path <> "__proto__" ->
        JsMap.get path (files (store (snd created)))
        = Some (LocalFS.mkFileNode path content false now))
   | other =>
       other = fst (Manager.writeFile sandbox wcfs now path content (manager h)) /\
       store (snd created) = store h
   end) /\
  (match fst deleted with
   | Ok _ =>
       filesCount (store (snd deleted)) = keyCount (files (store (snd deleted))) /\
       JsMap.get path (files (store (snd deleted))) = None
   | other =>
       other = fst (Manager.deleteFile sandbox wcfs path (manager h)) /\
       store (snd deleted) = store h
   end).
Proof.
  unfold createFile, deleteFile, rethrow, try_catch, bind, onManager, update,
    modify, throw.
  split.
  - destruct (Manager.writeFile sandbox wcfs now path content (manager h))
      as [[[]|e|] m']; simpl; auto.
    split; [reflexivity|]. intros Hne. unfold assign.
    assert (String.eqb path "__proto__" = false) as -> by (now apply String.eqb_neq).
    apply get_set_same.
  - destruct (Manager.deleteFile sandbox wcfs path (manager h))
      as [[[]|e|] m']; simpl; auto.
    split; [reflexivity | apply get_delete_same].
Qed.

(** X29. [writeFile] never touches [filesCount]: when it returns after
    writing a path the store did not hold, the store holds one file more
    than before under a count that has not moved. *)
Theorem writeFile_leaves_filesCount (h : StoreHeap) (path content : string) :
  let written := writeFile sandbox wcfs now path content h in
  filesCount (store (snd written)) = filesCount (store h) /\
  (fst written = Ok tt -> path <> "__proto__" ->
   JsMap.get path (files (store (snd written)))
   = Some (LocalFS.mkFileNode path content false now) /\
   (JsMap.get path (files (store h)) = None ->
    keyCount (files (store (snd written))) = keyCount (files (store h)) + 1)).
Proof.
  unfold writeFile, rethrow, try_catch, bind, onManager, update, modify, throw.
  destruct (Manager.writeFile sandbox wcfs now path content (manager h))
    as [[[]|e|] m']; simpl; (split; [reflexivity|]); try discriminate.
  intros _ Hne. unfold assign.
  assert (String.eqb path "__proto__" = false) as -> by (now apply String.eqb_neq).
  split; [apply get_set_same|]. intros G. unfold keyCount.
  rewrite (keys_set_new _ _ _ _ G), List.length_app. simpl. lia.
Qed.

(** X30. The store's queries never reject: [listFiles] answers the empty
    list, [fileExists] and [healthCheck] answer [false] and [getFileInfo]
    answers [null] where the manager rejects, as it does for every path
    until it is ready. *)
Theorem store_queries_never_reject (h : StoreHeap) (path : string) :
  (forall e,
      fst (listFiles sandbox wcfs path h) <> Throw e /\
      fst (fileExists sandbox wcfs path h) <> Throw e /\
      fst (getFileInfo sandbox wcfs path h) <> Throw e /\
      fst (healthCheck sandbox wcfs h) <> Throw e) /\
  (Manager._isReady (Manager.this (manager h)) = false ->
   listFiles sandbox wcfs path h = (Ok [], h) /\
   fileExists sandbox wcfs path h = (Ok false, h) /\
   getFileInfo sandbox wcfs path h = (Ok None, h) /\
   healthCheck sandbox wcfs h = (Ok false, h) /\
   readFile sandbox wcfs path h = (Throw "File manager not ready", h)).
Proof.
  split.
  - intros e.
    unfold listFiles, fileExists, getFileInfo, healthCheck, try_catch, bind,
      onManager, ret.
    repeat split.
    + destruct (Manager.readdir sandbox wcfs path (manager h)) as [[?|?|] ?];
        discriminate.
    + destruct (Manager.exists_ sandbox wcfs path (manager h)) as [[?|?|] ?];
        discriminate.
    + destruct (Manager.stat sandbox wcfs path (manager h)) as [[?|?|] ?];
        discriminate.
    + destruct (Manager.healthCheck sandbox wcfs (manager h)) as [[?|?|] ?];
        discriminate.
  - intros Hr. destruct h as [m s]. simpl in Hr.
    unfold listFiles, fileExists, getFileInfo, healthCheck, readFile, rethrow,
      try_catch, bind, onManager, ret, throw.
    unfold Manager.readdir, Manager.exists_, Manager.stat, Manager.readFile,
      Manager.healthCheck, Manager.whenReady, try_catch, bind, gets, throw, ret.
    simpl. rewrite Hr. simpl. repeat split.
Qed.

Lemma loading_onManager {A} (c : M (Manager.Heap W) A) (b : bool) :
  preserves (fun h : StoreHeap => isLoading (store h) = b) (onManager c).
Proof.
  intros h Hh. unfold onManager. now destruct (c (manager h)).
Qed.

Lemma loading_loadFileTree (fuel : nat) (root : string) (b : bool) :
  preserves (fun h : StoreHeap => isLoading (store h) = b)
            (loadFileTree sandbox wcfs now fuel root).
Proof.
  intros h Hh.
  unfold loadFileTree, rethrow, try_catch, bind, onManager, update, modify, throw.
  destruct (Manager.getFileTree sandbox wcfs now fuel root (manager h))
    as [[?|?|] ?]; simpl; exact Hh.
Qed.

(** When an upload through the store returns or rejects, [isLoading] is
    false again; it stays true exactly when the upload never settles. *)
Lemma upload_resets_isLoading (fuel : nat) (uploaded : list Manager.File)
    (h : StoreHeap) :
  let files := uploadFiles sandbox wcfs now fuel uploaded h in
  let folder := uploadFolder sandbox wcfs now fuel uploaded h in
  isLoading (store (snd files))
  = match fst files with Pending => true | _ => false end /\
  isLoading (store (snd folder))
  = match fst folder with Pending => true | _ => false end.
Proof.
  assert (forall c : M (Manager.Heap W) unit,
             let r := try_finally
                        (rethrow (update (set_isLoading true) ;;;
                                  onManager c ;;;
                                  loadFileTree sandbox wcfs now fuel "/")%js)
                        (update (set_isLoading false)) h in
             isLoading (store (snd r))
             = match fst r with Pending => true | _ => false end) as H.
  { intros c.
    pose proof (loading_onManager c true) as H1.
    pose proof (loading_loadFileTree fuel "/" true) as H2.
    unfold preserves in H1, H2.
    unfold try_finally, rethrow, try_catch, bind, update, modify, throw. simpl.
    specialize (H1 (mkStoreHeap (manager h) (set_isLoading true (store h))) eq_refl).
    destruct (onManager c _) as [[[]|e|] h1]; simpl in *; try reflexivity;
      try exact H1.
    specialize (H2 h1 H1).
    destruct (loadFileTree sandbox wcfs now fuel "/" h1) as [[[]|e|] h2];
      simpl in *; try reflexivity; exact H2. }
  split; apply H.
Qed.
End StoreMethods.

Section StoreExamples.
Import Manager Store.

Local Abbreviation readyStore :=
  (mkStoreHeap
     (Manager.mkHeap
        (mkManager local true None (LocalAdapter (LocalFS.new 0)) None false) tt)
     Store.new).

Local Abbreviation newStore :=
  (mkStoreHeap (Manager.mkHeap (Manager.new 0) tt) Store.new).

Lemma writeFile_leaves_filesCount_witness :
  let written := Store.writeFile offlineSandbox offlineWebContainerFs 0
                                 "/notes.txt" "hello" readyStore in
  filesCount (store (snd written)) = 0 /\
  keyCount (files (store (snd written))) = 1.
Proof.
  intros written.
  destruct (writeFile_leaves_filesCount unit offlineSandbox offlineWebContainerFs 0
              readyStore "/notes.txt" "hello") as [Hcount Hfiles].
  split; [exact Hcount|].
  refine (proj2 (Hfiles eq_refl _) eq_refl). discriminate.
Defined.

Lemma store_queries_never_reject_witness :
  Store.fileExists offlineSandbox offlineWebContainerFs "/package.json" newStore
  = (Ok false, newStore) /\
  Store.readFile offlineSandbox offlineWebContainerFs "/package.json" newStore
  = (Throw "File manager not ready", newStore).
Proof.
  destruct (proj2 (store_queries_never_reject unit offlineSandbox
                     offlineWebContainerFs newStore "/package.json") eq_refl)
    as [_ [He [_ [_ Hr]]]].
  split; [exact He | exact Hr].
Defined.
End StoreExamples.
